(** * The on-chain artifact decoder of fiber-nodes-monit

    A shallow embedding of [src/lib/ckb.ts]: the integer, lock-args and
    witness codecs, [getTxMessage], [getLnCellDeathHash], [getLnTxTrace], and
    [computeAccountBalance] with [scriptEquals] from the later revision of
    the same module (its copy of the codecs and of the transaction builder
    is the same text), followed by the properties of the decoder.

    Conventions of the embedding:
    - a JavaScript string is a list of code units; only code units below 256
      occur (RPC payloads are ASCII), so a code unit is an [ascii];
    - a [bigint] is a [Z]; a [number] produced by [parseInt] is an integer or
      [NaN];
    - a function that can throw returns a [JsResult];
    - the chain RPC is an explicit [ChainQueryClient] value, which also says
      in which order concurrent lookups settle;
    - an unbounded loop takes a bound on its number of rounds and returns
      [None] when the bound is reached. *)

From Stdlib Require Import Ascii String DecimalString DecimalZ.
From Stdlib Require Import ZArith List Bool Lia Permutation.
Import ListNotations.

Local Open Scope Z_scope.

(** ** JavaScript built-ins used by the decoder *)

Module JS.

Abbreviation jsstring := (list ascii).

Definition str (s : string) : jsstring := list_ascii_of_string s.

Inductive JsError :=
| SyntaxError (message : jsstring)
| TypeError (message : jsstring)
| Error (message : jsstring).

Definition message (e : JsError) : jsstring :=
  match e with SyntaxError m | TypeError m | Error m => m end.

Inductive JsResult (A : Type) :=
| Ok (a : A)
| Throw (e : JsError).
Arguments Ok {A} a.
Arguments Throw {A} e.

Definition bind {A B} (r : JsResult A) (k : A -> JsResult B) : JsResult B :=
  match r with Ok a => k a | Throw e => Throw e end.

(** [number]: the values [parseInt] can produce here. *)
Inductive number := NaN | Int (z : Z).

Definition eqb (a b : jsstring) : bool :=
  if list_eq_dec ascii_dec a b then true else false.

Fixpoint startsWith (s p : jsstring) {struct p} : bool :=
  match p, s with
  | [], _ => true
  | c :: p', d :: s' => Ascii.eqb c d && startsWith s' p'
  | _ :: _, [] => false
  end.

(** [s.substring(a, b)]: both ends clamped to the length, swapped when
    [a > b]. *)
Definition substring (s : jsstring) (a b : nat) : jsstring :=
  let lo := Nat.min a b in
  let hi := Nat.max a b in
  firstn (hi - lo) (skipn lo s).

(** [s.substring(a)] and [s.slice(a)] for a non-negative literal [a]. *)
Definition substringFrom (s : jsstring) (a : nat) : jsstring := skipn a s.
Definition slice (s : jsstring) (a : nat) : jsstring := skipn a s.

Definition codeUnit (c : ascii) : Z := Z.of_nat (nat_of_ascii c).

(** White space and line terminators among the code units below 256. *)
Definition isWhiteSpace (c : ascii) : bool :=
  let n := codeUnit c in
  (9 <=? n) && (n <=? 13) || (n =? 32) || (n =? 160).

Fixpoint trimStart (s : jsstring) : jsstring :=
  match s with
  | c :: r => if isWhiteSpace c then trimStart r else s
  | [] => []
  end.

Fixpoint trimEnd (s : jsstring) : jsstring :=
  match s with
  | [] => []
  | c :: r =>
      match trimEnd r with
      | [] => if isWhiteSpace c then [] else [c]
      | r' => c :: r'
      end
  end.

Definition trim (s : jsstring) : jsstring := trimEnd (trimStart s).

(** Value of a digit in the given radix (at most 16). *)
Definition digitOf (radix : Z) (c : ascii) : option Z :=
  let n := codeUnit c in
  let v :=
    if (48 <=? n) && (n <=? 57) then Some (n - 48)
    else if (97 <=? n) && (n <=? 102) then Some (n - 87)
    else if (65 <=? n) && (n <=? 70) then Some (n - 55)
    else None in
  match v with
  | Some d => if d <? radix then Some d else None
  | None => None
  end.

Fixpoint digitsAcc (radix acc : Z) (s : jsstring) : option Z :=
  match s with
  | [] => Some acc
  | c :: r =>
      match digitOf radix c with
      | Some d => digitsAcc radix (acc * radix + d) r
      | None => None
      end
  end.

(** One or more digits, nothing else. *)
Definition digitsValue (radix : Z) (s : jsstring) : option Z :=
  match s with
  | [] => None
  | _ => digitsAcc radix 0 s
  end.

(** The longest prefix of digits, as [parseInt] reads it. *)
Fixpoint digitPrefix (radix : Z) (s : jsstring) : jsstring :=
  match s with
  | c :: r =>
      match digitOf radix c with
      | Some _ => c :: digitPrefix radix r
      | None => []
      end
  | [] => []
  end.

Definition cannotConvert (s : jsstring) : JsError :=
  SyntaxError (str "Cannot convert " ++ s ++ str " to a BigInt").

(** [BigInt(s)] on a string: StringToBigInt. White space is trimmed, the
    empty string is [0n], a [0x]/[0o]/[0b] prefix selects the radix and takes
    no sign, a decimal literal may carry one. *)
Definition BigInt (s : jsstring) : JsResult Z :=
  let fail := Throw (cannotConvert s) in
  let lit (o : option Z) := match o with Some v => Ok v | None => fail end in
  match trim s with
  | [] => Ok 0
  | "0"%char :: c :: r =>
      if Ascii.eqb c "x" || Ascii.eqb c "X" then lit (digitsValue 16 r)
      else if Ascii.eqb c "o" || Ascii.eqb c "O" then lit (digitsValue 8 r)
      else if Ascii.eqb c "b" || Ascii.eqb c "B" then lit (digitsValue 2 r)
      else lit (digitsValue 10 ("0"%char :: c :: r))
  | "-"%char :: r => lit (option_map Z.opp (digitsValue 10 r))
  | "+"%char :: r => lit (digitsValue 10 r)
  | t => lit (digitsValue 10 t)
  end.

(** [parseInt(s, 16)]. *)
Definition parseInt16 (s : jsstring) : number :=
  let t := trimStart s in
  let '(sign, t) :=
    match t with
    | "-"%char :: r => (-1, r)
    | "+"%char :: r => (1, r)
    | _ => (1, t)
    end in
  let t :=
    match t with
    | "0"%char :: c :: r => if Ascii.eqb c "x" || Ascii.eqb c "X" then r else t
    | _ => t
    end in
  match digitsValue 16 (digitPrefix 16 t) with
  | Some v => Int (sign * v)
  | None => NaN
  end.

(** [z.toString()] of a bigint: its decimal numeral. *)
Definition toString (z : Z) : jsstring :=
  list_ascii_of_string (NilZero.string_of_int (Z.to_int z)).

Definition numberToString (n : number) : jsstring :=
  match n with NaN => str "NaN" | Int z => toString z end.

Definition toLowerChar (c : ascii) : ascii :=
  let n := codeUnit c in
  if (65 <=? n) && (n <=? 90) || (192 <=? n) && (n <=? 222) && negb (n =? 215)
  then ascii_of_nat (nat_of_ascii c + 32) else c.

Definition toLowerCase (s : jsstring) : jsstring := map toLowerChar s.

(** [xs[i]] with a numeric index: [undefined] outside the array. *)
Definition elementAt {A} (xs : list A) (i : number) : option A :=
  match i with
  | Int z => if z <? 0 then None else nth_error xs (Z.to_nat z)
  | NaN => None
  end.

(** Reading a property of [undefined]. *)
Definition undefinedRead (prop : string) : JsError :=
  TypeError (str "Cannot read properties of undefined (reading '" ++ str prop ++ str "')").

(** Own properties every object inherits from [Object.prototype]: reading
    one of these keys from a fresh object literal gives a truthy value. *)
Definition objectPrototypeKeys : list jsstring :=
  map str ["constructor"; "__defineGetter__"; "__defineSetter__"; "hasOwnProperty";
           "__lookupGetter__"; "__lookupSetter__"; "isPrototypeOf";
           "propertyIsEnumerable"; "toString"; "valueOf"; "__proto__";
           "toLocaleString"]%string.

Definition inherited (k : jsstring) : bool := existsb (eqb k) objectPrototypeKeys.

End JS.

Export JS.

Notation "x <- r ;; k" := (bind r (fun x => k))
  (at level 61, r at next level, right associativity).
Notation "' p <- r ;; k" := (bind r (fun x => let 'p := x in k))
  (at level 61, p pattern, r at next level, right associativity).

(** ** Byte-level reading of hex strings (reference definitions) *)

Definition isHexDigit (c : ascii) : bool :=
  match digitOf 16 c with Some _ => true | None => false end.

Definition isHex (s : jsstring) : bool := forallb isHexDigit s.

Definition hexDigitValue (c : ascii) : Z :=
  match digitOf 16 c with Some d => d | None => 0 end.

(** Big-endian value of a string of hex digits. *)
Definition hexValue (s : jsstring) : Z :=
  fold_left (fun acc c => acc * 16 + hexDigitValue c) s 0.

(** The bytes a hex string spells, two digits per byte, in string order. *)
Fixpoint hexBytes (s : jsstring) : list Z :=
  match s with
  | a :: b :: r => hexValue [a; b] :: hexBytes r
  | [a] => [hexValue [a]]
  | [] => []
  end.

(** The string [littleEndianHexToBigInt] splits into bytes: an odd number of
    digits gets a leading zero digit. *)
Definition padEven (hex : jsstring) : jsstring :=
  if Nat.eqb (List.length hex mod 2) 0 then hex else str "0" ++ hex.

Definition leValue (bytes : list Z) : Z :=
  fold_right (fun b acc => b + 256 * acc) 0 bytes.

Definition beValue (bytes : list Z) : Z :=
  fold_left (fun acc b => acc * 256 + b) bytes 0.

(** ** IntegerCodec *)

Local Open Scope nat_scope.

Definition MIN_LOCK_ARGS_HEX_LEN : nat := 72.

(** The loop [for (i = 0; i < hex.length; i += 2) bytes.push(hex.substring(i, i + 2))]:
    the string cut into two-character pieces, a last piece of one character
    when the length is odd. *)
Fixpoint byteChunks (hex : jsstring) : list jsstring :=
  match hex with
  | a :: b :: r => [a; b] :: byteChunks r
  | [a] => [[a]]
  | [] => []
  end.

Definition littleEndianHexToBigInt (hex : jsstring) : JsResult Z :=
  let hex := if Nat.eqb (List.length hex mod 2) 0 then hex else str "0" ++ hex in
  let bytes := byteChunks hex in
  BigInt (str "0x" ++ concat (rev bytes)).

Definition toIntFromBigUint128Le (hexStr : jsstring) : JsResult Z :=
  let hexStr := if startsWith hexStr (str "0x") then slice hexStr 2 else hexStr in
  let bytes := byteChunks hexStr in
  BigInt (str "0x" ++ concat (rev bytes)).

Record ParsedEpoch := {
  epoch_number : jsstring;
  epoch_index : jsstring;
  epoch_length : jsstring;
  epoch_value : jsstring
}.

Definition parseEpoch (epoch : Z) : ParsedEpoch :=
  let number := Z.land (Z.shiftr epoch 0) (Z.shiftl 1 24 - 1)%Z in
  let index := Z.land (Z.shiftr epoch 24) (Z.shiftl 1 16 - 1)%Z in
  let length := Z.land (Z.shiftr epoch 40) (Z.shiftl 1 16 - 1)%Z in
  {| epoch_number := toString number;
     epoch_index := toString index;
     epoch_length := toString length;
     epoch_value := toString epoch |}.

(** ** LockArgsCodec *)

Record ParsedLockArgs := {
  pubkey_hash : jsstring;
  delay_epoch : ParsedEpoch;
  version : jsstring;
  htlcs : option jsstring;
  settlement_hash : option jsstring;
  settlement_flag : option Z
}.

(** [hex.startsWith('0x') ? hex.substring(2) : hex] *)
Definition strip0x (hex : jsstring) : jsstring :=
  if startsWith hex (str "0x") then slice hex 2 else hex.

Definition parseLockArgs (hex : jsstring) : JsResult ParsedLockArgs :=
  let data := strip0x hex in
  let offset := 0 in
  let pubkeyHash := substring data offset (offset + 40) in
  let offset := offset + 40 in
  let delayEpochHex := substring data offset (offset + 16) in
  delayEpoch <- littleEndianHexToBigInt delayEpochHex ;;
  let offset := offset + 16 in
  let versionHex := substring data offset (offset + 16) in
  version <- littleEndianHexToBigInt versionHex ;;
  let offset := offset + 16 in
  let htlcs := substringFrom data offset in
  Ok {| pubkey_hash := str "0x" ++ pubkeyHash;
        delay_epoch := parseEpoch delayEpoch;
        version := toString version;
        htlcs := Some (match htlcs with [] => [] | _ => str "0x" ++ htlcs end);
        settlement_hash := None;
        settlement_flag := None |}.

Definition parseLockArgsV2 (hex : jsstring) : JsResult ParsedLockArgs :=
  let data := strip0x hex in
  let offset := 0 in
  let pubkeyHash := substring data offset (offset + 40) in
  let offset := offset + 40 in
  let delayEpochHex := substring data offset (offset + 16) in
  delayEpoch <- littleEndianHexToBigInt delayEpochHex ;;
  let offset := offset + 16 in
  let versionHex := substring data offset (offset + 16) in
  version <- BigInt (str "0x" ++ versionHex) ;;
  let offset := offset + 16 in
  let settlementHash := substring data offset (offset + 40) in
  let offset := offset + 40 in
  let settlementFlagHex := substring data offset (offset + 2) in
  let settlementFlag :=
    match settlementFlagHex with
    | [] => None
    | _ => Some (parseInt16 settlementFlagHex)
    end in
  Ok {| pubkey_hash := str "0x" ++ pubkeyHash;
        delay_epoch := parseEpoch delayEpoch;
        version := toString version;
        htlcs := None;
        settlement_hash :=
          Some (match settlementHash with [] => [] | _ => str "0x" ++ settlementHash end);
        settlement_flag :=
          match settlementFlag with
          | Some (Int z) => Some z
          | _ => None
          end |}.

(** ** WitnessCodec *)

(** [htlc_expiry] holds the millisecond value handed to [new Date(...)]; its
    [toLocaleString('zh-CN')] rendering depends on the host's time zone. *)
Record ParsedHtlc := {
  htlc_type : number;
  payment_amount : jsstring;
  payment_hash : jsstring;
  remote_htlc_pubkey_hash : jsstring;
  local_htlc_pubkey_hash : jsstring;
  htlc_expiry : Z;
  htlc_expiry_timestamp : jsstring
}.

Record Revocation := {
  rev_version : jsstring;
  rev_pubkey : jsstring;
  rev_signature : jsstring
}.

Record NonPendingHtlc := {
  nph_pubkey : jsstring;
  nph_signature : jsstring
}.

Record PendingHtlc := {
  ph_pending_htlc_count : number;
  ph_htlcs : list ParsedHtlc;
  ph_signature : jsstring;
  ph_preimage : jsstring
}.

Record Unlock := {
  ul_unlock_type : number;
  ul_with_preimage : number;
  ul_signature : jsstring;
  ul_preimage : jsstring
}.

Record Settlement := {
  st_pending_htlc_count : number;
  st_htlcs : list ParsedHtlc;
  settlement_remote_pubkey_hash : jsstring;
  settlement_remote_amount : jsstring;
  settlement_local_pubkey_hash : jsstring;
  settlement_local_amount : jsstring;
  unlocks : list Unlock
}.

Record ParsedWitness := {
  empty_witness_args : jsstring;
  unlock_type : option number;
  unlock_count : option number;
  revocation : option Revocation;
  non_pending_htlc : option NonPendingHtlc;
  pending_htlc : option PendingHtlc;
  settlement : option Settlement;
  error : option jsstring
}.

(** How often [for (let i = 0; i < n; i++)] runs its body. *)
Definition iterations (n : number) : nat :=
  match n with
  | Int z => Z.to_nat z
  | NaN => 0
  end.

(** One round of the HTLC loop, from [offset]; the loop body is the same text
    in [parseWitness] and [parseWitnessV2]. *)
Definition parseHtlc (data : jsstring) (offset : nat) : JsResult (ParsedHtlc * nat) :=
  let htlc_type := parseInt16 (substring data offset (offset + 2)) in
  let offset := offset + 2 in
  let paymentAmountHex := substring data offset (offset + 32) in
  payment_amount <- littleEndianHexToBigInt paymentAmountHex ;;
  let offset := offset + 32 in
  let payment_hash := str "0x" ++ substring data offset (offset + 40) in
  let offset := offset + 40 in
  let remote_htlc_pubkey_hash := str "0x" ++ substring data offset (offset + 40) in
  let offset := offset + 40 in
  let local_htlc_pubkey_hash := str "0x" ++ substring data offset (offset + 40) in
  let offset := offset + 40 in
  let htlcExpiryHex := substring data offset (offset + 16) in
  htlc_expiry_ts <- littleEndianHexToBigInt htlcExpiryHex ;;
  let htlc_expiry_ts := (Z.land htlc_expiry_ts (Z.shiftl 1 56 - 1) * 1000)%Z in
  let offset := offset + 16 in
  Ok ({| htlc_type := htlc_type;
         payment_amount := toString payment_amount;
         payment_hash := payment_hash;
         remote_htlc_pubkey_hash := remote_htlc_pubkey_hash;
         local_htlc_pubkey_hash := local_htlc_pubkey_hash;
         htlc_expiry := htlc_expiry_ts;
         htlc_expiry_timestamp := toString htlc_expiry_ts |}, offset).

Fixpoint parseHtlcs (count : nat) (data : jsstring) (offset : nat)
  : JsResult (list ParsedHtlc * nat) :=
  match count with
  | O => Ok ([], offset)
  | S count' =>
      '(h, offset) <- parseHtlc data offset ;;
      '(hs, offset) <- parseHtlcs count' data offset ;;
      Ok (h :: hs, offset)
  end.

Definition numberIs (n : number) (z : Z) : bool :=
  match n with Int v => Z.eqb v z | NaN => false end.

Definition parseWitness (hex : jsstring) : JsResult ParsedWitness :=
  let data := strip0x hex in
  let offset := 0 in
  let emptyWitnessArgs := substring data offset (offset + 32) in
  let offset := offset + 32 in
  let unlockType := parseInt16 (substring data offset (offset + 2)) in
  let offset := offset + 2 in
  let witnessData :=
    {| empty_witness_args := str "0x" ++ emptyWitnessArgs;
       unlock_type := Some unlockType; unlock_count := None;
       revocation := None; non_pending_htlc := None; pending_htlc := None;
       settlement := None; error := None |} in
  if numberIs unlockType 255 then
    version <- BigInt (str "0x" ++ substring data offset (offset + 16)) ;;
    Ok {| empty_witness_args := empty_witness_args witnessData;
          unlock_type := unlock_type witnessData; unlock_count := None;
          revocation :=
            Some {| rev_version := toString version;
                    rev_pubkey := str "0x" ++ substring data (offset + 16) (offset + 16 + 64);
                    rev_signature := str "0x" ++ substringFrom data (offset + 16 + 64) |};
          non_pending_htlc := None; pending_htlc := None;
          settlement := None; error := None |}
  else if numberIs unlockType 254 then
    Ok {| empty_witness_args := empty_witness_args witnessData;
          unlock_type := unlock_type witnessData; unlock_count := None;
          revocation := None;
          non_pending_htlc :=
            Some {| nph_pubkey := str "0x" ++ substring data offset (offset + 64);
                    nph_signature := str "0x" ++ substringFrom data (offset + 64) |};
          pending_htlc := None; settlement := None; error := None |}
  else
    let pendingHtlcCount := parseInt16 (substring data offset (offset + 2)) in
    let offset := offset + 2 in
    '(htlcs, offset) <- parseHtlcs (iterations pendingHtlcCount) data offset ;;
    let signature := str "0x" ++ substring data offset (offset + 130) in
    let offset := offset + 130 in
    let preimage :=
      if Nat.ltb offset (List.length data)
      then str "0x" ++ substring data offset (offset + 64) else str "N/A" in
    Ok {| empty_witness_args := empty_witness_args witnessData;
          unlock_type := unlock_type witnessData; unlock_count := None;
          revocation := None; non_pending_htlc := None;
          pending_htlc :=
            Some {| ph_pending_htlc_count := pendingHtlcCount; ph_htlcs := htlcs;
                    ph_signature := signature; ph_preimage := preimage |};
          settlement := None; error := None |}.

Definition parseUnlock (data : jsstring) (offset : nat) : Unlock * nat :=
  let unlock_type := parseInt16 (substring data offset (offset + 2)) in
  let offset := offset + 2 in
  let with_preimage := parseInt16 (substring data offset (offset + 2)) in
  let offset := offset + 2 in
  let signature := str "0x" ++ substring data offset (offset + 130) in
  let offset := offset + 130 in
  let '(preimage, offset) :=
    if numberIs with_preimage 1
    then (str "0x" ++ substring data offset (offset + 64), offset + 64)
    else (str "N/A", offset) in
  ({| ul_unlock_type := unlock_type; ul_with_preimage := with_preimage;
      ul_signature := signature; ul_preimage := preimage |}, offset).

Fixpoint parseUnlocks (count : nat) (data : jsstring) (offset : nat) : list Unlock :=
  match count with
  | O => []
  | S count' =>
      let '(u, offset) := parseUnlock data offset in
      u :: parseUnlocks count' data offset
  end.

Definition parseWitnessV2 (hex : jsstring) : JsResult ParsedWitness :=
  let data := strip0x hex in
  let offset := 0 in
  let emptyWitnessArgs := substring data offset (offset + 32) in
  let offset := offset + 32 in
  let unlockCount := parseInt16 (substring data offset (offset + 2)) in
  let offset := offset + 2 in
  let witnessData :=
    {| empty_witness_args := str "0x" ++ emptyWitnessArgs;
       unlock_type := None; unlock_count := Some unlockCount;
       revocation := None; non_pending_htlc := None; pending_htlc := None;
       settlement := None; error := None |} in
  if numberIs unlockCount 0 then
    version <- BigInt (str "0x" ++ substring data offset (offset + 16)) ;;
    Ok {| empty_witness_args := empty_witness_args witnessData;
          unlock_type := None; unlock_count := unlock_count witnessData;
          revocation :=
            Some {| rev_version := toString version;
                    rev_pubkey := str "0x" ++ substring data (offset + 16) (offset + 16 + 64);
                    rev_signature := str "0x" ++ substringFrom data (offset + 16 + 64) |};
          non_pending_htlc := None; pending_htlc := None;
          settlement := None; error := None |}
  else
    let pendingHtlcCount := parseInt16 (substring data offset (offset + 2)) in
    let offset := offset + 2 in
    '(htlcs, offset) <- parseHtlcs (iterations pendingHtlcCount) data offset ;;
    let settlement_remote_pubkey_hash := str "0x" ++ substring data offset (offset + 40) in
    let offset := offset + 40 in
    settlement_remote_amount <- littleEndianHexToBigInt (substring data offset (offset + 32)) ;;
    let offset := offset + 32 in
    let settlement_local_pubkey_hash := str "0x" ++ substring data offset (offset + 40) in
    let offset := offset + 40 in
    settlement_local_amount <- littleEndianHexToBigInt (substring data offset (offset + 32)) ;;
    let offset := offset + 32 in
    let unlocks := parseUnlocks (iterations unlockCount) data offset in
    Ok {| empty_witness_args := empty_witness_args witnessData;
          unlock_type := None; unlock_count := unlock_count witnessData;
          revocation := None; non_pending_htlc := None; pending_htlc := None;
          settlement :=
            Some {| st_pending_htlc_count := pendingHtlcCount; st_htlcs := htlcs;
                    settlement_remote_pubkey_hash := settlement_remote_pubkey_hash;
                    settlement_remote_amount := toString settlement_remote_amount;
                    settlement_local_pubkey_hash := settlement_local_pubkey_hash;
                    settlement_local_amount := toString settlement_local_amount;
                    unlocks := unlocks |};
          error := None |}.

(** ** ChainQueryClient: the RPC the decoder consumes *)

Record Script := {
  code_hash : jsstring;
  hash_type : jsstring;
  args : jsstring
}.

Record OutPoint := {
  tx_hash : jsstring;
  index : jsstring
}.

Record CellInput := { previous_output : OutPoint }.

Record CellOutput := {
  capacity : jsstring;
  lock : Script;
  type_ : option Script
}.

Record Transaction := {
  inputs : list CellInput;
  outputs : list CellOutput;
  outputs_data : list jsstring;
  witnesses : list jsstring
}.

Record TxStatus := {
  block_hash : option jsstring;
  status : jsstring
}.

Record CkbTransaction := {
  transaction : Transaction;
  tx_status : TxStatus
}.

Record CkbBlockHeader := {
  header_number : jsstring;
  header_timestamp : jsstring
}.

Record IndexerObject := { object_tx_hash : jsstring }.

Record CkbIndexerResult := { objects : option (list IndexerObject) }.

(** [getTransaction], [getBlockHeader] and [getTransactions] (with the search
    key [{script, script_type: 'lock', script_search_mode: 'exact'}] and the
    default order, limit and cursor) go through [callCkbRpc], which throws on
    a non-JSON body or an RPC error. [resolved_at rpcUrl txHash i] is the
    time at which the previous-transaction lookup of input [i] settles while
    [txHash] is being built: the lookups of one build run concurrently. *)
Record ChainQueryClient := {
  getTransaction : jsstring -> jsstring -> JsResult (option CkbTransaction);
  getBlockHeader : jsstring -> jsstring -> JsResult (option CkbBlockHeader);
  getTransactions : jsstring -> Script -> JsResult (option CkbIndexerResult);
  resolved_at : jsstring -> jsstring -> nat -> nat
}.

(** ** TxMessageBuilder *)

Record CellInfo := {
  cell_args : jsstring;
  cell_capacity : Z;
  cell_lock : option Script;
  udt_args : option jsstring;
  udt_capacity : option Z
}.

Record BalanceChange := { ckb : jsstring; udt : jsstring }.

(** [block_timestamp] is [None] for the empty string and otherwise holds the
    number handed to [new Date(...)], whose [toLocaleString()] rendering
    depends on the host. *)
Record TxMessage := {
  input_cells : list CellInfo;
  output_cells : list CellInfo;
  fee : jsstring;
  udt_fee : jsstring;
  parsed_witness : option ParsedWitness;
  balance_changes : list (jsstring * BalanceChange);
  block_number : jsstring;
  block_timestamp : option number
}.

Record TraceItem := { trace_tx_hash : jsstring; msg : TxMessage }.

(** A call [f(x)] of a decoder that starts with [x.startsWith(...)], where
    [x] was read from an array and may be [undefined]. *)
Definition onString {A} (f : jsstring -> JsResult A) (x : option jsstring) : JsResult A :=
  match x with
  | Some s => f s
  | None => Throw (undefinedRead "startsWith")
  end.

(** The UDT fields of a cell: set only under a type script. *)
Definition udtFields (ty : option Script) (data : option jsstring)
  : JsResult (option jsstring * option Z) :=
  match ty with
  | Some t =>
      amount <- onString toIntFromBigUint128Le data ;;
      Ok (Some (args t), Some amount)
  | None => Ok (None, None)
  end.

(** The callback of [tx.inputs.map] up to the witness block: the previous
    output the input spends, and its [CellInfo]. *)
Definition inputCell (client : ChainQueryClient) (rpcUrl : jsstring) (input : CellInput)
  : JsResult (CellOutput * CellInfo) :=
  let prevTxHash := tx_hash (previous_output input) in
  let outputIndex := parseInt16 (index (previous_output input)) in
  prevTxData <- getTransaction client rpcUrl prevTxHash ;;
  match prevTxData with
  | None => Throw (Error (str "Previous tx not found: " ++ prevTxHash))
  | Some prevTxData =>
      let prevOutput := elementAt (outputs (transaction prevTxData)) outputIndex in
      let prevOutputData := elementAt (outputs_data (transaction prevTxData)) outputIndex in
      match prevOutput with
      | None => Throw (undefinedRead "lock")
      | Some prevOutput =>
          cap <- BigInt (capacity prevOutput) ;;
          '(ua, uc) <- udtFields (type_ prevOutput) prevOutputData ;;
          Ok (prevOutput,
              {| cell_args := args (lock prevOutput); cell_capacity := cap;
                 cell_lock := Some (lock prevOutput);
                 udt_args := ua; udt_capacity := uc |})
      end
  end.

Definition errorWitness (e : JsError) : ParsedWitness :=
  {| empty_witness_args := []; unlock_type := None; unlock_count := None;
     revocation := None; non_pending_htlc := None; pending_htlc := None;
     settlement := None; error := Some (message e) |}.

(** The body of the [try]: [Ok None] when nothing is assigned. *)
Definition decodeCommitmentWitness (tx : Transaction) (index : nat) (prevOutput : CellOutput)
  : JsResult (option ParsedWitness) :=
  let witnessHex := nth_error (witnesses tx) index in
  let args := args (lock prevOutput) in
  let argsData := if startsWith args (str "0x") then slice args 2 else args in
  if Nat.leb MIN_LOCK_ARGS_HEX_LEN (length argsData) then
    let versionHex := substring argsData 56 72 in
    v1 <- littleEndianHexToBigInt versionHex ;;
    if Z.eqb v1 1 then
      w <- onString parseWitness witnessHex ;; Ok (Some w)
    else
      w <- onString parseWitnessV2 witnessHex ;; Ok (Some w)
  else Ok None.

Definition isNull {A} (x : option A) : bool :=
  match x with Some _ => false | None => true end.

(** The witness block of the callback, acting on the shared [parsedWitness]. *)
Definition witnessStep (commitmentCodeHash : jsstring) (tx : Transaction) (index : nat)
  (prevOutput : CellOutput) (parsedWitness : option ParsedWitness) : option ParsedWitness :=
  if eqb (code_hash (lock prevOutput)) commitmentCodeHash && isNull parsedWitness then
    match decodeCommitmentWitness tx index prevOutput with
    | Ok (Some w) => Some w
    | Ok None => parsedWitness
    | Throw e => Some (errorWitness e)
    end
  else parsedWitness.

(** The part of the callback that runs once its lookup has settled: the cell
    it resolves to (or its rejection) and the new [parsedWitness]. *)
Definition inputCallback (client : ChainQueryClient) (rpcUrl commitmentCodeHash : jsstring)
  (tx : Transaction) (index : nat) (input : CellInput) (parsedWitness : option ParsedWitness)
  : JsResult CellInfo * option ParsedWitness :=
  match inputCell client rpcUrl input with
  | Throw e => (Throw e, parsedWitness)
  | Ok (prevOutput, cell) =>
      (Ok cell, witnessStep commitmentCodeHash tx index prevOutput parsedWitness)
  end.

Definition indexed {A} (xs : list A) : list (nat * A) := combine (seq 0 (length xs)) xs.

(** The order in which the callbacks resume: by settling time, index order
    among lookups that settle together. *)
Fixpoint insertByTime {A} (time : nat -> nat) (x : nat * A) (l : list (nat * A))
  : list (nat * A) :=
  match l with
  | [] => [x]
  | y :: l' =>
      if Nat.leb (time (fst x)) (time (fst y)) then x :: l
      else y :: insertByTime time x l'
  end.

Definition completionOrder {A} (time : nat -> nat) (xs : list A) : list (nat * A) :=
  fold_right (insertByTime time) [] (indexed xs).

Fixpoint runCallbacks (client : ChainQueryClient) (rpcUrl commitmentCodeHash : jsstring)
  (tx : Transaction) (order : list (nat * CellInput)) (parsedWitness : option ParsedWitness)
  : list (nat * JsResult CellInfo) * option ParsedWitness :=
  match order with
  | [] => ([], parsedWitness)
  | (i, input) :: rest =>
      let '(r, parsedWitness) :=
        inputCallback client rpcUrl commitmentCodeHash tx i input parsedWitness in
      let '(log, parsedWitness) :=
        runCallbacks client rpcUrl commitmentCodeHash tx rest parsedWitness in
      ((i, r) :: log, parsedWitness)
  end.

Fixpoint firstRejection {A} (log : list (nat * JsResult A)) : option JsError :=
  match log with
  | [] => None
  | (_, Throw e) :: _ => Some e
  | (_, Ok _) :: rest => firstRejection rest
  end.

Definition fulfilled {A} (log : list (nat * JsResult A)) (i : nat) : list A :=
  match find (fun p => Nat.eqb (fst p) i) log with
  | Some (_, Ok a) => [a]
  | _ => []
  end.

(** [Promise.all]: rejects with the rejection that came first in time,
    otherwise fulfils with the values in index order. [log] lists the settled
    promises in the order they settled. *)
Definition Promise_all {A} (n : nat) (log : list (nat * JsResult A)) : JsResult (list A) :=
  match firstRejection log with
  | Some e => Throw e
  | None => Ok (flat_map (fulfilled log) (seq 0 n))
  end.

Fixpoint mapM {A B} (f : A -> JsResult B) (xs : list A) : JsResult (list B) :=
  match xs with
  | [] => Ok []
  | x :: rest => y <- f x ;; ys <- mapM f rest ;; Ok (y :: ys)
  end.

Definition outputCell (tx : Transaction) (io : nat * CellOutput) : JsResult CellInfo :=
  let '(i, output) := io in
  cap <- BigInt (capacity output) ;;
  '(ua, uc) <- udtFields (type_ output) (nth_error (outputs_data tx) i) ;;
  Ok {| cell_args := args (lock output); cell_capacity := cap; cell_lock := None;
        udt_args := ua; udt_capacity := uc |}.

(** [c.udt_capacity || 0n] *)
Definition udtOrZero (c : CellInfo) : Z :=
  match udt_capacity c with
  | Some v => if Z.eqb v 0 then 0%Z else v
  | None => 0%Z
  end.

(** [if (c.udt_capacity) acc = op(acc, c.udt_capacity)] *)
Definition whenUdt (op : Z -> Z -> Z) (acc : Z) (c : CellInfo) : Z :=
  match udt_capacity c with
  | Some v => if Z.eqb v 0 then acc else op acc v
  | None => acc
  end.

Record Balance := { bal_ckb : Z; bal_udt : Z }.

(** [balanceMap]: the own properties of the object, in insertion order. (An
    object lists keys that are array indices first; nothing below depends on
    the order.) *)
Definition BalanceMap := list (jsstring * Balance).

Definition hasKey (m : BalanceMap) (k : jsstring) : bool :=
  existsb (fun e => eqb (fst e) k) m.

Definition addTo (k : jsstring) (ckbDelta udtDelta : Z) (e : jsstring * Balance)
  : jsstring * Balance :=
  if eqb (fst e) k
  then (fst e, {| bal_ckb := bal_ckb (snd e) + ckbDelta; bal_udt := bal_udt (snd e) + udtDelta |})
  else e.

Definition mixBigInt : JsError :=
  TypeError (str "Cannot mix BigInt and other types, use explicit conversions").

(** [updateBal]. Under a key that [Object.prototype] defines, [balanceMap[args]]
    is the inherited value: no entry is created and [undefined + ckbDelta]
    throws. *)
Definition updateBal (balanceMap : BalanceMap) (args : jsstring) (ckbDelta udtDelta : Z)
  : JsResult BalanceMap :=
  if inherited args then Throw mixBigInt
  else
    let balanceMap :=
      if hasKey balanceMap args then balanceMap
      else balanceMap ++ [(args, {| bal_ckb := 0; bal_udt := 0 |})] in
    Ok (map (addTo args ckbDelta udtDelta) balanceMap).

Fixpoint forEachM {S A} (f : S -> A -> JsResult S) (xs : list A) (s : S) : JsResult S :=
  match xs with
  | [] => Ok s
  | x :: rest => s' <- f s x ;; forEachM f rest s'
  end.

Definition nonZero (e : jsstring * Balance) : bool :=
  negb (Z.eqb (bal_ckb (snd e)) 0) || negb (Z.eqb (bal_udt (snd e)) 0).

Definition renderBalance (e : jsstring * Balance) : jsstring * BalanceChange :=
  (fst e, {| ckb := toString (bal_ckb (snd e)); udt := toString (bal_udt (snd e)) |}).

Definition truthy (s : jsstring) : bool :=
  match s with [] => false | _ => true end.

(** Block metadata; any failure leaves ['Pending'] and the empty string. *)
Definition blockMeta (client : ChainQueryClient) (rpcUrl : jsstring) (txData : CkbTransaction)
  : jsstring * option number :=
  let pending := (str "Pending", None) in
  match block_hash (tx_status txData) with
  | Some h =>
      if truthy h then
        match getBlockHeader client rpcUrl h with
        | Ok (Some header) =>
            (numberToString (parseInt16 (header_number header)),
             Some (parseInt16 (header_timestamp header)))
        | _ => pending
        end
      else pending
  | None => pending
  end.

(** The concurrent part of [getTxMessage]: the callbacks resume in completion
    order; [Promise.all] gathers the cells, [parsedWitness] is what the
    callbacks left in the shared variable. *)
Definition resolveInputs (client : ChainQueryClient) (rpcUrl commitmentCodeHash txHash : jsstring)
  (tx : Transaction) : JsResult (list CellInfo) * option ParsedWitness :=
  let order := completionOrder (resolved_at client rpcUrl txHash) (inputs tx) in
  let '(log, parsedWitness) :=
    runCallbacks client rpcUrl commitmentCodeHash tx order None in
  (Promise_all (length (inputs tx)) log, parsedWitness).

(** [getTxMessage] from the output cells on. *)
Definition buildMessage (client : ChainQueryClient) (rpcUrl : jsstring) (txData : CkbTransaction)
  (inputCells : list CellInfo) (parsedWitness : option ParsedWitness) : JsResult TxMessage :=
  let tx := transaction txData in
  outputCells <- mapM (outputCell tx) (indexed (outputs tx)) ;;
  let inputCap := fold_left (fun acc c => acc + cell_capacity c)%Z inputCells 0%Z in
  let outputCap := fold_left (fun acc c => acc + cell_capacity c)%Z outputCells 0%Z in
  let fee := (inputCap - outputCap)%Z in
  let udtFee := fold_left (whenUdt Z.add) inputCells 0%Z in
  let udtFee := fold_left (whenUdt Z.sub) outputCells udtFee in
  balanceMap <-
    forEachM (fun m c => updateBal m (cell_args c) (- cell_capacity c) (- udtOrZero c))
      inputCells [] ;;
  balanceMap <-
    forEachM (fun m c => updateBal m (cell_args c) (cell_capacity c) (udtOrZero c))
      outputCells balanceMap ;;
  let balance_changes := map renderBalance (filter nonZero balanceMap) in
  let '(block_number, block_timestamp) := blockMeta client rpcUrl txData in
  Ok {| input_cells := inputCells;
        output_cells := outputCells;
        fee := toString fee;
        udt_fee := toString udtFee;
        parsed_witness := parsedWitness;
        balance_changes := balance_changes;
        block_number := block_number;
        block_timestamp := block_timestamp |}.

Definition getTxMessage (client : ChainQueryClient) (rpcUrl commitmentCodeHash txHash : jsstring)
  : JsResult TxMessage :=
  txData <- getTransaction client rpcUrl txHash ;;
  match txData with
  | None => Throw (Error (str "Transaction not found: " ++ txHash))
  | Some txData =>
      let '(settled, parsedWitness) :=
        resolveInputs client rpcUrl commitmentCodeHash txHash (transaction txData) in
      inputCells <- settled ;;
      buildMessage client rpcUrl txData inputCells parsedWitness
  end.

(** ** ChannelDeathTracer *)

Record DeathHash := { txHash : option jsstring; codeHash : option jsstring }.

Definition noDeath : DeathHash := {| txHash := None; codeHash := None |}.

Definition getLnCellDeathHash (client : ChainQueryClient) (rpcUrl txHash : jsstring)
  : JsResult DeathHash :=
  txData <- getTransaction client rpcUrl txHash ;;
  match txData with
  | None => Ok noDeath
  | Some txData =>
      match nth_error (outputs (transaction txData)) 0 with
      | None => Throw (undefinedRead "lock")
      | Some output0 =>
          let cellLock := lock output0 in
          txs <- getTransactions client rpcUrl cellLock ;;
          match txs with
          | Some {| objects := Some objs |} =>
              if Nat.eqb (length objs) 2 then
                match nth_error objs 1 with
                | Some o => Ok {| txHash := Some (object_tx_hash o);
                                  codeHash := Some (code_hash cellLock) |}
                | None => Throw (undefinedRead "tx_hash")
                end
              else Ok noDeath
          | _ => Ok noDeath
          end
      end
  end.

(** A string-or-null used as a condition. *)
Definition present (x : option jsstring) : option jsstring :=
  match x with
  | Some s => if truthy s then Some s else None
  | None => None
  end.

Definition sameHash (x : option jsstring) (h : jsstring) : bool :=
  match x with Some s => eqb s h | None => false end.

(** The [while (currentTx)] loop. [fuel] bounds the number of rounds; [None]
    means the bound was reached with the loop still running. *)
Fixpoint traceLoop (fuel : nat) (client : ChainQueryClient) (rpcUrl commitmentCodeHash : jsstring)
  (currentTx : jsstring) (txTrace : list TraceItem) : option (JsResult (list TraceItem)) :=
  match fuel with
  | O => None
  | S fuel' =>
      if truthy currentTx then
        match getLnCellDeathHash client rpcUrl currentTx with
        | Throw e => Some (Throw e)
        | Ok result =>
            match present (txHash result) with
            | None => Some (Ok txTrace)
            | Some next =>
                match getTxMessage client rpcUrl commitmentCodeHash next with
                | Throw e => Some (Throw e)
                | Ok newMsg =>
                    let txTrace := txTrace ++ [{| trace_tx_hash := next; msg := newMsg |}] in
                    if negb (sameHash (codeHash result) commitmentCodeHash)
                    then Some (Ok txTrace)
                    else traceLoop fuel' client rpcUrl commitmentCodeHash next txTrace
                end
            end
        end
      else Some (Ok txTrace)
  end.

(** [getLnTxTrace]; the optional [onStep] progress callback receives the
    length of the trace after each append and is left out. *)
Definition getLnTxTrace (fuel : nat) (client : ChainQueryClient)
  (rpcUrl commitmentCodeHash openChannelTxHash : jsstring)
  : option (JsResult (list TraceItem)) :=
  match getTxMessage client rpcUrl commitmentCodeHash openChannelTxHash with
  | Throw e => Some (Throw e)
  | Ok msg0 =>
      let txTrace := [{| trace_tx_hash := openChannelTxHash; msg := msg0 |}] in
      match getLnCellDeathHash client rpcUrl openChannelTxHash with
      | Throw e => Some (Throw e)
      | Ok first =>
          match present (txHash first) with
          | None => Some (Ok txTrace)
          | Some nextTx =>
              match getTxMessage client rpcUrl commitmentCodeHash nextTx with
              | Throw e => Some (Throw e)
              | Ok nextMsg =>
                  let txTrace := txTrace ++ [{| trace_tx_hash := nextTx; msg := nextMsg |}] in
                  traceLoop fuel client rpcUrl commitmentCodeHash nextTx txTrace
              end
          end
      end
  end.

Record FetchedTx := {
  lockArgs : jsstring;
  witness : option jsstring;
  fetched_version : jsstring
}.

(** [fetchAndParseTx]: the same version test on the first input's lock args. *)
Definition fetchAndParseTx (client : ChainQueryClient) (rpcUrl txHash : jsstring)
  : JsResult FetchedTx :=
  tx <- getTransaction client rpcUrl txHash ;;
  match tx with
  | None => Throw (Error (str "Transaction not found."))
  | Some tx =>
      let witness := nth_error (witnesses (transaction tx)) 0 in
      match nth_error (inputs (transaction tx)) 0 with
      | None => Throw (undefinedRead "previous_output")
      | Some input0 =>
          let previousTxHash := tx_hash (previous_output input0) in
          prevTx <- getTransaction client rpcUrl previousTxHash ;;
          match prevTx with
          | None => Throw (Error (str "Previous transaction not found."))
          | Some prevTx =>
              match nth_error (outputs (transaction prevTx)) 0 with
              | None => Throw (undefinedRead "lock")
              | Some output0 =>
                  let lockArgs := args (lock output0) in
                  let argsData :=
                    if startsWith lockArgs (str "0x") then slice lockArgs 2 else lockArgs in
                  version <-
                    (if Nat.leb MIN_LOCK_ARGS_HEX_LEN (length argsData) then
                       v1 <- littleEndianHexToBigInt (substring argsData 56 72) ;;
                       Ok (if Z.eqb v1 1 then str "1" else str "2")
                     else Ok (str "2")) ;;
                  Ok {| lockArgs := lockArgs; witness := witness;
                        fetched_version := version |}
              end
          end
      end
  end.

(** ** BalanceAggregator *)

Inductive CkbNetwork := testnet | mainnet | custom.

Record LiveCell := {
  live_capacity : jsstring;
  live_lock : Script;
  live_type : option Script;
  live_data : jsstring;
  out_point : OutPoint
}.

Record UdtCfgInfo := { cfg_name : jsstring; script : Script }.

Record UdtBalance := {
  name : jsstring;
  typeScript : Script;
  balance : Z;
  cellCount : nat
}.

Record AccountBalance := {
  ckbBalance : Z;
  ckbCellCount : nat;
  udtBalances : list UdtBalance;
  cells : list LiveCell;
  network : CkbNetwork
}.

Definition scriptEquals (a b : Script) : bool :=
  eqb (toLowerCase (code_hash a)) (toLowerCase (code_hash b))
  && eqb (hash_type a) (hash_type b)
  && eqb (toLowerCase (args a)) (toLowerCase (args b)).

(** [udtMap]: a [Map], so its entries keep their insertion order. *)
Definition UdtMap := list (jsstring * UdtBalance).

Fixpoint mapGet (m : UdtMap) (key : jsstring) : option UdtBalance :=
  match m with
  | [] => None
  | (k, v) :: rest => if eqb k key then Some v else mapGet rest key
  end.

(** [existing.balance += amount; existing.cellCount++] on the entry under [key]. *)
Fixpoint mapBump (m : UdtMap) (key : jsstring) (amount : Z) : UdtMap :=
  match m with
  | [] => []
  | (k, v) :: rest =>
      if eqb k key
      then (k, {| name := name v; typeScript := typeScript v;
                  balance := balance v + amount; cellCount := S (cellCount v) |}) :: rest
      else (k, v) :: mapBump rest key amount
  end.

Definition udtKey (s : Script) : jsstring := code_hash s ++ str ":" ++ args s.

(** The amount a UDT cell carries. *)
Definition udtAmount (cell : LiveCell) : JsResult Z :=
  let dataHex :=
    if startsWith (live_data cell) (str "0x") then slice (live_data cell) 2
    else live_data cell in
  if Nat.leb 32 (length dataHex)
  then toIntFromBigUint128Le (str "0x" ++ substring dataHex 0 32)
  else Ok 0%Z.

Record Totals := {
  tot_ckbBalance : Z;
  tot_ckbCellCount : nat;
  tot_udtMap : UdtMap
}.

Definition countAsCkb (t : Totals) (cell : LiveCell) : JsResult Totals :=
  cap <- BigInt (live_capacity cell) ;;
  Ok {| tot_ckbBalance := tot_ckbBalance t + cap;
        tot_ckbCellCount := S (tot_ckbCellCount t);
        tot_udtMap := tot_udtMap t |}.

(** The body of [for (const cell of cells)]. *)
Definition accountCell (udtCfgInfos : list UdtCfgInfo) (t : Totals) (cell : LiveCell)
  : JsResult Totals :=
  match live_type cell with
  | None => countAsCkb t cell
  | Some ty =>
      match find (fun u => scriptEquals (script u) ty) udtCfgInfos with
      | Some matchedUdt =>
          let key := udtKey (script matchedUdt) in
          let existing := mapGet (tot_udtMap t) key in
          amount <- udtAmount cell ;;
          Ok {| tot_ckbBalance := tot_ckbBalance t;
                tot_ckbCellCount := tot_ckbCellCount t;
                tot_udtMap :=
                  match existing with
                  | Some _ => mapBump (tot_udtMap t) key amount
                  | None =>
                      tot_udtMap t ++
                        [(key, {| name := cfg_name matchedUdt;
                                  typeScript := script matchedUdt;
                                  balance := amount; cellCount := 1 |})]
                  end |}
      | None => countAsCkb t cell
      end
  end.

Definition computeAccountBalance (cells : list LiveCell) (udtCfgInfos : list UdtCfgInfo)
  (network : CkbNetwork) : JsResult AccountBalance :=
  t <- forEachM (accountCell udtCfgInfos) cells
         {| tot_ckbBalance := 0; tot_ckbCellCount := 0; tot_udtMap := [] |} ;;
  Ok {| ckbBalance := tot_ckbBalance t;
        ckbCellCount := tot_ckbCellCount t;
        udtBalances := map snd (tot_udtMap t);
        cells := cells;
        network := network |}.

(** ** Reference definitions for the properties *)

(** The revocation payload of a witness whose hex digits are [data]: after
    the 16 bytes of empty witness args and the discriminator byte come the
    version (8 bytes, read big-endian), the public key (32 bytes) and the
    signature (the rest). *)
Definition revocationAt (data : jsstring) : Revocation :=
  {| rev_version := toString (beValue (hexBytes (substring data 34 50)));
     rev_pubkey := str "0x" ++ substring data 50 114;
     rev_signature := str "0x" ++ skipn 114 data |}.

Definition sumZ (l : list Z) : Z := fold_right Z.add 0%Z l.

(** A cell's UDT capacity, an absent one counting as zero. *)
Definition udtOf (c : CellInfo) : Z :=
  match udt_capacity c with Some v => v | None => 0%Z end.

(** The cell an input resolves to, and the previous output it spends. *)
Definition cellOfInput (client : ChainQueryClient) (rpcUrl : jsstring) (input : CellInput)
  : JsResult CellInfo :=
  '(_, cell) <- inputCell client rpcUrl input ;; Ok cell.

Definition resolveInput (client : ChainQueryClient) (rpcUrl : jsstring) (p : nat * CellInput)
  : JsResult (nat * CellOutput) :=
  '(prevOutput, _) <- inputCell client rpcUrl (snd p) ;; Ok (fst p, prevOutput).

(** An input that calls for a witness decode: its previous output is locked
    by the commitment code hash and its lock args hold at least 72 hex
    characters. *)
Definition commitmentInput (commitmentCodeHash : jsstring) (p : nat * CellOutput) : bool :=
  eqb (code_hash (lock (snd p))) commitmentCodeHash
  && Nat.leb 72 (length (strip0x (args (lock (snd p))))).

(** The decode of such an input's witness: the version field at hex offset
    56, read little-endian, selects [parseWitness] when it is 1 and
    [parseWitnessV2] otherwise. *)
Definition decodeAttempt (tx : Transaction) (p : nat * CellOutput) : JsResult ParsedWitness :=
  v <- littleEndianHexToBigInt (substring (strip0x (args (lock (snd p)))) 56 72) ;;
  onString (if Z.eqb v 1 then parseWitness else parseWitnessV2)
           (nth_error (witnesses tx) (fst p)).

(** What is kept of a decode: its result, or the error it raised. *)
Definition recorded (r : JsResult ParsedWitness) : ParsedWitness :=
  match r with Ok w => w | Throw e => errorWitness e end.

(** The parsed witness of a build whose inputs resolved, in completion
    order, to [resolved]: the decode of the first commitment input. *)
Definition selectedWitness (commitmentCodeHash : jsstring) (tx : Transaction)
  (resolved : list (nat * CellOutput)) : option ParsedWitness :=
  match find (commitmentInput commitmentCodeHash) resolved with
  | Some p => Some (recorded (decodeAttempt tx p))
  | None => None
  end.

(** The integer a decimal numeral spells (0 when it is not one). *)
Definition readDecimal (s : jsstring) : Z :=
  match NilZero.int_of_string (string_of_list_ascii s) with
  | Some d => Z.of_int d
  | None => 0%Z
  end.

(** The objects an indexer answer holds ([txs?.objects]); none when the
    answer or its [objects] is missing. *)
Definition queryObjects (txs : option CkbIndexerResult) : list IndexerObject :=
  match txs with
  | Some {| objects := Some objs |} => objs
  | _ => []
  end.

(** The running balance and cell count of the UDT under [key]. *)
Definition udtBalanceOf (m : UdtMap) (key : jsstring) : Z :=
  match mapGet m key with Some v => balance v | None => 0%Z end.

Definition udtCellCountOf (m : UdtMap) (key : jsstring) : nat :=
  match mapGet m key with Some v => cellCount v | None => 0 end.

(** The registered UDT a live cell belongs to: the first registered script
    its type script equals. *)
Definition matchedUdtOf (udtCfgInfos : list UdtCfgInfo) (cell : LiveCell) : option UdtCfgInfo :=
  match live_type cell with
  | Some ty => find (fun u => scriptEquals (script u) ty) udtCfgInfos
  | None => None
  end.

Definition countsAsCkb (udtCfgInfos : list UdtCfgInfo) (cell : LiveCell) : bool :=
  isNull (matchedUdtOf udtCfgInfos cell).

Definition countsUnder (udtCfgInfos : list UdtCfgInfo) (key : jsstring) (cell : LiveCell) : bool :=
  match matchedUdtOf udtCfgInfos cell with
  | Some u => eqb (udtKey (script u)) key
  | None => false
  end.

Definition capacityOf (cell : LiveCell) : Z :=
  match BigInt (live_capacity cell) with Ok v => v | Throw _ => 0%Z end.

Definition amountOf (cell : LiveCell) : Z :=
  match udtAmount cell with Ok v => v | Throw _ => 0%Z end.

(** The HTLC record of 85 bytes that starts at hex offset [o] of [data]:
    type (1 byte), amount (16 bytes, little-endian), payment hash and the two
    public key hashes (20 bytes each), expiry (8 bytes, little-endian, cut to
    56 bits and turned into milliseconds). *)
Definition htlcAt (data : jsstring) (o : nat) : ParsedHtlc :=
  let expiry :=
    ((leValue (hexBytes (substring data (o + 154) (o + 170))) mod 2 ^ 56) * 1000)%Z in
  {| htlc_type := Int (hexValue (substring data o (o + 2)));
     payment_amount := toString (leValue (hexBytes (substring data (o + 2) (o + 34))));
     payment_hash := str "0x" ++ substring data (o + 34) (o + 74);
     remote_htlc_pubkey_hash := str "0x" ++ substring data (o + 74) (o + 114);
     local_htlc_pubkey_hash := str "0x" ++ substring data (o + 114) (o + 154);
     htlc_expiry := expiry;
     htlc_expiry_timestamp := toString expiry |}.

(** Whether a hex witness of [len] digits holds enough of [n] HTLC records
    that start at offset [o] for the HTLC loop to get through: every record
    but the last in full, and of the last at least one digit of its expiry. *)
Definition htlcsReadable (n o len : nat) : bool :=
  match n with
  | O => true
  | S m => Nat.ltb (o + 170 * m + 154) len
  end.

(** The net change of the address [k] in a transaction with the given input
    and output cells: what its outputs receive minus what its inputs spend. *)
Definition argsIs (k : jsstring) (c : CellInfo) : bool := eqb (cell_args c) k.

Definition netCkb (k : jsstring) (ins outs : list CellInfo) : Z :=
  (sumZ (map cell_capacity (filter (argsIs k) outs))
   - sumZ (map cell_capacity (filter (argsIs k) ins)))%Z.

Definition netUdt (k : jsstring) (ins outs : list CellInfo) : Z :=
  (sumZ (map udtOf (filter (argsIs k) outs))
   - sumZ (map udtOf (filter (argsIs k) ins)))%Z.

(** [balance_changes[k]] and [balanceMap[k]] for a key that is not inherited. *)
Definition changeOf (k : jsstring) (changes : list (jsstring * BalanceChange))
  : option BalanceChange :=
  option_map snd (find (fun e => eqb (fst e) k) changes).

Definition balOf (m : BalanceMap) (k : jsstring) : option Balance :=
  option_map snd (find (fun e => eqb (fst e) k) m).

Definition ckbAt (m : BalanceMap) (k : jsstring) : Z :=
  match balOf m k with Some b => bal_ckb b | None => 0%Z end.

Definition udtAt (m : BalanceMap) (k : jsstring) : Z :=
  match balOf m k with Some b => bal_udt b | None => 0%Z end.

(** The walk of [getLnTxTrace] from the transaction [cur], once [cur] is in
    the trace: [rest] is what the loop appends. The death lookup of [cur]
    finds no spend and the walk ends; or it finds a spend, which is
    appended, and the walk goes on from the spend when the lock code hash
    the lookup reports is the commitment code hash, and ends there when it
    is not. *)
Fixpoint follows (client : ChainQueryClient) (rpcUrl commitmentCodeHash : jsstring)
  (cur : jsstring) (rest : list TraceItem) {struct rest} : Prop :=
  exists d,
    getLnCellDeathHash client rpcUrl cur = Ok d
    /\ match rest with
       | [] => present (txHash d) = None
       | b :: rest' =>
           present (txHash d) = Some (trace_tx_hash b)
           /\ if sameHash (codeHash d) commitmentCodeHash
              then follows client rpcUrl commitmentCodeHash (trace_tx_hash b) rest'
              else rest' = []
       end.

(** The entry of an account that the code keeps under [key], with its
    balance and cell count (zero without entry). An entry is stored under
    the key [code_hash:args] of its type script. *)
Definition udtEntry (ab : AccountBalance) (key : jsstring) : option UdtBalance :=
  find (fun e => eqb (udtKey (typeScript e)) key) (udtBalances ab).

Definition entryBalance (ab : AccountBalance) (key : jsstring) : Z :=
  match udtEntry ab key with Some e => balance e | None => 0%Z end.

Definition entryCells (ab : AccountBalance) (key : jsstring) : nat :=
  match udtEntry ab key with Some e => cellCount e | None => 0 end.

(** ** format.ts: [shorten]

    The ellipsis is a code unit above 255, so [shorten] is stated over any
    type of code units, the ellipsis being one of them. [left] and [right]
    are the non-negative integers the callers pass. *)

Section Shorten.

Context {A : Type} (ellipsis : A).

(** [value.slice(-right)]: the last [right] code units, and the whole string
    for [right = 0], where [-0] is position 0. *)
Definition sliceEnd (value : list A) (right : nat) : list A :=
  match right with
  | O => value
  | _ => skipn (length value - right) value
  end.

Definition shorten (value : list A) (left right : nat) : list A :=
  if Nat.leb (length value) (left + right + 2) then value
  else firstn left value ++ [ellipsis] ++ sliceEnd value right.

End Shorten.

(** ** A small ledger for worked examples *)

Module Sample.

Definition commitment : jsstring :=
  str "0x740dee83f87c6f309824d8fd3fbdd3c8380ee6fc9acc90b1a748438afcdf81d8".

Definition secp (a : string) : Script :=
  {| code_hash := str "0x9bd7e06f3ecf4be0f2fcd2188b23f1b9fcc88e5d4b65a8637b17723bbda3cce8";
     hash_type := str "type"; args := str a |}.

(** A commitment lock whose version field (hex 56 to 72) reads 1
    little-endian, and one whose version field reads 2. *)
Definition channelLockV1 : Script :=
  {| code_hash := commitment; hash_type := str "type";
     args := str "0x00112233445566778899aabbccddeeff001122330a000000000000000100000000000000" |}.

Definition channelLockV2 : Script :=
  {| code_hash := commitment; hash_type := str "type";
     args := str "0x00112233445566778899aabbccddeeff001122330a000000000000000200000000000000" |}.

Definition plain (cap : string) (l : Script) : CellOutput :=
  {| capacity := str cap; lock := l; type_ := None |}.

Definition spend (h i : string) : CellInput :=
  {| previous_output := {| tx_hash := str h; index := str i |} |}.

Definition committed (t : Transaction) : CkbTransaction :=
  {| transaction := t;
     tx_status := {| block_hash := None; status := str "committed" |} |}.

(** [0xf0]: four outputs to spend from. *)
Definition funding : Transaction :=
  {| inputs := [];
     outputs := [plain "0x3e8" (secp "0xa1"); plain "0x3de" (secp "0xa2");
                 plain "0x64" channelLockV1; plain "0x64" channelLockV2];
     outputs_data := [str "0x"; str "0x"; str "0x"; str "0x"];
     witnesses := [] |}.

(** [0xf1]: one input of capacity 1000, one output of capacity 990. *)
Definition payment : Transaction :=
  {| inputs := [spend "0xf0" "0x0"];
     outputs := [plain "0x3de" (secp "0xb1")];
     outputs_data := [str "0x"];
     witnesses := [str "0x"] |}.

(** [0xf2]: one input of capacity 990, one output of capacity 1000. *)
Definition overdraft : Transaction :=
  {| inputs := [spend "0xf0" "0x1"];
     outputs := [plain "0x3e8" (secp "0xb1")];
     outputs_data := [str "0x"];
     witnesses := [str "0x"] |}.

(** [0xf3]: spends the v1 channel cell with a witness cut off right after the
    revocation discriminator. *)
Definition truncated : Transaction :=
  {| inputs := [spend "0xf0" "0x2"];
     outputs := [plain "0x5a" (secp "0xb1")];
     outputs_data := [str "0x"];
     witnesses := [str "0x00000000000000000000000000000000ff"] |}.

(** [0xf4]: spends both channel cells, each with a revocation witness. *)
Definition closing : Transaction :=
  {| inputs := [spend "0xf0" "0x2"; spend "0xf0" "0x3"];
     outputs := [plain "0xc8" (secp "0xb1")];
     outputs_data := [str "0x"];
     witnesses :=
       [str "0x00000000000000000000000000000000ff0000000000000007aa";
        str "0x00000000000000000000000000000000000000000000000009bb"] |}.

Definition ledger (h : jsstring) : option CkbTransaction :=
  if eqb h (str "0xf0") then Some (committed funding)
  else if eqb h (str "0xf1") then Some (committed payment)
  else if eqb h (str "0xf2") then Some (committed overdraft)
  else if eqb h (str "0xf3") then Some (committed truncated)
  else if eqb h (str "0xf4") then Some (committed closing)
  else None.

(** A client whose lookups settle in index order, and one whose lookups
    settle in the opposite order. *)
Definition client : ChainQueryClient :=
  {| getTransaction := fun _ h => Ok (ledger h);
     getBlockHeader := fun _ _ => Ok None;
     getTransactions := fun _ _ => Ok None;
     resolved_at := fun _ _ i => i |}.


(** A channel and its history: [0xa0] opens it, [0xa1] and [0xa2] spend the
    channel cell in turn. *)
Definition opening : Transaction :=
  {| inputs := [];
     outputs := [plain "0x64" (secp "0xc0")];
     outputs_data := [str "0x"];
     witnesses := [] |}.

Definition commitment1 : Transaction :=
  {| inputs := [spend "0xa0" "0x0"];
     outputs := [plain "0x63" channelLockV1];
     outputs_data := [str "0x"];
     witnesses := [str "0x"] |}.

Definition commitment2 : Transaction :=
  {| inputs := [spend "0xa1" "0x0"];
     outputs := [plain "0x62" (secp "0xc2")];
     outputs_data := [str "0x"];
     witnesses := [str "0x00000000000000000000000000000000ff0000000000000007aa"] |}.

Definition channelLedger (h : jsstring) : option CkbTransaction :=
  if eqb h (str "0xa0") then Some (committed opening)
  else if eqb h (str "0xa1") then Some (committed commitment1)
  else if eqb h (str "0xa2") then Some (committed commitment2)
  else None.

Definition object (h : string) : IndexerObject := {| object_tx_hash := str h |}.

Definition channelIndexer (l : Script) : option CkbIndexerResult :=
  if eqb (args l) (str "0xc0") then Some {| objects := Some [object "0xa0"; object "0xa1"] |}
  else if eqb (args l) (args channelLockV1)
       then Some {| objects := Some [object "0xa1"; object "0xa2"] |}
  else if eqb (args l) (str "0xc2") then Some {| objects := Some [object "0xa2"] |}
  else Some {| objects := Some [] |}.

Definition channelClient : ChainQueryClient :=
  {| getTransaction := fun _ h => Ok (channelLedger h);
     getBlockHeader := fun _ _ => Ok None;
     getTransactions := fun _ l => Ok (channelIndexer l);
     resolved_at := fun _ _ i => i |}.

(** Live cells of an account: one plain cell of capacity 500, one cell of a
    registered UDT carrying 42, one cell of the same UDT with empty data. *)
Definition xudt : Script :=
  {| code_hash := str "0x25c29dc317811a6f6f3985a7a9ebc4838bd388d19d0feeecf0bcd60f6c0975bb";
     hash_type := str "type"; args := str "0xABCD" |}.

Definition xudtLower : Script :=
  {| code_hash := code_hash xudt; hash_type := str "type"; args := str "0xabcd" |}.

Definition live (cap : string) (ty : option Script) (data : string) : LiveCell :=
  {| live_capacity := str cap; live_lock := secp "0xa1"; live_type := ty;
     live_data := str data;
     out_point := {| tx_hash := str "0xf0"; index := str "0x0" |} |}.

Definition registered : list UdtCfgInfo := [{| cfg_name := str "RUSD"; script := xudt |}].

Definition account : list LiveCell :=
  [live "0x1f4" None "0x";
   live "0x8e" (Some xudtLower) "0x2a000000000000000000000000000000";
   live "0x8e" (Some xudtLower) "0x"].

(** [0xf5]: three inputs, the second from a transaction the node does not
    know, the third from an output that does not exist. *)
Definition orphan : Transaction :=
  {| inputs := [spend "0xf0" "0x0"; spend "0xee" "0x0"; spend "0xf0" "0x9"];
     outputs := [plain "0x1" (secp "0xb1")];
     outputs_data := [str "0x"];
     witnesses := [] |}.

Definition widerLedger (h : jsstring) : option CkbTransaction :=
  if eqb h (str "0xf5") then Some (committed orphan) else ledger h.

Definition widerClient : ChainQueryClient :=
  {| getTransaction := fun _ h => Ok (widerLedger h);
     getBlockHeader := fun _ _ => Ok None;
     getTransactions := fun _ _ => Ok None;
     resolved_at := fun _ _ i => i |}.

(** The channel of [channelLedger] settled: [0xa3] spends the output of
    [0xa2], which no commitment lock guards, and [0xa4] spends that of
    [0xa3]. *)
Definition settlement3 : Transaction :=
  {| inputs := [spend "0xa2" "0x0"];
     outputs := [plain "0x61" (secp "0xc3")];
     outputs_data := [str "0x"];
     witnesses := [str "0x"] |}.

Definition settlement4 : Transaction :=
  {| inputs := [spend "0xa3" "0x0"];
     outputs := [plain "0x60" (secp "0xc4")];
     outputs_data := [str "0x"];
     witnesses := [str "0x"] |}.

Definition settledLedger (h : jsstring) : option CkbTransaction :=
  if eqb h (str "0xa3") then Some (committed settlement3)
  else if eqb h (str "0xa4") then Some (committed settlement4)
  else channelLedger h.

Definition settledIndexer (l : Script) : option CkbIndexerResult :=
  if eqb (args l) (str "0xc2") then Some {| objects := Some [object "0xa2"; object "0xa3"] |}
  else if eqb (args l) (str "0xc3")
       then Some {| objects := Some [object "0xa3"; object "0xa4"] |}
  else channelIndexer l.

Definition settledClient : ChainQueryClient :=
  {| getTransaction := fun _ h => Ok (settledLedger h);
     getBlockHeader := fun _ _ => Ok None;
     getTransactions := fun _ l => Ok (settledIndexer l);
     resolved_at := fun _ _ i => i |}.

(** [0xf6]: one output of the registered UDT, with 17 bytes of data: the
    amount 42 in the first 16 and a seventeenth byte 1. *)
Definition minted : Transaction :=
  {| inputs := [];
     outputs := [{| capacity := str "0x8e"; lock := secp "0xb1"; type_ := Some xudt |}];
     outputs_data := [str "0x2a00000000000000000000000000000001"];
     witnesses := [] |}.

Definition udtClient : ChainQueryClient :=
  {| getTransaction :=
       fun _ h => Ok (if eqb h (str "0xf6") then Some (committed minted) else ledger h);
     getBlockHeader := fun _ _ => Ok None;
     getTransactions := fun _ _ => Ok None;
     resolved_at := fun _ _ i => i |}.




Definition rpc : jsstring := str "https://testnet.ckb.dev/".

End Sample.

(** * Properties *)

(** ** Hex strings and their values *)

Lemma pair_ind {A} (P : list A -> Prop) :
  P [] -> (forall a, P [a]) -> (forall a b r, P r -> P (a :: b :: r)) ->
  forall s, P s.
Proof.
  intros H0 H1 H2 s.
  assert (H : P s /\ forall a, P (a :: s)).
  { induction s as [|b r [IH1 IH2]]; split; auto. }
  apply H.
Qed.

Lemma hexDigit_not_space c : isHexDigit c = true -> isWhiteSpace c = false.
Proof.
  destruct c as [[] [] [] [] [] [] [] []]; vm_compute; congruence.
Qed.

Lemma hexDigit_value c :
  isHexDigit c = true -> digitOf 16 c = Some (hexDigitValue c).
Proof.
  unfold isHexDigit, hexDigitValue. destruct (digitOf 16 c); congruence.
Qed.

Lemma trimEnd_id s :
  forallb (fun c => negb (isWhiteSpace c)) s = true -> trimEnd s = s.
Proof.
  induction s as [|c r IH]; simpl; [reflexivity|].
  rewrite andb_true_iff, negb_true_iff. intros [Hc Hr].
  rewrite (IH Hr), Hc. destruct r; reflexivity.
Qed.

Lemma isHex_no_space s :
  isHex s = true -> forallb (fun c => negb (isWhiteSpace c)) s = true.
Proof.
  unfold isHex. rewrite !forallb_forall. intros H c Hc.
  rewrite (hexDigit_not_space c (H c Hc)). reflexivity.
Qed.

Lemma isHex_app a b : isHex (a ++ b) = isHex a && isHex b.
Proof. apply forallb_app. Qed.

Lemma isHex_split n s : isHex s = isHex (firstn n s) && isHex (skipn n s).
Proof. rewrite <- isHex_app, firstn_skipn. reflexivity. Qed.

Lemma isHex_firstn n s : isHex s = true -> isHex (firstn n s) = true.
Proof. rewrite (isHex_split n s), andb_true_iff. tauto. Qed.

Lemma isHex_skipn n s : isHex s = true -> isHex (skipn n s) = true.
Proof. rewrite (isHex_split n s), andb_true_iff. tauto. Qed.

Lemma isHex_substring s a b : isHex s = true -> isHex (substring s a b) = true.
Proof. intros H. unfold substring. apply isHex_firstn, isHex_skipn, H. Qed.

Lemma substring_length s a b :
  (a <= b)%nat -> (b <= length s)%nat -> length (substring s a b) = (b - a)%nat.
Proof.
  intros Hab Hb. unfold substring.
  rewrite Nat.min_l, Nat.max_r by lia.
  rewrite length_firstn, length_skipn. lia.
Qed.

Lemma substring_short s a b :
  (a <= b)%nat -> (length s <= a)%nat -> substring s a b = [].
Proof.
  intros Hab Hs. unfold substring.
  rewrite Nat.min_l by lia. rewrite skipn_all2 by lia. apply firstn_nil.
Qed.

Lemma substring_to_end s a b :
  (a <= b)%nat -> (length s <= b)%nat -> substring s a b = skipn a s.
Proof.
  intros Hab Hs. unfold substring.
  rewrite Nat.min_l, Nat.max_r by lia.
  apply firstn_all2. rewrite length_skipn. lia.
Qed.

Lemma digitsAcc_hex s : isHex s = true ->
  forall acc, digitsAcc 16 acc s
              = Some (fold_left (fun a c => a * 16 + hexDigitValue c)%Z s acc).
Proof.
  induction s as [|c r IH]; simpl; intros H acc; [reflexivity|].
  apply andb_true_iff in H as [Hc Hr].
  rewrite (hexDigit_value c Hc). apply IH, Hr.
Qed.

(** [BigInt('0x' + s)] on one or more hex digits is their big-endian value. *)
Lemma BigInt_0x_hex s :
  s <> [] -> isHex s = true -> BigInt (str "0x" ++ s) = Ok (hexValue s).
Proof.
  intros Hne Hhex. unfold BigInt, trim.
  change (trimStart (str "0x" ++ s)) with ("0"%char :: "x"%char :: s).
  rewrite trimEnd_id by (simpl; apply isHex_no_space, Hhex).
  cbn [Ascii.eqb orb]. change (Ascii.eqb "x" "x") with true. cbn [orb].
  unfold digitsValue. destruct s as [|c r]; [congruence|].
  rewrite digitsAcc_hex by assumption. reflexivity.
Qed.

Lemma BigInt_0x_empty : BigInt (str "0x") = Throw (cannotConvert (str "0x")).
Proof. reflexivity. Qed.

Lemma hexValue_acc s : forall acc,
  fold_left (fun a c => a * 16 + hexDigitValue c)%Z s acc
  = (acc * 16 ^ Z.of_nat (length s) + hexValue s)%Z.
Proof.
  unfold hexValue. induction s as [|c r IH]; intros acc.
  - simpl. lia.
  - cbn [fold_left length]. rewrite IH, (IH (0 * 16 + hexDigitValue c)%Z).
    rewrite Nat2Z.inj_succ, Z.pow_succ_r by lia. ring.
Qed.

Lemma hexValue_app a b :
  hexValue (a ++ b) = (hexValue a * 16 ^ Z.of_nat (length b) + hexValue b)%Z.
Proof.
  unfold hexValue at 1. rewrite fold_left_app. apply hexValue_acc.
Qed.

Lemma hexBytes_chunks s : hexBytes s = map hexValue (byteChunks s).
Proof.
  induction s as [| a | a b r IH] using pair_ind; simpl; congruence.
Qed.

Lemma concat_snoc {A} (l : list (list A)) x : concat (l ++ [x]) = concat l ++ x.
Proof. rewrite concat_app. simpl. rewrite app_nil_r. reflexivity. Qed.

(** Reversing the two-digit pieces and reading the result big-endian is the
    little-endian reading of the bytes. *)
Lemma hexValue_rev_chunks s :
  hexValue (concat (rev (byteChunks s))) = leValue (hexBytes s).
Proof.
  induction s as [| a | a b r IH] using pair_ind.
  - reflexivity.
  - cbn. lia.
  - cbn [byteChunks rev hexBytes leValue fold_right].
    rewrite concat_snoc, hexValue_app. fold (leValue (hexBytes r)).
    rewrite IH. cbn [length]. change (16 ^ Z.of_nat 2)%Z with 256%Z. ring.
Qed.

Lemma isHex_rev_chunks s : isHex (concat (rev (byteChunks s))) = isHex s.
Proof.
  induction s as [| a | a b r IH] using pair_ind.
  - reflexivity.
  - cbn. reflexivity.
  - cbn [byteChunks rev]. rewrite concat_snoc, isHex_app, IH.
    unfold isHex. cbn [forallb].
    destruct (forallb isHexDigit r), (isHexDigit a), (isHexDigit b); reflexivity.
Qed.

Lemma rev_chunks_nonempty s : s <> [] -> concat (rev (byteChunks s)) <> [].
Proof.
  destruct s as [| a [| b r]]; [congruence | cbn; congruence |].
  intros _. cbn [byteChunks rev]. rewrite concat_snoc.
  intros H. apply app_eq_nil in H as [_ H]. discriminate.
Qed.

Lemma littleEndianHexToBigInt_hex s :
  s <> [] -> isHex s = true ->
  littleEndianHexToBigInt s = Ok (leValue (hexBytes (padEven s))).
Proof.
  intros Hne Hhex. unfold littleEndianHexToBigInt. fold (padEven s).
  assert (Hp : padEven s <> [] /\ isHex (padEven s) = true).
  { unfold padEven. destruct (Nat.eqb _ _); [auto|].
    split; [discriminate|]. simpl. exact Hhex. }
  destruct Hp as [Hp1 Hp2].
  rewrite BigInt_0x_hex.
  - now rewrite hexValue_rev_chunks.
  - now apply rev_chunks_nonempty.
  - now rewrite isHex_rev_chunks.
Qed.

Lemma littleEndianHexToBigInt_empty :
  littleEndianHexToBigInt [] = Throw (cannotConvert (str "0x")).
Proof. reflexivity. Qed.

Lemma padEven_even s : Nat.even (length s) = true -> padEven s = s.
Proof.
  intros H. unfold padEven.
  destruct (Nat.eqb_spec (length s mod 2) 0) as [|Hn]; [reflexivity|].
  exfalso. apply Hn. apply Nat.even_spec in H. destruct H as [k ->].
  rewrite Nat.mul_comm. apply Nat.Div0.mod_mul.
Qed.

(** On an even number of digits the plain reading is the big-endian value of
    the bytes. *)
Lemma hexValue_beValue s :
  Nat.even (length s) = true -> hexValue s = beValue (hexBytes s).
Proof.
  unfold hexValue, beValue.
  enough (H : Nat.even (length s) = true -> forall acc,
             fold_left (fun a c => a * 16 + hexDigitValue c)%Z s acc
             = fold_left (fun a b => a * 256 + b)%Z (hexBytes s) acc) by auto.
  induction s as [| a | a b r IH] using pair_ind; intros Hev acc.
  - reflexivity.
  - discriminate.
  - cbn [fold_left hexBytes]. rewrite <- IH by exact Hev.
    f_equal. unfold hexValue. cbn [fold_left]. ring.
Qed.

Lemma strip0x_prefixed data : strip0x (str "0x" ++ data) = data.
Proof. reflexivity. Qed.

Lemma strip0x_hex data : isHex data = true -> strip0x data = data.
Proof.
  intros H. unfold strip0x.
  destruct data as [|a [|b r]]; cbn [startsWith str list_ascii_of_string].
  - reflexivity.
  - rewrite andb_false_r. reflexivity.
  - destruct (Ascii.eqb_spec "0" a) as [<-|]; [|reflexivity].
    destruct (Ascii.eqb_spec "x" b) as [<-|]; [|reflexivity].
    cbn in H. discriminate.
Qed.

Lemma strip0x_either data hex :
  isHex data = true -> hex = data \/ hex = str "0x" ++ data -> strip0x hex = data.
Proof.
  intros H [-> | ->]; [apply strip0x_hex, H | apply strip0x_prefixed].
Qed.

Lemma nonempty_of_length {A} (s : list A) : (0 < length s)%nat -> s <> [].
Proof. destruct s; simpl; [lia | discriminate]. Qed.

Lemma even_length_16 (s : jsstring) : length s = 16%nat -> Nat.even (length s) = true.
Proof. intros ->. reflexivity. Qed.

(** ** IntegerCodec: epoch unpacking *)

(** C9. For every integer [v] (so for every 64-bit [v]), [parseEpoch v]
    returns as [number] bits [0,24) of [v], as [index] bits [24,40) and as
    [length] bits [40,56); [number + (index << 24) + (length << 40)] is
    [v mod 2^56], the bits from 56 up are dropped. *)
Theorem parseEpoch_fields (v : Z) :
  let number := (v mod 2 ^ 24)%Z in
  let index := ((v / 2 ^ 24) mod 2 ^ 16)%Z in
  let length := ((v / 2 ^ 40) mod 2 ^ 16)%Z in
  parseEpoch v = {| epoch_number := toString number;
                    epoch_index := toString index;
                    epoch_length := toString length;
                    epoch_value := toString v |}
  /\ (number + Z.shiftl index 24 + Z.shiftl length 40 = v mod 2 ^ 56)%Z
  /\ (forall i, (0 <= i)%Z ->
        Z.testbit number i = (i <? 24)%Z && Z.testbit v i)
  /\ (forall i, (0 <= i)%Z ->
        Z.testbit index i = (i <? 16)%Z && Z.testbit v (i + 24))
  /\ (forall i, (0 <= i)%Z ->
        Z.testbit length i = (i <? 16)%Z && Z.testbit v (i + 40)).
Proof.
  cbv zeta. repeat split.
  - unfold parseEpoch.
    change (Z.shiftl 1 24 - 1)%Z with (Z.ones 24).
    change (Z.shiftl 1 16 - 1)%Z with (Z.ones 16).
    rewrite !Z.land_ones by lia. rewrite !Z.shiftr_div_pow2 by lia.
    rewrite Z.pow_0_r, Z.div_1_r. reflexivity.
  - rewrite !Z.shiftl_mul_pow2 by lia.
    change (2 ^ 56)%Z with (2 ^ 24 * 2 ^ 32)%Z.
    rewrite Z.rem_mul_r by lia.
    change (2 ^ 32)%Z with (2 ^ 16 * 2 ^ 16)%Z.
    rewrite Z.rem_mul_r by lia.
    rewrite Z.div_div by lia.
    change (2 ^ 24 * 2 ^ 16)%Z with (2 ^ 40)%Z. ring.
  - intros i Hi. apply Z.testbit_mod_pow2. lia.
  - intros i Hi. rewrite Z.testbit_mod_pow2 by lia.
    rewrite Z.div_pow2_bits by lia. reflexivity.
  - intros i Hi. rewrite Z.testbit_mod_pow2 by lia.
    rewrite Z.div_pow2_bits by lia. reflexivity.
Qed.

(** ** LockArgsCodec *)

Lemma field16 data a :
  isHex data = true -> (a + 16 <= length data)%nat ->
  let f := substring data a (a + 16) in
  f <> [] /\ isHex f = true /\ Nat.even (length f) = true.
Proof.
  intros Hhex Hlen f.
  assert (Hl : length f = 16%nat) by (unfold f; rewrite substring_length; lia).
  repeat split.
  - apply nonempty_of_length. lia.
  - apply isHex_substring, Hhex.
  - apply even_length_16, Hl.
Qed.

(** C1 (as the code has it). For a hex input long enough to contain the
    field, [parseLockArgsV2] returns as [version] the big-endian value of
    the 8 bytes at hex characters 56 to 72: it reads them with
    [BigInt('0x' + versionHex)], without reversing the bytes. *)
Theorem parseLockArgsV2_version_big_endian (data hex : jsstring) :
  isHex data = true ->
  (MIN_LOCK_ARGS_HEX_LEN <= length data)%nat ->
  hex = data \/ hex = str "0x" ++ data ->
  exists r, parseLockArgsV2 hex = Ok r
            /\ version r = toString (beValue (hexBytes (substring data 56 72))).
Proof.
  unfold MIN_LOCK_ARGS_HEX_LEN. intros Hhex Hlen Hin.
  unfold parseLockArgsV2. rewrite (strip0x_either data hex Hhex Hin).
  cbn [Nat.add].
  destruct (field16 data 40 Hhex) as (E1 & E2 & _); [lia|].
  destruct (field16 data 56 Hhex) as (V1 & V2 & V3); [lia|].
  cbn [Nat.add] in E1, E2, V1, V2, V3.
  rewrite (littleEndianHexToBigInt_hex _ E1 E2).
  rewrite (BigInt_0x_hex _ V1 V2). cbn [bind].
  eexists. split; [reflexivity|]. cbn [version].
  now rewrite (hexValue_beValue _ V3).
Qed.

Lemma parseLockArgsV2_version_big_endian_witness :
  exists r,
    parseLockArgsV2
      (str "0x00112233445566778899aabbccddeeff001122330a0000000000000000000000000000020123456789abcdef0123456789abcdef0123456701")
    = Ok r
    /\ version r = toString 2.
Proof.
  apply (parseLockArgsV2_version_big_endian
           (str "00112233445566778899aabbccddeeff001122330a0000000000000000000000000000020123456789abcdef0123456789abcdef0123456701")).
  - reflexivity.
  - apply Nat.leb_le. reflexivity.
  - right. reflexivity.
Defined.

(** C1 as stated fails: on lock args whose version bytes are
    [01 00 00 00 00 00 00 00] the little-endian value is 1, and
    [parseLockArgsV2] returns 2^56. *)
Lemma parseLockArgsV2_version_not_little_endian :
  let data :=
    str "00000000000000000000000000000000000000000a000000000000000100000000000000" in
  isHex data = true
  /\ length data = 72%nat
  /\ leValue (hexBytes (substring data 56 72)) = 1%Z
  /\ exists r, parseLockArgsV2 data = Ok r
               /\ version r = str "72057594037927936"
               /\ version r <> toString (leValue (hexBytes (substring data 56 72))).
Proof.
  cbv zeta. repeat split.
  eexists. split; [vm_compute; reflexivity|]. split; [reflexivity|].
  vm_compute. discriminate.
Qed.

(** C3 (as the code has it). On a hex input shorter than 72 characters both
    decoders raise when the version field is empty (at most 56 characters:
    [BigInt('0x')] is a SyntaxError) and return a record built from the
    truncated fields when it is not (57 to 71 characters). *)
Theorem parseLockArgs_short_input (data hex : jsstring) :
  isHex data = true ->
  hex = data \/ hex = str "0x" ++ data ->
  (length data < MIN_LOCK_ARGS_HEX_LEN)%nat ->
  if (length data <=? 56)%nat then
    parseLockArgs hex = Throw (cannotConvert (str "0x"))
    /\ parseLockArgsV2 hex = Throw (cannotConvert (str "0x"))
  else
    parseLockArgs hex
    = Ok {| pubkey_hash := str "0x" ++ firstn 40 data;
            delay_epoch := parseEpoch (leValue (hexBytes (substring data 40 56)));
            version := toString (leValue (hexBytes (padEven (skipn 56 data))));
            htlcs := Some [];
            settlement_hash := None;
            settlement_flag := None |}
    /\ parseLockArgsV2 hex
       = Ok {| pubkey_hash := str "0x" ++ firstn 40 data;
               delay_epoch := parseEpoch (leValue (hexBytes (substring data 40 56)));
               version := toString (hexValue (skipn 56 data));
               htlcs := None;
               settlement_hash := Some [];
               settlement_flag := None |}.
Proof.
  unfold MIN_LOCK_ARGS_HEX_LEN. intros Hhex Hin Hlen.
  unfold parseLockArgs, parseLockArgsV2.
  rewrite (strip0x_either data hex Hhex Hin). cbn [Nat.add].
  destruct (Nat.leb_spec (length data) 56) as [Hle | Hgt].
  - rewrite (substring_short data 56 72) by lia.
    destruct (Nat.le_gt_cases (length data) 40) as [H40 | H40].
    + rewrite (substring_short data 40 56) by lia. split; reflexivity.
    + rewrite littleEndianHexToBigInt_hex.
      * split; reflexivity.
      * apply nonempty_of_length. rewrite (substring_to_end data 40 56) by lia.
        rewrite length_skipn. lia.
      * apply isHex_substring, Hhex.
  - destruct (field16 data 40 Hhex) as (E1 & E2 & E3); [lia|].
    cbn [Nat.add] in E1, E2, E3.
    rewrite (littleEndianHexToBigInt_hex _ E1 E2), (padEven_even _ E3).
    rewrite (substring_to_end data 56 72) by lia.
    assert (V1 : skipn 56 data <> [])
      by (apply nonempty_of_length; rewrite length_skipn; lia).
    assert (V2 : isHex (skipn 56 data) = true) by (apply isHex_skipn, Hhex).
    rewrite (littleEndianHexToBigInt_hex _ V1 V2), (BigInt_0x_hex _ V1 V2).
    cbn [bind]. unfold substringFrom.
    rewrite (substring_short data 72 112), (substring_short data 112 114) by lia.
    rewrite (skipn_all2 (n:=72) data) by lia.
    split; reflexivity.
Qed.

Lemma parseLockArgs_short_input_witness :
  (parseLockArgs (str "0x00112233") = Throw (cannotConvert (str "0x"))
   /\ parseLockArgsV2 (str "0x00112233") = Throw (cannotConvert (str "0x")))
  /\ (exists r r2,
        parseLockArgs
          (str "00112233445566778899aabbccddeeff001122330a000000000000000100") = Ok r
        /\ version r = toString 1 /\ htlcs r = Some []
        /\ parseLockArgsV2
             (str "00112233445566778899aabbccddeeff001122330a000000000000000100") = Ok r2
        /\ version r2 = toString 256 /\ settlement_hash r2 = Some []).
Proof.
  split.
  - apply (parseLockArgs_short_input (str "00112233") (str "0x00112233")).
    + reflexivity.
    + right. reflexivity.
    + apply Nat.ltb_lt. reflexivity.
  - pose proof (parseLockArgs_short_input
                  (str "00112233445566778899aabbccddeeff001122330a000000000000000100")
                  (str "00112233445566778899aabbccddeeff001122330a000000000000000100")
                  eq_refl (or_introl eq_refl)) as H.
    assert (L : (length (str "00112233445566778899aabbccddeeff001122330a000000000000000100")
                 < MIN_LOCK_ARGS_HEX_LEN)%nat) by (apply Nat.ltb_lt; reflexivity).
    specialize (H L). cbn [Nat.leb length str list_ascii_of_string] in H.
    destruct H as [H1 H2].
    eexists. eexists. split; [exact H1|]. split; [reflexivity|]. split; [reflexivity|].
    split; [exact H2|]. split; reflexivity.
Defined.

(** C3 as stated fails: a 20-character hex input, shorter than the minimum,
    makes both decoders raise. *)
Lemma parseLockArgs_short_input_raises :
  let hex := str "0x00112233445566778899" in
  isHex (strip0x hex) = true
  /\ (length (strip0x hex) < MIN_LOCK_ARGS_HEX_LEN)%nat
  /\ parseLockArgs hex = Throw (cannotConvert (str "0x"))
  /\ parseLockArgsV2 hex = Throw (cannotConvert (str "0x")).
Proof.
  cbv zeta. split; [reflexivity|]. split; [apply Nat.ltb_lt; reflexivity|].
  split; reflexivity.
Qed.

(** ** WitnessCodec *)

(** C4 (as the code has it). On a witness that holds the 8 version bytes,
    discriminator [0xFF] under [parseWitness] and discriminator [0x00] under
    [parseWitnessV2] both give the revocation variant with one and the same
    layout, [revocationAt]; its version is the big-endian value of the 8
    bytes after the discriminator. *)
Theorem parseWitness_revocation_layout (data hex : jsstring) :
  isHex data = true ->
  (50 <= length data)%nat ->
  hex = data \/ hex = str "0x" ++ data ->
  (parseInt16 (substring data 32 34) = Int 255 ->
   exists w, parseWitness hex = Ok w
             /\ unlock_type w = Some (Int 255)
             /\ revocation w = Some (revocationAt data))
  /\ (parseInt16 (substring data 32 34) = Int 0 ->
      exists w, parseWitnessV2 hex = Ok w
                /\ unlock_count w = Some (Int 0)
                /\ revocation w = Some (revocationAt data)).
Proof.
  intros Hhex Hlen Hin.
  destruct (field16 data 34 Hhex) as (V1 & V2 & V3); [lia|].
  cbn [Nat.add] in V1, V2, V3.
  split; intros Hd.
  - unfold parseWitness. rewrite (strip0x_either data hex Hhex Hin).
    cbn [Nat.add]. rewrite Hd. cbn [numberIs Z.eqb Pos.eqb].
    rewrite (BigInt_0x_hex _ V1 V2). cbn [bind].
    eexists. split; [reflexivity|]. split; [reflexivity|].
    cbn [revocation]. unfold revocationAt, substringFrom.
    now rewrite (hexValue_beValue _ V3).
  - unfold parseWitnessV2. rewrite (strip0x_either data hex Hhex Hin).
    cbn [Nat.add]. rewrite Hd. cbn [numberIs Z.eqb].
    rewrite (BigInt_0x_hex _ V1 V2). cbn [bind].
    eexists. split; [reflexivity|]. split; [reflexivity|].
    cbn [revocation]. unfold revocationAt, substringFrom.
    now rewrite (hexValue_beValue _ V3).
Qed.

Lemma parseWitness_revocation_layout_witness :
  (exists w,
     parseWitness (str "0x00000000000000000000000000000000ff0000000000000002aabbccdd") = Ok w
     /\ unlock_type w = Some (Int 255)
     /\ revocation w
        = Some (revocationAt (str "00000000000000000000000000000000ff0000000000000002aabbccdd")))
  /\ (exists w,
        parseWitnessV2 (str "0x00000000000000000000000000000000000000000000000002aabbccdd") = Ok w
        /\ unlock_count w = Some (Int 0)
        /\ revocation w
           = Some (revocationAt (str "00000000000000000000000000000000000000000000000002aabbccdd"))).
Proof.
  split.
  - apply (parseWitness_revocation_layout
             (str "00000000000000000000000000000000ff0000000000000002aabbccdd")
             (str "0x00000000000000000000000000000000ff0000000000000002aabbccdd")).
    + reflexivity.
    + apply Nat.leb_le. reflexivity.
    + right. reflexivity.
    + reflexivity.
  - apply (parseWitness_revocation_layout
             (str "00000000000000000000000000000000000000000000000002aabbccdd")
             (str "0x00000000000000000000000000000000000000000000000002aabbccdd")).
    + reflexivity.
    + apply Nat.leb_le. reflexivity.
    + right. reflexivity.
    + reflexivity.
Defined.

(** C4 as stated fails: with version bytes [01 00 00 00 00 00 00 00] after
    the discriminator, whose little-endian value is 1, both decoders return
    version 2^56. *)
Lemma parseWitness_revocation_not_little_endian :
  let v1 := str "00000000000000000000000000000000ff0100000000000000aabb" in
  let v2 := str "00000000000000000000000000000000000100000000000000aabb" in
  leValue (hexBytes (substring v1 34 50)) = 1%Z
  /\ leValue (hexBytes (substring v2 34 50)) = 1%Z
  /\ (exists w r, parseWitness v1 = Ok w
                  /\ unlock_type w = Some (Int 255)
                  /\ revocation w = Some r
                  /\ rev_version r = str "72057594037927936"
                  /\ rev_version r <> toString (leValue (hexBytes (substring v1 34 50))))
  /\ (exists w r, parseWitnessV2 v2 = Ok w
                  /\ unlock_count w = Some (Int 0)
                  /\ revocation w = Some r
                  /\ rev_version r = str "72057594037927936"
                  /\ rev_version r <> toString (leValue (hexBytes (substring v2 34 50)))).
Proof.
  cbv zeta. split; [reflexivity|]. split; [reflexivity|].
  split; eexists; eexists; (split; [vm_compute; reflexivity|]);
    (split; [reflexivity|]); (split; [reflexivity|]); (split; [reflexivity|]);
    vm_compute; discriminate.
Qed.

(** ** TxMessageBuilder: resolving the inputs *)

Lemma eqb_eq (a b : jsstring) : eqb a b = true <-> a = b.
Proof. unfold eqb. destruct (list_eq_dec ascii_dec a b); split; congruence. Qed.

Lemma eqb_refl (a : jsstring) : eqb a a = true.
Proof. now apply eqb_eq. Qed.

Lemma readDecimal_toString z : readDecimal (toString z) = z.
Proof.
  unfold readDecimal, toString. rewrite string_of_list_ascii_of_string.
  destruct (Z.eq_dec z 0) as [-> | Hz]; [reflexivity|].
  rewrite NilZero.isi.
  - apply DecimalZ.of_to.
  - intros H. apply Hz. rewrite <- (DecimalZ.of_to z), H. reflexivity.
  - intros H. apply Hz. rewrite <- (DecimalZ.of_to z), H. reflexivity.
Qed.

Lemma toString_inj a b : toString a = toString b -> a = b.
Proof.
  intros H. rewrite <- (readDecimal_toString a), <- (readDecimal_toString b).
  now rewrite H.
Qed.

Lemma insertByTime_perm {A} time (x : nat * A) l :
  Permutation (insertByTime time x l) (x :: l).
Proof.
  induction l as [|y l IH]; simpl; [reflexivity|].
  destruct (Nat.leb _ _); [reflexivity|].
  rewrite IH. apply perm_swap.
Qed.

Lemma completionOrder_perm {A} time (xs : list A) :
  Permutation (completionOrder time xs) (indexed xs).
Proof.
  unfold completionOrder. induction (indexed xs) as [|x l IH]; simpl; [reflexivity|].
  rewrite insertByTime_perm. now apply perm_skip.
Qed.

Lemma combine_seq_fst {A} (xs : list A) s :
  map fst (combine (seq s (length xs)) xs) = seq s (length xs).
Proof.
  revert s. induction xs as [|x xs IH]; intros s; simpl; [reflexivity|].
  now rewrite IH.
Qed.

Lemma combine_seq_nth {A} (xs : list A) : forall s k x,
  nth_error xs k = Some x -> In ((s + k)%nat, x) (combine (seq s (length xs)) xs).
Proof.
  induction xs as [|y xs IH]; intros s k x H.
  - destruct k; discriminate.
  - destruct k as [|k]; simpl in *.
    + inversion H. left. f_equal. lia.
    + right. replace (s + S k)%nat with (S s + k)%nat by lia. now apply IH.
Qed.

Lemma completionOrder_keys {A} time (xs : list A) :
  NoDup (map fst (completionOrder time xs)).
Proof.
  eapply Permutation_NoDup.
  - apply Permutation_map, Permutation_sym, completionOrder_perm.
  - unfold indexed. rewrite combine_seq_fst. apply seq_NoDup.
Qed.

Lemma find_by_key {A} (l : list (nat * A)) i v :
  NoDup (map fst l) -> In (i, v) l ->
  find (fun p => Nat.eqb (fst p) i) l = Some (i, v).
Proof.
  induction l as [|[j w] l IH]; simpl; intros Hnd Hin; [contradiction|].
  inversion Hnd as [|? ? Hnotin Hnd']; subst.
  destruct Hin as [Heq | Hin].
  - inversion Heq; subst. now rewrite Nat.eqb_refl.
  - destruct (Nat.eqb_spec j i) as [-> | _]; [|now apply IH].
    exfalso. apply Hnotin. change i with (fst (i, v)). now apply in_map.
Qed.

Lemma firstRejection_none {A} (log : list (nat * JsResult A)) :
  firstRejection log = None <->
  forall i r, In (i, r) log -> exists a, r = Ok a.
Proof.
  induction log as [|[j [a|e]] log IH]; simpl.
  - split; [intros _ ? ? []|reflexivity].
  - rewrite IH. split.
    + intros H i r [Heq | Hin]; [inversion Heq; eauto | eauto].
    + intros H i r Hin. eauto.
  - split; [discriminate|]. intros H.
    destruct (H j (Throw e) (or_introl eq_refl)) as [a Ha]. discriminate.
Qed.

Lemma mapM_ok_inv {A B} (f : A -> JsResult B) xs ys :
  mapM f xs = Ok ys -> Forall2 (fun x y => f x = Ok y) xs ys.
Proof.
  revert ys. induction xs as [|x xs IH]; simpl; intros ys H.
  - inversion H. constructor.
  - destruct (f x) as [y|] eqn:E; [|discriminate]. simpl in H.
    destruct (mapM f xs) as [ys'|]; [|discriminate]. simpl in H.
    inversion H; subst. constructor; auto.
Qed.

Lemma mapM_ok_intro {A B} (f : A -> JsResult B) xs ys :
  Forall2 (fun x y => f x = Ok y) xs ys -> mapM f xs = Ok ys.
Proof.
  induction 1 as [|x y xs ys Hxy _ IH]; simpl; [reflexivity|].
  now rewrite Hxy, IH.
Qed.

Lemma mapM_total {A B} (f : A -> JsResult B) xs :
  (forall x, In x xs -> exists y, f x = Ok y) -> exists ys, mapM f xs = Ok ys.
Proof.
  induction xs as [|x xs IH]; simpl; intros H; [eauto|].
  destruct (H x (or_introl eq_refl)) as [y ->].
  destruct IH as [ys ->]; [intros; apply H; now right|]. simpl. eauto.
Qed.

Lemma mapM_ok_each {A B} (f : A -> JsResult B) xs ys :
  mapM f xs = Ok ys -> forall x, In x xs -> exists y, f x = Ok y.
Proof.
  intros H. apply mapM_ok_inv in H.
  induction H as [|x y xs ys Hxy _ IH]; intros z []; subst; eauto.
Qed.

(** The values gathered in index order are those of the inputs, whatever
    order the promises settled in. *)
Lemma gather_in_index_order {A B} (g : A -> JsResult B) (log : list (nat * JsResult B)) :
  forall (xs : list A) s,
    (forall k x, nth_error xs k = Some x ->
                 find (fun p => Nat.eqb (fst p) (s + k)) log = Some ((s + k)%nat, g x)) ->
    forall ys, mapM g xs = Ok ys ->
               flat_map (fulfilled log) (seq s (length xs)) = ys.
Proof.
  induction xs as [|x xs IH]; intros s Hf ys Hm; simpl in *.
  - now inversion Hm.
  - destruct (g x) as [y|] eqn:E; [|discriminate]. simpl in Hm.
    destruct (mapM g xs) as [ys'|] eqn:E'; [|discriminate]. simpl in Hm.
    inversion Hm; subst.
    unfold fulfilled at 1.
    pose proof (Hf 0%nat x eq_refl) as H0. rewrite Nat.add_0_r in H0.
    rewrite H0, E. simpl. f_equal.
    apply IH; [|reflexivity].
    intros k x' Hk. replace (S s + k)%nat with (s + S k)%nat by lia.
    now apply Hf.
Qed.

Lemma Promise_all_ok {A B} (g : A -> JsResult B) time (xs : list A) ys :
  Promise_all (length xs)
    (map (fun p => (fst p, g (snd p))) (completionOrder time xs)) = Ok ys
  <-> mapM g xs = Ok ys.
Proof.
  set (order := completionOrder time xs).
  set (log := map (fun p => (fst p, g (snd p))) order).
  assert (Hkeys : NoDup (map fst log)).
  { unfold log. rewrite map_map. simpl. apply completionOrder_keys. }
  assert (Hfind : forall k x, nth_error xs k = Some x ->
            find (fun p => Nat.eqb (fst p) (0 + k)) log = Some ((0 + k)%nat, g x)).
  { intros k x Hk. apply find_by_key; [exact Hkeys|].
    unfold log.
    change ((0 + k)%nat, g x) with ((fun p => (fst p, g (snd p))) ((0 + k)%nat, x)).
    apply in_map. eapply Permutation_in.
    - apply Permutation_sym, completionOrder_perm.
    - unfold indexed. now apply combine_seq_nth. }
  assert (Hlog : forall i r, In (i, r) log -> exists x, In x xs /\ r = g x).
  { intros i r Hin. unfold log in Hin. apply in_map_iff in Hin as [[j x] [Heq Hin]].
    inversion Heq; subst. exists x. split; [|reflexivity].
    apply (Permutation_in _ (completionOrder_perm time xs)) in Hin.
    unfold indexed in Hin. now apply in_combine_r in Hin. }
  unfold Promise_all. split.
  - destruct (firstRejection log) eqn:E; [discriminate|]. intros H.
    inversion H as [H']. rewrite H'.
    destruct (mapM_total g xs) as [ys' Hys'].
    + intros x Hx. apply In_nth_error in Hx as [k Hk].
      apply (proj1 (firstRejection_none log) E (0 + k)%nat).
      eapply find_some. apply (Hfind k x Hk).
    + rewrite Hys'. f_equal.
      rewrite <- H'. symmetry.
      now apply (gather_in_index_order g log xs 0%nat Hfind).
  - intros Hm.
    assert (E : firstRejection log = None).
    { apply firstRejection_none. intros i r Hin.
      destruct (Hlog i r Hin) as [x [Hx ->]].
      eapply mapM_ok_each; eauto. }
    rewrite E. f_equal.
    now apply (gather_in_index_order g log xs 0%nat Hfind).
Qed.

Section ResolveInputs.

Variable client : ChainQueryClient.
Variables rpcUrl commitmentCodeHash : jsstring.
Variable tx : Transaction.

Local Abbreviation callback := (inputCallback client rpcUrl commitmentCodeHash tx).
Local Abbreviation run := (runCallbacks client rpcUrl commitmentCodeHash tx).
Local Abbreviation step :=
  (fun pw (p : nat * CellOutput) => witnessStep commitmentCodeHash tx (fst p) (snd p) pw).

Lemma inputCallback_cell i input pw :
  fst (callback i input pw) = cellOfInput client rpcUrl input.
Proof.
  unfold inputCallback, cellOfInput.
  destruct (inputCell client rpcUrl input) as [[po c]|e]; reflexivity.
Qed.

Lemma inputCallback_state i input pw po :
  resolveInput client rpcUrl (i, input) = Ok (i, po) ->
  snd (callback i input pw) = step pw (i, po).
Proof.
  unfold inputCallback, resolveInput. simpl.
  destruct (inputCell client rpcUrl input) as [[po' c]|e]; simpl; [|discriminate].
  intros H. inversion H. reflexivity.
Qed.

Lemma resolveInput_index p q : resolveInput client rpcUrl p = Ok q -> fst q = fst p.
Proof.
  unfold resolveInput.
  destruct (inputCell client rpcUrl (snd p)) as [[po c]|e]; simpl; [|discriminate].
  intros H. inversion H. reflexivity.
Qed.

Lemma resolveInput_cell p :
  (exists q, resolveInput client rpcUrl p = Ok q)
  <-> (exists c, cellOfInput client rpcUrl (snd p) = Ok c).
Proof.
  unfold resolveInput, cellOfInput.
  destruct (inputCell client rpcUrl (snd p)) as [[po c]|e]; simpl;
    split; intros [x H]; try discriminate; eauto.
Qed.

Lemma runCallbacks_log order pw :
  fst (run order pw) = map (fun p => (fst p, cellOfInput client rpcUrl (snd p))) order.
Proof.
  revert pw. induction order as [|[i input] order IH]; intros pw; simpl; [reflexivity|].
  pose proof (inputCallback_cell i input pw) as Hc.
  destruct (callback i input pw) as [r pw']. simpl in Hc. subst r.
  specialize (IH pw'). destruct (run order pw') as [log pw'']. simpl in *.
  now rewrite IH.
Qed.

Lemma runCallbacks_state order resolved :
  mapM (resolveInput client rpcUrl) order = Ok resolved ->
  forall pw, snd (run order pw) = fold_left step resolved pw.
Proof.
  revert resolved. induction order as [|[i input] order IH]; simpl; intros resolved H pw.
  - inversion H. reflexivity.
  - destruct (resolveInput client rpcUrl (i, input)) as [[j po]|] eqn:E; [|discriminate].
    simpl in H.
    destruct (mapM (resolveInput client rpcUrl) order) as [res'|] eqn:E'; [|discriminate].
    simpl in H. inversion H; subst.
    pose proof (resolveInput_index _ _ E) as Hj. simpl in Hj. subst j.
    pose proof (inputCallback_state i input pw po E) as Hs.
    destruct (callback i input pw) as [r pw']. simpl in Hs. subst pw'.
    specialize (IH res' eq_refl (witnessStep commitmentCodeHash tx i po pw)).
    destruct (run order _) as [log pw'']. simpl in *. exact IH.
Qed.

(** The witness block on one resolved input. *)
Lemma witnessStep_cases pw p :
  step pw p =
  match pw with
  | Some w => Some w
  | None =>
      if commitmentInput commitmentCodeHash p
      then Some (recorded (decodeAttempt tx p))
      else None
  end.
Proof.
  destruct p as [i po]. cbn [fst snd].
  unfold witnessStep, commitmentInput. cbn [fst snd].
  destruct pw as [w|]; cbn [isNull].
  - rewrite andb_false_r. reflexivity.
  - rewrite andb_true_r.
    destruct (eqb (code_hash (lock po)) commitmentCodeHash); cbn [andb]; [|reflexivity].
    unfold decodeCommitmentWitness, decodeAttempt, MIN_LOCK_ARGS_HEX_LEN.
    fold (strip0x (args (lock po))). cbn [fst snd].
    destruct (Nat.leb 72 (length (strip0x (args (lock po))))); [|reflexivity].
    destruct (littleEndianHexToBigInt _) as [v|e]; cbn [bind recorded]; [|reflexivity].
    destruct (Z.eqb v 1);
      destruct (onString _ _) as [w|e]; reflexivity.
Qed.

Lemma witness_kept resolved w : fold_left step resolved (Some w) = Some w.
Proof.
  induction resolved as [|p resolved IH]; simpl; [reflexivity|].
  rewrite witnessStep_cases. exact IH.
Qed.

(** Only the first commitment input is decoded. *)
Lemma witness_first_match resolved :
  fold_left step resolved None = selectedWitness commitmentCodeHash tx resolved.
Proof.
  unfold selectedWitness.
  induction resolved as [|p resolved IH]; cbn [fold_left find]; [reflexivity|].
  rewrite witnessStep_cases.
  destruct (commitmentInput commitmentCodeHash p); [apply witness_kept | exact IH].
Qed.

End ResolveInputs.

Lemma resolveInputs_cells client rpcUrl cch txHash tx cells :
  fst (resolveInputs client rpcUrl cch txHash tx) = Ok cells
  <-> mapM (cellOfInput client rpcUrl) (inputs tx) = Ok cells.
Proof.
  unfold resolveInputs.
  pose proof (runCallbacks_log client rpcUrl cch tx
                (completionOrder (resolved_at client rpcUrl txHash) (inputs tx)) None) as Hl.
  destruct (runCallbacks _ _ _ _ _ _) as [log pw]. cbn [fst] in *. subst log.
  apply Promise_all_ok.
Qed.

Lemma resolveInputs_resolved client rpcUrl txHash tx cells :
  mapM (cellOfInput client rpcUrl) (inputs tx) = Ok cells ->
  exists resolved,
    mapM (resolveInput client rpcUrl)
         (completionOrder (resolved_at client rpcUrl txHash) (inputs tx)) = Ok resolved.
Proof.
  intros H. apply mapM_total. intros [i input] Hin.
  apply resolveInput_cell. cbn [snd].
  eapply mapM_ok_each; [exact H|].
  apply (Permutation_in _ (completionOrder_perm _ _)) in Hin.
  unfold indexed in Hin. now apply in_combine_r in Hin.
Qed.

Lemma resolveInputs_witness client rpcUrl cch txHash tx resolved :
  mapM (resolveInput client rpcUrl)
       (completionOrder (resolved_at client rpcUrl txHash) (inputs tx)) = Ok resolved ->
  snd (resolveInputs client rpcUrl cch txHash tx) = selectedWitness cch tx resolved.
Proof.
  intros H. unfold resolveInputs.
  pose proof (runCallbacks_state client rpcUrl cch tx _ _ H None) as Hs.
  destruct (runCallbacks _ _ _ _ _ _) as [log pw]. cbn [snd] in *.
  rewrite Hs. apply witness_first_match.
Qed.

(** ** TxMessageBuilder: fee and balance changes *)

Lemma fold_capacity cells : forall a,
  fold_left (fun acc c => acc + cell_capacity c)%Z cells a
  = (a + sumZ (map cell_capacity cells))%Z.
Proof.
  induction cells as [|c cells IH]; intros a; simpl; [lia|]. rewrite IH. lia.
Qed.

Lemma udtOrZero_udtOf c : udtOrZero c = udtOf c.
Proof.
  unfold udtOrZero, udtOf. destruct (udt_capacity c) as [v|]; [|reflexivity].
  destruct (Z.eqb_spec v 0); congruence.
Qed.

Lemma fold_udt_add cells : forall a,
  fold_left (whenUdt Z.add) cells a = (a + sumZ (map udtOf cells))%Z.
Proof.
  induction cells as [|c cells IH]; intros a; simpl; [lia|]. rewrite IH.
  unfold whenUdt, udtOf. destruct (udt_capacity c) as [v|]; [|lia].
  destruct (Z.eqb_spec v 0); lia.
Qed.

Lemma fold_udt_sub cells : forall a,
  fold_left (whenUdt Z.sub) cells a = (a - sumZ (map udtOf cells))%Z.
Proof.
  induction cells as [|c cells IH]; intros a; simpl; [lia|]. rewrite IH.
  unfold whenUdt, udtOf. destruct (udt_capacity c) as [v|]; [|lia].
  destruct (Z.eqb_spec v 0); lia.
Qed.

Section BalanceMap.

Local Abbreviation ckbSum := (fun m : BalanceMap => sumZ (map (fun e => bal_ckb (snd e)) m)).
Local Abbreviation udtSum := (fun m : BalanceMap => sumZ (map (fun e => bal_udt (snd e)) m)).

Lemma hasKey_In (m : BalanceMap) k : hasKey m k = true <-> In k (map fst m).
Proof.
  unfold hasKey. rewrite existsb_exists, in_map_iff.
  split; intros [e [H1 H2]].
  - exists e. split; [now apply eqb_eq | exact H1].
  - exists e. split; [exact H2 | now apply eqb_eq].
Qed.

Lemma addTo_keys k c u (m : BalanceMap) : map fst (map (addTo k c u) m) = map fst m.
Proof.
  rewrite map_map. apply map_ext. intros e. unfold addTo.
  destruct (eqb (fst e) k); reflexivity.
Qed.

Lemma addTo_absent k c u (m : BalanceMap) :
  ~ In k (map fst m) -> map (addTo k c u) m = m.
Proof.
  induction m as [|e m IH]; simpl; intros H; [reflexivity|].
  rewrite IH by tauto. f_equal. unfold addTo.
  destruct (eqb (fst e) k) eqn:E; [|reflexivity].
  apply eqb_eq in E. tauto.
Qed.

Lemma addTo_present k c u (m : BalanceMap) :
  NoDup (map fst m) -> In k (map fst m) ->
  ckbSum (map (addTo k c u) m) = (ckbSum m + c)%Z
  /\ udtSum (map (addTo k c u) m) = (udtSum m + u)%Z.
Proof.
  induction m as [|e m IH]; simpl; intros Hnd Hin; [contradiction|].
  inversion Hnd as [|? ? Hnotin Hnd']; subst.
  unfold addTo at 1 3. destruct (eqb (fst e) k) eqn:E.
  - apply eqb_eq in E. subst k. rewrite addTo_absent by exact Hnotin.
    simpl. split; lia.
  - destruct Hin as [Heq | Hin].
    + subst k. now rewrite eqb_refl in E.
    + destruct (IH Hnd' Hin) as [H1 H2]. rewrite H1, H2. split; lia.
Qed.

Lemma updateBal_ok (m m' : BalanceMap) k c u :
  NoDup (map fst m) -> updateBal m k c u = Ok m' ->
  NoDup (map fst m')
  /\ ckbSum m' = (ckbSum m + c)%Z /\ udtSum m' = (udtSum m + u)%Z.
Proof.
  unfold updateBal. intros Hnd. destruct (inherited k); [discriminate|].
  intros H. inversion H as [H']. clear H H'.
  destruct (hasKey m k) eqn:E.
  - apply hasKey_In in E. rewrite addTo_keys.
    split; [exact Hnd | now apply addTo_present].
  - assert (Hk : ~ In k (map fst m)).
    { intros Hin. apply hasKey_In in Hin. congruence. }
    assert (Hnd' : NoDup (map fst (m ++ [(k, {| bal_ckb := 0; bal_udt := 0 |})]))).
    { rewrite map_app. simpl. apply NoDup_app; [exact Hnd | repeat constructor; auto |].
      intros x Hx [<- | []]. contradiction. }
    rewrite addTo_keys. split; [exact Hnd'|].
    destruct (addTo_present k c u _ Hnd') as [H1 H2].
    { rewrite map_app. simpl. apply in_or_app. right. now left. }
    rewrite H1, H2, !map_app. unfold sumZ. rewrite !fold_right_app. simpl.
    split; lia.
Qed.

Lemma updateBal_total (m : BalanceMap) k c u :
  inherited k = false -> exists m', updateBal m k c u = Ok m'.
Proof. unfold updateBal. intros ->. eauto. Qed.

Lemma forEach_updateBal (dc du : CellInfo -> Z) cells : forall (m m' : BalanceMap),
  NoDup (map fst m) ->
  forEachM (fun m c => updateBal m (cell_args c) (dc c) (du c)) cells m = Ok m' ->
  NoDup (map fst m')
  /\ ckbSum m' = (ckbSum m + sumZ (map dc cells))%Z
  /\ udtSum m' = (udtSum m + sumZ (map du cells))%Z.
Proof.
  induction cells as [|c cells IH]; simpl; intros m m' Hnd H.
  - inversion H; subst. repeat split; [exact Hnd | lia | lia].
  - destruct (updateBal m (cell_args c) (dc c) (du c)) as [m1|] eqn:E; [|discriminate].
    simpl in H. destruct (updateBal_ok _ _ _ _ _ Hnd E) as (N1 & C1 & U1).
    destruct (IH m1 m' N1 H) as (N2 & C2 & U2).
    unfold sumZ in *. simpl in *.
    repeat split; [exact N2 | lia | lia].
Qed.

Lemma forEach_updateBal_total (dc du : CellInfo -> Z) cells :
  (forall c, In c cells -> inherited (cell_args c) = false) ->
  forall m : BalanceMap,
    exists m', forEachM (fun m c => updateBal m (cell_args c) (dc c) (du c)) cells m = Ok m'.
Proof.
  induction cells as [|c cells IH]; simpl; intros H m; [eauto|].
  destruct (updateBal_total m (cell_args c) (dc c) (du c)) as [m1 ->]; [now apply H; left|].
  simpl. apply IH. intros; apply H; now right.
Qed.

(** Dropping the entries with both deltas zero changes neither sum. *)
Lemma filter_nonZero_sums (m : BalanceMap) :
  ckbSum (filter nonZero m) = ckbSum m /\ udtSum (filter nonZero m) = udtSum m.
Proof.
  induction m as [|e m [IH1 IH2]]; simpl; [split; reflexivity|].
  destruct (nonZero e) eqn:E; simpl.
  - rewrite IH1, IH2. split; reflexivity.
  - unfold nonZero in E. apply orb_false_elim in E as [Hc Hu].
    apply negb_false_iff, Z.eqb_eq in Hc. apply negb_false_iff, Z.eqb_eq in Hu.
    rewrite IH1, IH2, Hc, Hu. split; reflexivity.
Qed.

Lemma rendered_sums (m : BalanceMap) :
  sumZ (map (fun e => readDecimal (ckb (snd e))) (map renderBalance m)) = ckbSum m
  /\ sumZ (map (fun e => readDecimal (udt (snd e))) (map renderBalance m)) = udtSum m.
Proof.
  rewrite !map_map. simpl.
  split; f_equal; apply map_ext; intros e; apply readDecimal_toString.
Qed.

End BalanceMap.

Lemma sumZ_opp {A} (f : A -> Z) l : sumZ (map (fun x => - f x)%Z l) = (- sumZ (map f l))%Z.
Proof. induction l as [|x l IH]; simpl; [reflexivity|]. rewrite IH. lia. Qed.

(** What a successful [buildMessage] returns. *)
Lemma buildMessage_inv client rpcUrl txData ins pw msg :
  buildMessage client rpcUrl txData ins pw = Ok msg ->
  let feeValue :=
    (sumZ (map cell_capacity ins) - sumZ (map cell_capacity (output_cells msg)))%Z in
  let udtFeeValue := (sumZ (map udtOf ins) - sumZ (map udtOf (output_cells msg)))%Z in
  input_cells msg = ins
  /\ parsed_witness msg = pw
  /\ mapM (outputCell (transaction txData)) (indexed (outputs (transaction txData)))
     = Ok (output_cells msg)
  /\ fee msg = toString feeValue
  /\ udt_fee msg = toString udtFeeValue
  /\ exists balanceMap : BalanceMap,
       balance_changes msg = map renderBalance (filter nonZero balanceMap)
       /\ sumZ (map (fun e => bal_ckb (snd e)) balanceMap) = (- feeValue)%Z
       /\ sumZ (map (fun e => bal_udt (snd e)) balanceMap) = (- udtFeeValue)%Z.
Proof.
  unfold buildMessage.
  destruct (mapM _ (indexed _)) as [outs|] eqn:Eo; [|discriminate]. cbn [bind].
  match goal with
  | |- context [forEachM ?f ins ?m] => destruct (forEachM f ins m) as [m1|] eqn:E1
  end; [|discriminate]. cbn [bind].
  match goal with
  | |- context [forEachM ?f outs ?m] => destruct (forEachM f outs m) as [m2|] eqn:E2
  end; [|discriminate]. cbn [bind].
  destruct (blockMeta client rpcUrl txData) as [bn bt].
  intros H. inversion H; subst msg; clear H. cbn.
  rewrite !fold_capacity, fold_udt_sub, fold_udt_add.
  repeat split; try reflexivity.
  exists m2. split; [reflexivity|].
  destruct (forEach_updateBal _ _ ins [] m1 (NoDup_nil _) E1) as (N1 & C1 & U1).
  destruct (forEach_updateBal _ _ outs m1 m2 N1 E2) as (N2 & C2 & U2).
  rewrite C2, C1, U2, U1. simpl.
  rewrite !sumZ_opp.
  rewrite (map_ext udtOrZero udtOf udtOrZero_udtOf).
  rewrite (map_ext udtOrZero udtOf udtOrZero_udtOf).
  unfold sumZ. split; lia.
Qed.

(** [buildMessage] returns whenever the outputs decode and no lock args is a
    key inherited from [Object.prototype]. *)
Lemma buildMessage_total client rpcUrl txData ins pw outs :
  mapM (outputCell (transaction txData)) (indexed (outputs (transaction txData))) = Ok outs ->
  (forall c, In c (ins ++ outs) -> inherited (cell_args c) = false) ->
  exists msg, buildMessage client rpcUrl txData ins pw = Ok msg.
Proof.
  intros Ho Hk. unfold buildMessage. rewrite Ho. cbn [bind].
  destruct (forEach_updateBal_total (fun c => - cell_capacity c)%Z (fun c => - udtOrZero c)%Z ins)
    with (m := @nil (jsstring * Balance)) as [m1 E1].
  { intros c Hc. apply Hk, in_or_app. now left. }
  rewrite E1. cbn [bind].
  destruct (forEach_updateBal_total cell_capacity udtOrZero outs) with (m := m1) as [m2 E2].
  { intros c Hc. apply Hk, in_or_app. now right. }
  rewrite E2. cbn [bind].
  destruct (blockMeta client rpcUrl txData) as [bn bt]. eauto.
Qed.

(** What a successful [getTxMessage] went through. *)
Lemma getTxMessage_inv client rpcUrl cch txHash msg :
  getTxMessage client rpcUrl cch txHash = Ok msg ->
  exists txData resolved,
    getTransaction client rpcUrl txHash = Ok (Some txData)
    /\ mapM (cellOfInput client rpcUrl) (inputs (transaction txData)) = Ok (input_cells msg)
    /\ mapM (resolveInput client rpcUrl)
            (completionOrder (resolved_at client rpcUrl txHash) (inputs (transaction txData)))
       = Ok resolved
    /\ buildMessage client rpcUrl txData (input_cells msg)
         (selectedWitness cch (transaction txData) resolved) = Ok msg.
Proof.
  unfold getTxMessage.
  destruct (getTransaction client rpcUrl txHash) as [[txData|]|] eqn:Et;
    cbn [bind]; try discriminate.
  pose proof (resolveInputs_cells client rpcUrl cch txHash (transaction txData)) as Hc.
  pose proof (resolveInputs_witness client rpcUrl cch txHash (transaction txData)) as Hw.
  destruct (resolveInputs _ _ _ _ _) as [[cells|] pw]; cbn [bind fst snd] in *;
    [|discriminate].
  intros Hb.
  pose proof (proj1 (Hc cells) eq_refl) as Hcells.
  destruct (resolveInputs_resolved client rpcUrl txHash _ _ Hcells) as [resolved Hr].
  rewrite (Hw resolved Hr) in Hb.
  destruct (buildMessage_inv _ _ _ _ _ _ Hb) as (Hin & _).
  exists txData, resolved. rewrite Hin. auto.
Qed.






(** [getTxMessage] returns whenever the transaction is found, every input
    resolves, every output decodes and no lock args is a key inherited from
    [Object.prototype]; the witnesses play no part in that. *)
Lemma getTxMessage_returns client rpcUrl commitmentCodeHash txHash txData ins outs :
  getTransaction client rpcUrl txHash = Ok (Some txData) ->
  mapM (cellOfInput client rpcUrl) (inputs (transaction txData)) = Ok ins ->
  mapM (outputCell (transaction txData)) (indexed (outputs (transaction txData))) = Ok outs ->
  (forall c, In c (ins ++ outs) -> inherited (cell_args c) = false) ->
  exists msg, getTxMessage client rpcUrl commitmentCodeHash txHash = Ok msg.
Proof.
  intros Ht Hi Ho Hk. unfold getTxMessage. rewrite Ht. cbn [bind].
  pose proof (proj2 (resolveInputs_cells client rpcUrl commitmentCodeHash txHash
                       (transaction txData) ins) Hi) as Hc.
  destruct (resolveInputs _ _ _ _ _) as [r pw]. cbn [fst] in Hc. subst r. cbn [bind].
  eapply buildMessage_total; eauto.
Qed.

(** C5. When the decode of the commitment input's witness raises [e], the
    build does not: it returns a message whose parsed witness carries the
    message of [e], with fee, UDT fee and balance changes computed from the
    cells as in any other build. *)
Theorem getTxMessage_decode_error_recorded
  client rpcUrl commitmentCodeHash txHash txData ins outs resolved p e :
  getTransaction client rpcUrl txHash = Ok (Some txData) ->
  mapM (cellOfInput client rpcUrl) (inputs (transaction txData)) = Ok ins ->
  mapM (outputCell (transaction txData)) (indexed (outputs (transaction txData))) = Ok outs ->
  (forall c, In c (ins ++ outs) -> inherited (cell_args c) = false) ->
  mapM (resolveInput client rpcUrl)
       (completionOrder (resolved_at client rpcUrl txHash) (inputs (transaction txData)))
  = Ok resolved ->
  find (commitmentInput commitmentCodeHash) resolved = Some p ->
  decodeAttempt (transaction txData) p = Throw e ->
  exists msg,
    getTxMessage client rpcUrl commitmentCodeHash txHash = Ok msg
    /\ parsed_witness msg = Some (errorWitness e)
    /\ error (errorWitness e) = Some (message e)
    /\ input_cells msg = ins /\ output_cells msg = outs
    /\ fee msg = toString (sumZ (map cell_capacity ins) - sumZ (map cell_capacity outs))
    /\ udt_fee msg = toString (sumZ (map udtOf ins) - sumZ (map udtOf outs))
    /\ sumZ (map (fun c => readDecimal (ckb (snd c))) (balance_changes msg))
       = (- readDecimal (fee msg))%Z
    /\ sumZ (map (fun c => readDecimal (udt (snd c))) (balance_changes msg))
       = (- readDecimal (udt_fee msg))%Z.
Proof.
  intros Ht Hi Ho Hk Hr Hf He.
  destruct (getTxMessage_returns _ _ commitmentCodeHash _ _ _ _ Ht Hi Ho Hk) as [msg Hm].
  exists msg. split; [exact Hm|].
  destruct (getTxMessage_inv _ _ _ _ _ Hm) as (txData' & resolved' & Ht' & Hi' & Hr' & Hb).
  rewrite Ht in Ht'. injection Ht' as <-.
  rewrite Hr in Hr'. injection Hr' as <-.
  rewrite Hi in Hi'. injection Hi' as Hins.
  destruct (buildMessage_inv _ _ _ _ _ _ Hb) as (_ & Hw & Hout & Hfee & Hudt & bm & Hbc & Hc & Hu).
  rewrite Ho in Hout. injection Hout as Houts.
  rewrite <- Hins, <- Houts in *.
  split. { rewrite Hw. unfold selectedWitness. rewrite Hf, He. reflexivity. }
  split; [reflexivity|]. split; [reflexivity|]. split; [reflexivity|].
  split; [exact Hfee|]. split; [exact Hudt|].
  rewrite Hbc, Hfee, Hudt, !readDecimal_toString.
  destruct (rendered_sums (filter nonZero bm)) as [R1 R2].
  destruct (filter_nonZero_sums bm) as [F1 F2].
  rewrite R1, R2, F1, F2. split; assumption.
Qed.

Lemma getTxMessage_decode_error_recorded_witness :
  exists msg,
    getTxMessage Sample.client Sample.rpc Sample.commitment (str "0xf3") = Ok msg
    /\ parsed_witness msg = Some (errorWitness (cannotConvert (str "0x")))
    /\ fee msg = str "10"
    /\ udt_fee msg = str "0".
Proof.
  destruct (getTxMessage_decode_error_recorded
              Sample.client Sample.rpc Sample.commitment (str "0xf3")
              (Sample.committed Sample.truncated)
              [{| cell_args := args Sample.channelLockV1; cell_capacity := 100;
                  cell_lock := Some Sample.channelLockV1;
                  udt_args := None; udt_capacity := None |}]
              [{| cell_args := str "0xb1"; cell_capacity := 90; cell_lock := None;
                  udt_args := None; udt_capacity := None |}]
              [(0%nat, Sample.plain "0x64" Sample.channelLockV1)]
              (0%nat, Sample.plain "0x64" Sample.channelLockV1)
              (cannotConvert (str "0x")))
    as (msg & Hm & Hw & _ & _ & _ & Hfee & Hudt & _); try reflexivity.
  - intros c [<- | [<- | []]]; reflexivity.
  - exists msg. repeat split; assumption.
Defined.

(** C6. A build that returns has resolved every input and decoded every
    output; its fee is the sum of the input capacities minus the sum of the
    output capacities, its UDT fee the same difference of UDT capacities
    with an absent one counting as zero. No sign is checked: the build
    returns whenever the cells resolve. *)
Theorem getTxMessage_fee client rpcUrl commitmentCodeHash txHash :
  (forall msg,
     getTxMessage client rpcUrl commitmentCodeHash txHash = Ok msg ->
     exists txData,
       getTransaction client rpcUrl txHash = Ok (Some txData)
       /\ mapM (cellOfInput client rpcUrl) (inputs (transaction txData)) = Ok (input_cells msg)
       /\ mapM (outputCell (transaction txData)) (indexed (outputs (transaction txData)))
          = Ok (output_cells msg)
       /\ fee msg = toString (sumZ (map cell_capacity (input_cells msg))
                              - sumZ (map cell_capacity (output_cells msg)))
       /\ udt_fee msg = toString (sumZ (map udtOf (input_cells msg))
                                  - sumZ (map udtOf (output_cells msg))))
  /\ (forall txData ins outs,
        getTransaction client rpcUrl txHash = Ok (Some txData) ->
        mapM (cellOfInput client rpcUrl) (inputs (transaction txData)) = Ok ins ->
        mapM (outputCell (transaction txData)) (indexed (outputs (transaction txData)))
        = Ok outs ->
        (forall c, In c (ins ++ outs) -> inherited (cell_args c) = false) ->
        exists msg, getTxMessage client rpcUrl commitmentCodeHash txHash = Ok msg).
Proof.
  split.
  - intros msg H.
    destruct (getTxMessage_inv _ _ _ _ _ H) as (txData & resolved & Ht & Hi & _ & Hb).
    destruct (buildMessage_inv _ _ _ _ _ _ Hb) as (_ & _ & Ho & Hfee & Hudt & _).
    exists txData. auto.
  - intros txData ins outs. apply getTxMessage_returns.
Qed.

Lemma getTxMessage_fee_witness :
  exists msg,
    getTxMessage Sample.client Sample.rpc Sample.commitment (str "0xf1") = Ok msg
    /\ map cell_capacity (input_cells msg) = [1000%Z]
    /\ map cell_capacity (output_cells msg) = [990%Z]
    /\ fee msg = str "10".
Proof.
  eexists. split; [vm_compute; reflexivity|].
  match goal with
  | |- map cell_capacity (input_cells ?m) = _ /\ _ =>
      destruct (proj1 (getTxMessage_fee Sample.client Sample.rpc Sample.commitment
                         (str "0xf1")) m)
        as (txData & _ & _ & _ & Hfee & _); [vm_compute; reflexivity|]
  end.
  split; [reflexivity|]. split; [reflexivity|]. exact Hfee.
Defined.

(** A negative fee is returned like any other. *)
Example getTxMessage_negative_fee :
  exists msg,
    getTxMessage Sample.client Sample.rpc Sample.commitment (str "0xf2") = Ok msg
    /\ fee msg = str "-10".
Proof. eexists. split; [vm_compute; reflexivity|]. reflexivity. Qed.

(** C10. In a build that returns, the ckb deltas of [balance_changes] sum to
    minus the fee and the udt deltas to minus the UDT fee; the map before
    the all-zero entries were dropped has the same two sums. *)
Theorem getTxMessage_balance_conservation client rpcUrl commitmentCodeHash txHash msg :
  getTxMessage client rpcUrl commitmentCodeHash txHash = Ok msg ->
  sumZ (map (fun c => readDecimal (ckb (snd c))) (balance_changes msg))
  = (- readDecimal (fee msg))%Z
  /\ sumZ (map (fun c => readDecimal (udt (snd c))) (balance_changes msg))
     = (- readDecimal (udt_fee msg))%Z
  /\ exists balanceMap : BalanceMap,
       balance_changes msg = map renderBalance (filter nonZero balanceMap)
       /\ sumZ (map (fun e => bal_ckb (snd e)) balanceMap) = (- readDecimal (fee msg))%Z
       /\ sumZ (map (fun e => bal_udt (snd e)) balanceMap) = (- readDecimal (udt_fee msg))%Z.
Proof.
  intros H.
  destruct (getTxMessage_inv _ _ _ _ _ H) as (txData & resolved & _ & _ & _ & Hb).
  destruct (buildMessage_inv _ _ _ _ _ _ Hb) as (_ & _ & _ & Hfee & Hudt & bm & Hbc & Hc & Hu).
  rewrite Hfee, Hudt, !readDecimal_toString.
  destruct (rendered_sums (filter nonZero bm)) as [R1 R2].
  destruct (filter_nonZero_sums bm) as [F1 F2].
  rewrite Hbc, R1, R2, F1, F2.
  split; [exact Hc|]. split; [exact Hu|].
  exists bm. auto.
Qed.

Lemma getTxMessage_balance_conservation_witness :
  exists msg,
    getTxMessage Sample.client Sample.rpc Sample.commitment (str "0xf1") = Ok msg
    /\ sumZ (map (fun c => readDecimal (ckb (snd c))) (balance_changes msg))
       = (- readDecimal (fee msg))%Z
    /\ fee msg = str "10".
Proof.
  eexists. split; [vm_compute; reflexivity|].
  match goal with
  | |- sumZ (map _ (balance_changes ?m)) = _ /\ _ =>
      destruct (getTxMessage_balance_conservation
                  Sample.client Sample.rpc Sample.commitment (str "0xf1") m)
        as (Hc & _); [vm_compute; reflexivity|]
  end.
  split; [exact Hc | reflexivity].
Defined.

(** ** ChannelDeathTracer *)

Lemma getLnCellDeathHash_query client rpcUrl txHash txData output0 rest txs :
  getTransaction client rpcUrl txHash = Ok (Some txData) ->
  outputs (transaction txData) = output0 :: rest ->
  getTransactions client rpcUrl (lock output0) = Ok txs ->
  getLnCellDeathHash client rpcUrl txHash =
  match queryObjects txs with
  | [_; second] => Ok {| txHash := Some (object_tx_hash second);
                         codeHash := Some (code_hash (lock output0)) |}
  | _ => Ok noDeath
  end.
Proof.
  intros Ht Ho Hq. unfold getLnCellDeathHash.
  rewrite Ht. cbn [bind]. rewrite Ho. cbn [nth_error]. rewrite Hq. cbn [bind].
  destruct txs as [[[objs|]]|]; cbn [queryObjects]; try reflexivity.
  destruct objs as [|o1 [|o2 [|o3 objs]]]; reflexivity.
Qed.

(** C7. Once the transaction is fetched and the indexer has answered for the
    lock of its first output, [getLnCellDeathHash] returns a next
    transaction, the second object of the answer, together with that lock's
    code hash, if and only if the answer holds exactly 2 objects. With any
    other count it returns no next transaction, and the walk stops there
    without error: the loop leaves the trace as it is and [getLnTxTrace]
    returns the opening transaction alone. *)
Theorem getLnCellDeathHash_exactly_two client rpcUrl txHash txData output0 rest txs :
  getTransaction client rpcUrl txHash = Ok (Some txData) ->
  outputs (transaction txData) = output0 :: rest ->
  getTransactions client rpcUrl (lock output0) = Ok txs ->
  let objs := queryObjects txs in
  (length objs = 2%nat ->
   exists second,
     nth_error objs 1 = Some second
     /\ getLnCellDeathHash client rpcUrl txHash
        = Ok {| txHash := Some (object_tx_hash second);
                codeHash := Some (code_hash (lock output0)) |})
  /\ (length objs <> 2%nat ->
      getLnCellDeathHash client rpcUrl txHash = Ok noDeath
      /\ (forall commitmentCodeHash fuel txTrace,
            traceLoop (S fuel) client rpcUrl commitmentCodeHash txHash txTrace
            = Some (Ok txTrace))
      /\ (forall commitmentCodeHash fuel msg0,
            getTxMessage client rpcUrl commitmentCodeHash txHash = Ok msg0 ->
            getLnTxTrace fuel client rpcUrl commitmentCodeHash txHash
            = Some (Ok [{| trace_tx_hash := txHash; msg := msg0 |}])))
  /\ ((exists next c, getLnCellDeathHash client rpcUrl txHash
                      = Ok {| txHash := Some next; codeHash := c |})
      <-> length objs = 2%nat).
Proof.
  intros Ht Ho Hq objs.
  pose proof (getLnCellDeathHash_query _ _ _ _ _ _ _ Ht Ho Hq) as Hd.
  fold objs in Hd.
  assert (Hno : length objs <> 2%nat -> getLnCellDeathHash client rpcUrl txHash = Ok noDeath).
  { intros Hn. rewrite Hd.
    destruct objs as [|o1 [|o2 [|o3 l]]]; try reflexivity. now elim Hn. }
  split; [|split].
  - intros Hlen. destruct objs as [|o1 [|o2 [|o3 l]]]; try discriminate.
    exists o2. split; [reflexivity | exact Hd].
  - intros Hn. specialize (Hno Hn). split; [exact Hno|]. split.
    + intros cch fuel txTrace. cbn [traceLoop]. rewrite Hno.
      destruct (truthy txHash); reflexivity.
    + intros cch fuel msg0 Hm. unfold getLnTxTrace. rewrite Hm, Hno. reflexivity.
  - split.
    + intros (next & c & Hnext).
      destruct (Nat.eq_dec (length objs) 2) as [|Hn]; [assumption|].
      rewrite (Hno Hn) in Hnext. discriminate.
    + intros Hlen. destruct objs as [|o1 [|o2 [|o3 l]]]; try discriminate.
      eauto.
Qed.

Lemma getLnCellDeathHash_exactly_two_witness :
  getLnCellDeathHash Sample.channelClient Sample.rpc (str "0xa0")
  = Ok {| txHash := Some (str "0xa1");
          codeHash := Some (code_hash (Sample.secp "0xc0")) |}
  /\ getLnCellDeathHash Sample.channelClient Sample.rpc (str "0xa2") = Ok noDeath.
Proof.
  split.
  - destruct (getLnCellDeathHash_exactly_two
                Sample.channelClient Sample.rpc (str "0xa0")
                (Sample.committed Sample.opening)
                (Sample.plain "0x64" (Sample.secp "0xc0")) []
                (Sample.channelIndexer (Sample.secp "0xc0"))
                eq_refl eq_refl eq_refl) as (H2 & _ & _).
    destruct (H2 eq_refl) as (second & Hs & Hd).
    vm_compute in Hs. injection Hs as <-. exact Hd.
  - destruct (getLnCellDeathHash_exactly_two
                Sample.channelClient Sample.rpc (str "0xa2")
                (Sample.committed Sample.commitment2)
                (Sample.plain "0x62" (Sample.secp "0xc2")) []
                (Sample.channelIndexer (Sample.secp "0xc2"))
                eq_refl eq_refl eq_refl) as (_ & Hn & _).
    apply Hn. vm_compute. discriminate.
Defined.

(** The walk over the three-hop channel: each lookup finds two spends until
    the last finds one, and the trace has the three transactions. *)
Example getLnTxTrace_three_hops :
  option_map (fun r => match r with
                       | Ok items => map trace_tx_hash items
                       | Throw _ => []
                       end)
    (getLnTxTrace 2 Sample.channelClient Sample.rpc Sample.commitment (str "0xa0"))
  = Some [str "0xa0"; str "0xa1"; str "0xa2"].
Proof. vm_compute. reflexivity. Qed.

(** [fetchAndParseTx] reports version 1 exactly when the lock args hold the
    version field and it reads 1 little-endian. *)
Lemma fetchAndParseTx_version client rpcUrl txHash r :
  fetchAndParseTx client rpcUrl txHash = Ok r ->
  let argsData := strip0x (lockArgs r) in
  (fetched_version r = str "1" \/ fetched_version r = str "2")
  /\ (fetched_version r = str "1" <->
      (72 <= length argsData)%nat
      /\ littleEndianHexToBigInt (substring argsData 56 72) = Ok 1%Z).
Proof.
  unfold fetchAndParseTx, MIN_LOCK_ARGS_HEX_LEN.
  destruct (getTransaction client rpcUrl txHash) as [[tx|]|]; cbn [bind]; try discriminate.
  destruct (nth_error (inputs (transaction tx)) 0) as [input0|]; [|discriminate].
  destruct (getTransaction client rpcUrl _) as [[prevTx|]|]; cbn [bind]; try discriminate.
  destruct (nth_error (outputs (transaction prevTx)) 0) as [output0|]; [|discriminate].
  fold (strip0x (args (lock output0))).
  destruct (Nat.leb_spec 72 (length (strip0x (args (lock output0))))) as [Hlen|Hlen].
  - destruct (littleEndianHexToBigInt _) as [v|] eqn:Ev; cbn [bind]; [|discriminate].
    destruct (Z.eqb_spec v 1) as [->|Hv]; intros H; inversion H; subst r; cbn [fetched_version lockArgs].
    + split; [left; reflexivity|]. split; [auto|reflexivity].
    + split; [right; reflexivity|]. rewrite Ev. split; [discriminate|].
      intros [_ H1]. congruence.
  - cbn [bind]. intros H; inversion H; subst r; cbn [fetched_version lockArgs].
    split; [right; reflexivity|]. split; [discriminate|]. intros [H1 _]. lia.
Qed.

(** ** BalanceAggregator *)

Lemma scriptEquals_spec a b :
  scriptEquals a b = true <->
  toLowerCase (code_hash a) = toLowerCase (code_hash b)
  /\ hash_type a = hash_type b
  /\ toLowerCase (args a) = toLowerCase (args b).
Proof.
  unfold scriptEquals. rewrite !andb_true_iff, !eqb_eq. tauto.
Qed.

Lemma hexBytes_length s :
  Nat.even (length s) = true -> (2 * length (hexBytes s))%nat = length s.
Proof.
  induction s as [| a | a b r IH] using pair_ind; intros H.
  - reflexivity.
  - discriminate.
  - cbn [hexBytes length]. specialize (IH H). lia.
Qed.

(** The amount of a UDT cell: zero under 16 bytes of data, otherwise the
    first 16 bytes read little-endian. *)
Lemma udtAmount_spec cell :
  let dataHex := strip0x (live_data cell) in
  ((length dataHex < 32)%nat -> udtAmount cell = Ok 0%Z)
  /\ ((32 <= length dataHex)%nat -> isHex (firstn 32 dataHex) = true ->
      udtAmount cell = Ok (leValue (hexBytes (firstn 32 dataHex)))
      /\ length (hexBytes (firstn 32 dataHex)) = 16%nat).
Proof.
  cbv zeta. unfold udtAmount. fold (strip0x (live_data cell)).
  set (dataHex := strip0x (live_data cell)). split.
  - intros H. destruct (Nat.leb_spec 32 (length dataHex)); [lia | reflexivity].
  - intros H Hhex.
    destruct (Nat.leb_spec 32 (length dataHex)); [|lia].
    assert (Hs : substring dataHex 0 32 = firstn 32 dataHex) by reflexivity.
    assert (Hl : length (firstn 32 dataHex) = 32%nat) by (rewrite length_firstn; lia).
    rewrite Hs. unfold toIntFromBigUint128Le.
    change (startsWith (str "0x" ++ firstn 32 dataHex) (str "0x")) with true.
    change (slice (str "0x" ++ firstn 32 dataHex) 2) with (firstn 32 dataHex).
    cbv iota. rewrite BigInt_0x_hex.
    + rewrite hexValue_rev_chunks. split; [reflexivity|].
      pose proof (hexBytes_length (firstn 32 dataHex)) as Hb.
      rewrite Hl in Hb. specialize (Hb eq_refl). lia.
    + apply rev_chunks_nonempty, nonempty_of_length. lia.
    + now rewrite isHex_rev_chunks.
Qed.

Lemma mapGet_bump m key amount k :
  mapGet (mapBump m key amount) k =
  if eqb key k
  then option_map (fun v => {| name := name v; typeScript := typeScript v;
                               balance := balance v + amount;
                               cellCount := S (cellCount v) |}) (mapGet m k)
  else mapGet m k.
Proof.
  induction m as [|[k' v] m IH]; simpl.
  - destruct (eqb key k); reflexivity.
  - destruct (eqb k' key) eqn:E1; simpl.
    + apply eqb_eq in E1. subst k'. destruct (eqb key k); reflexivity.
    + rewrite IH. destruct (eqb k' k) eqn:E2; [|reflexivity].
      apply eqb_eq in E2. subst k'.
      destruct (eqb key k) eqn:E3; [|reflexivity].
      apply eqb_eq in E3. subst key. now rewrite eqb_refl in E1.
Qed.

Lemma mapGet_append m key v k :
  mapGet m key = None ->
  mapGet (m ++ [(key, v)]) k = if eqb key k then Some v else mapGet m k.
Proof.
  induction m as [|[k' v'] m IH]; simpl; intros H.
  - reflexivity.
  - destruct (eqb k' key) eqn:E1; [discriminate|].
    rewrite (IH H). destruct (eqb k' k) eqn:E2; [|reflexivity].
    apply eqb_eq in E2. subst k'.
    destruct (eqb key k) eqn:E3; [|reflexivity].
    apply eqb_eq in E3. subst key. now rewrite eqb_refl in E1.
Qed.

(** The effect of one cell on the running totals. A cell without type
    script, and a cell whose type script equals no registered UDT script
    ([scriptEquals]: code hash and args compared in lower case, hash type as
    it is), adds its capacity to [ckbBalance] and one to [ckbCellCount]. A
    cell whose type script equals a registered one adds its amount, and one
    cell, to the entry of that UDT (the first registered script it equals,
    under its key) and leaves every other total alone; the amount is the
    little-endian value of the first 16 bytes of the data, zero when the
    data is shorter. *)
Lemma accountCell_effect (udtCfgInfos : list UdtCfgInfo) (t : Totals) (cell : LiveCell) :
  (forall cap,
     live_type cell = None
     \/ (exists ty, live_type cell = Some ty
                    /\ forall u, In u udtCfgInfos -> scriptEquals (script u) ty = false) ->
     BigInt (live_capacity cell) = Ok cap ->
     accountCell udtCfgInfos t cell
     = Ok {| tot_ckbBalance := tot_ckbBalance t + cap;
             tot_ckbCellCount := S (tot_ckbCellCount t);
             tot_udtMap := tot_udtMap t |})
  /\ (forall ty matchedUdt amount,
        live_type cell = Some ty ->
        find (fun u => scriptEquals (script u) ty) udtCfgInfos = Some matchedUdt ->
        udtAmount cell = Ok amount ->
        let key := udtKey (script matchedUdt) in
        In matchedUdt udtCfgInfos
        /\ scriptEquals (script matchedUdt) ty = true
        /\ exists t',
             accountCell udtCfgInfos t cell = Ok t'
             /\ tot_ckbBalance t' = tot_ckbBalance t
             /\ tot_ckbCellCount t' = tot_ckbCellCount t
             /\ udtBalanceOf (tot_udtMap t') key
                = (udtBalanceOf (tot_udtMap t) key + amount)%Z
             /\ udtCellCountOf (tot_udtMap t') key
                = S (udtCellCountOf (tot_udtMap t) key)
             /\ (mapGet (tot_udtMap t) key = None ->
                 mapGet (tot_udtMap t') key
                 = Some {| name := cfg_name matchedUdt; typeScript := script matchedUdt;
                           balance := amount; cellCount := 1 |})
             /\ forall k, k <> key -> mapGet (tot_udtMap t') k = mapGet (tot_udtMap t) k)
  /\ (let dataHex := strip0x (live_data cell) in
      ((length dataHex < 32)%nat -> udtAmount cell = Ok 0%Z)
      /\ ((32 <= length dataHex)%nat -> isHex (firstn 32 dataHex) = true ->
          udtAmount cell = Ok (leValue (hexBytes (firstn 32 dataHex)))
          /\ length (hexBytes (firstn 32 dataHex)) = 16%nat))
  /\ (forall a b,
        scriptEquals a b = true <->
        toLowerCase (code_hash a) = toLowerCase (code_hash b)
        /\ hash_type a = hash_type b
        /\ toLowerCase (args a) = toLowerCase (args b)).
Proof.
  split; [|split; [|split; [apply udtAmount_spec | apply scriptEquals_spec]]].
  - intros cap Hty Hcap. unfold accountCell, countAsCkb.
    destruct Hty as [-> | (ty & -> & Hno)].
    + rewrite Hcap. reflexivity.
    + destruct (find _ udtCfgInfos) as [u|] eqn:Ef.
      * apply find_some in Ef as [Hin Heq]. rewrite (Hno u Hin) in Heq. discriminate.
      * rewrite Hcap. reflexivity.
  - intros ty u amount Hty Hfind Hamt key.
    pose proof (find_some _ _ Hfind) as [Hin Heq].
    split; [exact Hin|]. split; [exact Heq|].
    unfold accountCell. rewrite Hty, Hfind, Hamt. cbn [bind]. fold key.
    eexists. split; [reflexivity|]. cbn [tot_ckbBalance tot_ckbCellCount tot_udtMap].
    split; [reflexivity|]. split; [reflexivity|].
    unfold udtBalanceOf, udtCellCountOf.
    destruct (mapGet (tot_udtMap t) key) as [v|] eqn:Eg.
    + rewrite !mapGet_bump, eqb_refl, Eg. cbn.
      split; [reflexivity|]. split; [reflexivity|]. split; [discriminate|].
      intros k Hk. rewrite mapGet_bump.
      destruct (eqb key k) eqn:E; [|reflexivity].
      apply eqb_eq in E. congruence.
    + rewrite !(mapGet_append _ _ _ _ Eg), eqb_refl. cbn.
      split; [reflexivity|]. split; [reflexivity|]. split; [reflexivity|].
      intros k Hk. rewrite (mapGet_append _ _ _ _ Eg).
      destruct (eqb key k) eqn:E; [|reflexivity].
      apply eqb_eq in E. congruence.
Qed.

Lemma accountCell_effect_witness :
  accountCell Sample.registered
    {| tot_ckbBalance := 0; tot_ckbCellCount := 0; tot_udtMap := [] |}
    (Sample.live "0x1f4" None "0x")
  = Ok {| tot_ckbBalance := 500; tot_ckbCellCount := 1; tot_udtMap := [] |}
  /\ exists t',
       accountCell Sample.registered
         {| tot_ckbBalance := 500; tot_ckbCellCount := 1; tot_udtMap := [] |}
         (Sample.live "0x8e" (Some Sample.xudtLower) "0x2a000000000000000000000000000000")
       = Ok t'
       /\ udtBalanceOf (tot_udtMap t') (udtKey Sample.xudt) = 42%Z
       /\ udtCellCountOf (tot_udtMap t') (udtKey Sample.xudt) = 1%nat.
Proof.
  split.
  - apply (proj1 (accountCell_effect Sample.registered
                    {| tot_ckbBalance := 0; tot_ckbCellCount := 0; tot_udtMap := [] |}
                    (Sample.live "0x1f4" None "0x")) 500%Z).
    + left. reflexivity.
    + reflexivity.
  - destruct (proj1 (proj2 (accountCell_effect Sample.registered
                    {| tot_ckbBalance := 500; tot_ckbCellCount := 1; tot_udtMap := [] |}
                    (Sample.live "0x8e" (Some Sample.xudtLower)
                       "0x2a000000000000000000000000000000")))
                Sample.xudtLower {| cfg_name := str "RUSD"; script := Sample.xudt |} 42%Z
                eq_refl eq_refl eq_refl)
      as (_ & _ & t' & Ht & _ & _ & Hb & Hc & _).
    exists t'. split; [exact Ht|]. split; [exact Hb | exact Hc].
Defined.

(** One plain cell of capacity 500 and one matching UDT cell carrying 42,
    then a matching cell with no data. *)
Example computeAccountBalance_example :
  exists ab,
    computeAccountBalance Sample.account Sample.registered testnet = Ok ab
    /\ ckbBalance ab = 500%Z /\ ckbCellCount ab = 1%nat
    /\ map balance (udtBalances ab) = [42%Z]
    /\ map cellCount (udtBalances ab) = [2%nat].
Proof. eexists. split; [vm_compute; reflexivity|]. repeat split. Qed.

(** One cell's contribution to the totals, by the kind of the cell. *)
Lemma accountCell_step udtCfgInfos t cell t' :
  accountCell udtCfgInfos t cell = Ok t' ->
  tot_ckbBalance t'
  = (tot_ckbBalance t + if countsAsCkb udtCfgInfos cell then capacityOf cell else 0)%Z
  /\ tot_ckbCellCount t'
     = (tot_ckbCellCount t + if countsAsCkb udtCfgInfos cell then 1 else 0)%nat
  /\ forall key,
       udtBalanceOf (tot_udtMap t') key
       = (udtBalanceOf (tot_udtMap t) key
          + if countsUnder udtCfgInfos key cell then amountOf cell else 0)%Z
       /\ udtCellCountOf (tot_udtMap t') key
          = (udtCellCountOf (tot_udtMap t) key
             + if countsUnder udtCfgInfos key cell then 1 else 0)%nat.
Proof.
  unfold accountCell, countsAsCkb, countsUnder, matchedUdtOf, capacityOf, amountOf, countAsCkb.
  assert (Hplain : forall cap, BigInt (live_capacity cell) = Ok cap ->
            forall key, udtBalanceOf (tot_udtMap t) key = (udtBalanceOf (tot_udtMap t) key + 0)%Z
                        /\ udtCellCountOf (tot_udtMap t) key
                           = (udtCellCountOf (tot_udtMap t) key + 0)%nat)
    by (intros; split; lia).
  destruct (live_type cell) as [ty|].
  - destruct (find _ udtCfgInfos) as [u|].
    + destruct (udtAmount cell) as [amount|]; cbn [bind]; [|discriminate].
      intros H. inversion H; subst t'; clear H.
      cbn [tot_ckbBalance tot_ckbCellCount tot_udtMap isNull].
      split; [lia|]. split; [lia|]. intros key.
      unfold udtBalanceOf, udtCellCountOf.
      destruct (mapGet (tot_udtMap t) (udtKey (script u))) as [v|] eqn:Eg.
      * rewrite !mapGet_bump.
        destruct (eqb (udtKey (script u)) key) eqn:E.
        -- apply eqb_eq in E. subst key. rewrite Eg. cbn. split; lia.
        -- split; lia.
      * rewrite !(mapGet_append _ _ _ _ Eg).
        destruct (eqb (udtKey (script u)) key) eqn:E.
        -- apply eqb_eq in E. subst key. rewrite Eg. cbn. split; lia.
        -- split; lia.
    + destruct (BigInt (live_capacity cell)) as [cap|] eqn:Ec; cbn [bind]; [|discriminate].
      intros H. inversion H; subst t'; clear H. cbn.
      split; [reflexivity|]. split; [lia|]. intros key. split; lia.
  - destruct (BigInt (live_capacity cell)) as [cap|] eqn:Ec; cbn [bind]; [|discriminate].
    intros H. inversion H; subst t'; clear H. cbn.
    split; [reflexivity|]. split; [lia|]. intros key. split; lia.
Qed.

Lemma forEach_accountCell udtCfgInfos cells : forall t t',
  forEachM (accountCell udtCfgInfos) cells t = Ok t' ->
  tot_ckbBalance t'
  = (tot_ckbBalance t + sumZ (map capacityOf (filter (countsAsCkb udtCfgInfos) cells)))%Z
  /\ tot_ckbCellCount t'
     = (tot_ckbCellCount t + length (filter (countsAsCkb udtCfgInfos) cells))%nat
  /\ forall key,
       udtBalanceOf (tot_udtMap t') key
       = (udtBalanceOf (tot_udtMap t) key
          + sumZ (map amountOf (filter (countsUnder udtCfgInfos key) cells)))%Z
       /\ udtCellCountOf (tot_udtMap t') key
          = (udtCellCountOf (tot_udtMap t) key
             + length (filter (countsUnder udtCfgInfos key) cells))%nat.
Proof.
  induction cells as [|c cells IH]; simpl; intros t t' H.
  - inversion H; subst. split; [lia|]. split; [lia|]. intros key. split; lia.
  - destruct (accountCell udtCfgInfos t c) as [t1|] eqn:E; [|discriminate]. simpl in H.
    destruct (accountCell_step _ _ _ _ E) as (C1 & N1 & U1).
    destruct (IH _ _ H) as (C2 & N2 & U2).
    rewrite C2, N2, C1, N1. split; [|split].
    + destruct (countsAsCkb udtCfgInfos c); simpl; lia.
    + destruct (countsAsCkb udtCfgInfos c); simpl; lia.
    + intros key. destruct (U1 key) as [B1 K1]. destruct (U2 key) as [B2 K2].
      rewrite B2, K2, B1, K1.
      destruct (countsUnder udtCfgInfos key c); simpl; split; lia.
Qed.

(** The totals of a whole account: the plain and unrecognised cells make up
    the CKB balance, and each UDT entry sums the amounts of the cells that
    belong to it. *)
Lemma computeAccountBalance_totals cells udtCfgInfos network ab :
  computeAccountBalance cells udtCfgInfos network = Ok ab ->
  ckbBalance ab = sumZ (map capacityOf (filter (countsAsCkb udtCfgInfos) cells))
  /\ ckbCellCount ab = length (filter (countsAsCkb udtCfgInfos) cells)
  /\ exists udtMap : UdtMap,
       udtBalances ab = map snd udtMap
       /\ forall key,
            udtBalanceOf udtMap key
            = sumZ (map amountOf (filter (countsUnder udtCfgInfos key) cells))
            /\ udtCellCountOf udtMap key
               = length (filter (countsUnder udtCfgInfos key) cells).
Proof.
  unfold computeAccountBalance.
  destruct (forEachM _ cells _) as [t|] eqn:E; cbn [bind]; [|discriminate].
  intros H. inversion H; subst ab; clear H. cbn.
  destruct (forEach_accountCell _ _ _ _ E) as (C & N & U). cbn in C, N.
  split; [exact C|]. split; [exact N|].
  exists (tot_udtMap t). split; [reflexivity|]. intros key.
  destruct (U key) as [B K]. cbn in B, K. split; assumption.
Qed.

(** * Further properties of the decoder *)

(** ** IntegerCodec: what the two readers accept and return *)

Lemma hexDigitValue_range c : (0 <= hexDigitValue c < 16)%Z.
Proof.
  destruct c as [[] [] [] [] [] [] [] []]; vm_compute;
    (split; [intro H; discriminate H | reflexivity]).
Qed.

Lemma hexValue_range s : (0 <= hexValue s < 16 ^ Z.of_nat (length s))%Z.
Proof.
  induction s as [|c s IH] using rev_ind.
  - cbn. lia.
  - rewrite hexValue_app, length_app. cbn [length].
    replace (Z.of_nat (length s + 1)) with (Z.of_nat (length s) + 1)%Z by lia.
    rewrite Z.pow_add_r by lia. change (16 ^ Z.of_nat 1)%Z with 16%Z.
    change (16 ^ 1)%Z with 16%Z.
    assert (Hc : hexValue [c] = hexDigitValue c) by (cbn; lia).
    pose proof (hexDigitValue_range c). rewrite Hc. nia.
Qed.

Lemma hexBytes_bytes s : Forall (fun b => 0 <= b < 256)%Z (hexBytes s).
Proof.
  induction s as [| a | a b r IH] using pair_ind; cbn [hexBytes].
  - constructor.
  - constructor; [|constructor]. pose proof (hexValue_range [a]) as H.
    cbn [length] in H. change (16 ^ Z.of_nat 1)%Z with 16%Z in H. lia.
  - constructor; [|exact IH]. pose proof (hexValue_range [a; b]) as H.
    cbn [length] in H. change (16 ^ Z.of_nat 2)%Z with 256%Z in H. exact H.
Qed.

Lemma leValue_range bytes :
  Forall (fun b => 0 <= b < 256)%Z bytes ->
  (0 <= leValue bytes < 256 ^ Z.of_nat (length bytes))%Z.
Proof.
  induction 1 as [|b bytes Hb _ IH]; cbn [leValue fold_right length].
  - cbn. lia.
  - fold (leValue bytes). rewrite Nat2Z.inj_succ, Z.pow_succ_r by lia. lia.
Qed.

Lemma leValue_cons b bytes : leValue (b :: bytes) = (b + 256 * leValue bytes)%Z.
Proof. reflexivity. Qed.

Lemma leValue_app x y :
  leValue (x ++ y) = (leValue x + 256 ^ Z.of_nat (length x) * leValue y)%Z.
Proof.
  induction x as [|b x IH].
  - change (leValue []) with 0%Z. change (Z.of_nat (length (@nil Z))) with 0%Z.
    rewrite Z.pow_0_r. cbn [app]. lia.
  - cbn [app length]. rewrite !leValue_cons, IH, Nat2Z.inj_succ, Z.pow_succ_r by lia.
    ring.
Qed.

Lemma hexBytes_app a b :
  Nat.even (length a) = true -> hexBytes (a ++ b) = hexBytes a ++ hexBytes b.
Proof.
  induction a as [| x | x y r IH] using pair_ind; intros H.
  - reflexivity.
  - discriminate.
  - cbn [app hexBytes]. now rewrite IH.
Qed.

Lemma In_rev_chunks c s : In c (concat (rev (byteChunks s))) <-> In c s.
Proof.
  induction s as [| a | a b r IH] using pair_ind.
  - reflexivity.
  - reflexivity.
  - cbn [byteChunks rev]. rewrite concat_snoc, in_app_iff, IH. cbn. tauto.
Qed.

Lemma trimEnd_cons a r : isWhiteSpace a = false -> trimEnd (a :: r) = a :: trimEnd r.
Proof. intros H. cbn [trimEnd]. rewrite H. destruct (trimEnd r); reflexivity. Qed.

Lemma trimEnd_keeps c s : In c s -> isWhiteSpace c = false -> In c (trimEnd s).
Proof.
  induction s as [|a r IH]; intros Hin Hc; [contradiction|].
  destruct Hin as [-> | Hin].
  - rewrite trimEnd_cons by exact Hc. now left.
  - specialize (IH Hin Hc). cbn [trimEnd].
    destruct (trimEnd r) as [|x r']; [contradiction|]. now right.
Qed.

Lemma digitsAcc_bad radix s c :
  In c s -> digitOf radix c = None -> forall acc, digitsAcc radix acc s = None.
Proof.
  induction s as [|a r IH]; intros Hin Hc acc; [contradiction|].
  cbn [digitsAcc]. destruct Hin as [-> | Hin].
  - now rewrite Hc.
  - destruct (digitOf radix a); [now apply IH | reflexivity].
Qed.

(** [BigInt('0x' + t)] raises when [t] holds a character that is neither a
    hex digit nor white space. *)
Lemma BigInt_0x_bad t c :
  In c t -> isHexDigit c = false -> isWhiteSpace c = false ->
  BigInt (str "0x" ++ t) = Throw (cannotConvert (str "0x" ++ t)).
Proof.
  intros Hin Hd Hw. unfold BigInt, trim.
  change (trimStart (str "0x" ++ t)) with ("0"%char :: "x"%char :: t).
  rewrite !trimEnd_cons by reflexivity.
  change (Ascii.eqb "x" "x") with true. cbn [orb].
  pose proof (trimEnd_keeps c t Hin Hw) as Hk.
  unfold digitsValue. destruct (trimEnd t) as [|x r] eqn:E; [contradiction|].
  rewrite (digitsAcc_bad 16 (x :: r) c Hk); [reflexivity|].
  unfold isHexDigit in Hd. destruct (digitOf 16 c); [discriminate | reflexivity].
Qed.

Lemma padEven_cases s : padEven s = s \/ padEven s = "0"%char :: s.
Proof. unfold padEven. destruct (Nat.eqb _ _); [left | right]; reflexivity. Qed.

(** X1. [littleEndianHexToBigInt] on one or more hex digits returns the
    little-endian value of the bytes they spell, a leading zero digit being
    added to an odd number of digits; the value lies below 256 to the number
    of bytes. It raises a SyntaxError on the empty string and on any string
    holding a character that is neither a hex digit nor white space. *)
Theorem littleEndianHexToBigInt_reading (hex : jsstring) :
  (hex = [] -> littleEndianHexToBigInt hex = Throw (cannotConvert (str "0x")))
  /\ (hex <> [] -> isHex hex = true ->
      littleEndianHexToBigInt hex = Ok (leValue (hexBytes (padEven hex)))
      /\ (0 <= leValue (hexBytes (padEven hex))
          < 256 ^ Z.of_nat (length (hexBytes (padEven hex))))%Z)
  /\ (forall c, In c hex -> isHexDigit c = false -> isWhiteSpace c = false ->
      littleEndianHexToBigInt hex
      = Throw (cannotConvert (str "0x" ++ concat (rev (byteChunks (padEven hex)))))).
Proof.
  split; [|split].
  - intros ->. reflexivity.
  - intros Hne Hhex. split; [now apply littleEndianHexToBigInt_hex|].
    apply leValue_range, hexBytes_bytes.
  - intros c Hin Hd Hw. unfold littleEndianHexToBigInt. fold (padEven hex).
    apply (BigInt_0x_bad _ c); [|exact Hd | exact Hw].
    apply In_rev_chunks. destruct (padEven_cases hex) as [-> | ->]; [exact Hin | now right].
Qed.

Lemma littleEndianHexToBigInt_reading_witness :
  littleEndianHexToBigInt (str "") = Throw (cannotConvert (str "0x"))
  /\ littleEndianHexToBigInt (str "123") = Ok 8961%Z
  /\ littleEndianHexToBigInt (str "0g") = Throw (cannotConvert (str "0x0g")).
Proof.
  split; [|split].
  - apply (proj1 (littleEndianHexToBigInt_reading (str ""))). reflexivity.
  - apply (proj1 (proj2 (littleEndianHexToBigInt_reading (str "123")))).
    + discriminate.
    + reflexivity.
  - apply (proj2 (proj2 (littleEndianHexToBigInt_reading (str "0g"))) "g"%char).
    + right. left. reflexivity.
    + reflexivity.
    + reflexivity.
Defined.

(** X2. [toIntFromBigUint128Le] strips an optional [0x] and returns the
    little-endian value of all the bytes that follow, however many there
    are; an odd last digit is a byte of its own. On an even number of digits
    it agrees with [littleEndianHexToBigInt]; on [0x] and on the empty
    string it raises. *)
Theorem toIntFromBigUint128Le_reading (d hexStr : jsstring) :
  hexStr = d \/ hexStr = str "0x" ++ d ->
  isHex d = true ->
  (d <> [] -> toIntFromBigUint128Le hexStr = Ok (leValue (hexBytes d)))
  /\ (d <> [] -> Nat.even (length d) = true ->
      toIntFromBigUint128Le hexStr = littleEndianHexToBigInt d)
  /\ (d = [] -> toIntFromBigUint128Le hexStr = Throw (cannotConvert (str "0x"))).
Proof.
  intros Hin Hhex.
  assert (Hs : toIntFromBigUint128Le hexStr = BigInt (str "0x" ++ concat (rev (byteChunks d)))).
  { unfold toIntFromBigUint128Le. fold (strip0x hexStr).
    now rewrite (strip0x_either d hexStr Hhex Hin). }
  assert (Hv : d <> [] -> toIntFromBigUint128Le hexStr = Ok (leValue (hexBytes d))).
  { intros Hne. rewrite Hs, BigInt_0x_hex.
    - now rewrite hexValue_rev_chunks.
    - now apply rev_chunks_nonempty.
    - now rewrite isHex_rev_chunks. }
  split; [exact Hv|]. split.
  - intros Hne Hev. rewrite (Hv Hne), (littleEndianHexToBigInt_hex d Hne Hhex).
    now rewrite (padEven_even d Hev).
  - intros ->. rewrite Hs. reflexivity.
Qed.

Lemma toIntFromBigUint128Le_reading_witness :
  toIntFromBigUint128Le (str "0xabc") = Ok 3243%Z
  /\ littleEndianHexToBigInt (str "abc") = Ok 48138%Z
  /\ toIntFromBigUint128Le (str "0x2a00") = littleEndianHexToBigInt (str "2a00")
  /\ toIntFromBigUint128Le (str "0x") = Throw (cannotConvert (str "0x")).
Proof.
  split; [|split; [|split]].
  - apply (proj1 (toIntFromBigUint128Le_reading (str "abc") (str "0xabc")
                    (or_intror eq_refl) eq_refl)). discriminate.
  - reflexivity.
  - apply (proj1 (proj2 (toIntFromBigUint128Le_reading (str "2a00") (str "0x2a00")
                           (or_intror eq_refl) eq_refl))).
    + discriminate.
    + reflexivity.
  - apply (proj2 (proj2 (toIntFromBigUint128Le_reading (str "") (str "0x")
                           (or_intror eq_refl) eq_refl))). reflexivity.
Defined.

(** The two UDT readings on data of [0x] and an even number of at least 32
    hex digits: [udtFields] gives the little-endian value of the whole
    data, [udtAmount] that of the first 16 bytes, and the first exceeds the
    second by 2^128 times the value of the remaining bytes. *)
Lemma udt_readings (d : jsstring) (ty : Script) (cell : LiveCell) :
  isHex d = true ->
  Nat.even (length d) = true ->
  (32 <= length d)%nat ->
  live_data cell = str "0x" ++ d ->
  udtFields (Some ty) (Some (live_data cell))
  = Ok (Some (args ty), Some (leValue (hexBytes d)))
  /\ udtAmount cell = Ok (leValue (hexBytes (firstn 32 d)))
  /\ leValue (hexBytes d)
     = (leValue (hexBytes (firstn 32 d)) + 2 ^ 128 * leValue (hexBytes (skipn 32 d)))%Z.
Proof.
  intros Hhex Hev Hlen Hdata.
  assert (Hne : d <> []) by (apply nonempty_of_length; lia).
  split; [|split].
  - unfold udtFields, onString. rewrite Hdata.
    unfold toIntFromBigUint128Le.
    change (startsWith (str "0x" ++ d) (str "0x")) with true.
    change (slice (str "0x" ++ d) 2) with d. cbv iota.
    rewrite BigInt_0x_hex.
    + now rewrite hexValue_rev_chunks.
    + now apply rev_chunks_nonempty.
    + now rewrite isHex_rev_chunks.
  - pose proof (udtAmount_spec cell) as [_ H]. cbv zeta in H.
    rewrite Hdata, strip0x_prefixed in H.
    apply H; [exact Hlen | now apply isHex_firstn].
  - rewrite <- (firstn_skipn 32 d) at 1.
    assert (Hl : length (firstn 32 d) = 32%nat) by (rewrite length_firstn; lia).
    rewrite hexBytes_app by (rewrite Hl; reflexivity).
    rewrite leValue_app.
    pose proof (hexBytes_length (firstn 32 d)) as Hb. rewrite Hl in Hb.
    specialize (Hb eq_refl).
    replace (length (hexBytes (firstn 32 d))) with 16%nat by lia.
    reflexivity.
Qed.

(** ** LockArgsCodec: the fields of a blob built from its parts *)

Lemma substring_field (a f r : jsstring) n m :
  length a = n -> (n <= m)%nat -> length f = (m - n)%nat ->
  substring (a ++ f ++ r) n m = f.
Proof.
  intros Ha Hnm Hf. unfold substring.
  rewrite Nat.min_l, Nat.max_r by lia.
  rewrite skipn_app, skipn_all2 by lia.
  replace (n - length a)%nat with 0%nat by lia. cbn [skipn app].
  rewrite firstn_app, firstn_all2 by lia.
  replace (m - n - length f)%nat with 0%nat by lia.
  rewrite firstn_0. apply app_nil_r.
Qed.

Lemma substring_prefix (a r : jsstring) n :
  length a = n -> substring (a ++ r) 0 n = a.
Proof.
  intros Ha. apply (substring_field [] a r 0 n); [reflexivity | lia | lia].
Qed.

Lemma skipn_prefix {A} (a r : list A) n : length a = n -> skipn n (a ++ r) = r.
Proof.
  intros Ha. rewrite skipn_app, skipn_all2 by lia.
  replace (n - length a)%nat with 0%nat by lia. reflexivity.
Qed.

Lemma digitPrefix_hex s : isHex s = true -> digitPrefix 16 s = s.
Proof.
  induction s as [|c s IH]; cbn [digitPrefix]; intros H; [reflexivity|].
  apply andb_true_iff in H as [Hc Hs]. rewrite (hexDigit_value c Hc), IH by exact Hs.
  reflexivity.
Qed.

Lemma hexDigit_plain c :
  isHexDigit c = true ->
  isWhiteSpace c = false /\ c <> "-"%char /\ c <> "+"%char /\ c <> "x"%char /\ c <> "X"%char.
Proof.
  destruct c as [[] [] [] [] [] [] [] []]; vm_compute; intros H;
    try discriminate H; repeat split; congruence.
Qed.

(** [parseInt(s, 16)] on one or more hex digits is their value. *)
Lemma parseInt16_hex s : s <> [] -> isHex s = true -> parseInt16 s = Int (hexValue s).
Proof.
  intros Hne Hhex. destruct s as [|c r]; [congruence|].
  pose proof Hhex as Hh. cbn [isHex forallb] in Hh. apply andb_true_iff in Hh as [Hc Hr].
  destruct (hexDigit_plain c Hc) as (Hw & Hm & Hp & _).
  assert (Hval : digitsValue 16 (digitPrefix 16 (c :: r)) = Some (hexValue (c :: r))).
  { rewrite digitPrefix_hex by exact Hhex. unfold digitsValue.
    now rewrite digitsAcc_hex. }
  unfold parseInt16. cbn [trimStart]. rewrite Hw.
  assert (Hsign : (match c :: r with
                   | "-"%char :: r0 => ((-1)%Z, r0)
                   | "+"%char :: r0 => (1%Z, r0)
                   | _ => (1%Z, c :: r)
                   end) = (1%Z, c :: r)).
  { destruct c as [[] [] [] [] [] [] [] []]; try reflexivity; congruence. }
  rewrite Hsign.
  assert (Hpre : (match c :: r with
                  | "0"%char :: c0 :: r0 =>
                      if (Ascii.eqb c0 "x" || Ascii.eqb c0 "X")%bool then r0 else c :: r
                  | _ => c :: r
                  end) = c :: r).
  { destruct r as [|c0 r0]; [destruct c as [[] [] [] [] [] [] [] []]; reflexivity|].
    cbn [isHex forallb] in Hr. apply andb_true_iff in Hr as [Hc0 _].
    destruct (hexDigit_plain c0 Hc0) as (_ & _ & _ & Hx & HX).
    destruct (Ascii.eqb_spec c0 "x"); [congruence|].
    destruct (Ascii.eqb_spec c0 "X"); [congruence|].
    destruct c as [[] [] [] [] [] [] [] []]; reflexivity. }
  rewrite Hpre, Hval. f_equal. lia.
Qed.

Lemma parseInt16_empty : parseInt16 [] = NaN.
Proof. reflexivity. Qed.

Lemma le_field16 (f : jsstring) :
  length f = 16%nat -> isHex f = true ->
  littleEndianHexToBigInt f = Ok (leValue (hexBytes f)).
Proof.
  intros Hl Hx. rewrite littleEndianHexToBigInt_hex, padEven_even.
  - reflexivity.
  - rewrite Hl. reflexivity.
  - apply nonempty_of_length. lia.
  - exact Hx.
Qed.

(** X4. [parseLockArgs] on a blob made of a 20-byte public key hash, 8 epoch
    bytes, 8 version bytes and a tail recovers the parts: the hash as it is,
    the epoch and the version as little-endian integers, the tail untouched
    under [htlcs] (the empty string when there is none). *)
Theorem parseLockArgs_fields (pk ep ver tail hex : jsstring) :
  let data := pk ++ ep ++ ver ++ tail in
  length pk = 40%nat -> length ep = 16%nat -> length ver = 16%nat ->
  isHex ep = true -> isHex ver = true ->
  hex = str "0x" ++ data \/ (startsWith data (str "0x") = false /\ hex = data) ->
  parseLockArgs hex
  = Ok {| pubkey_hash := str "0x" ++ pk;
          delay_epoch := parseEpoch (leValue (hexBytes ep));
          version := toString (leValue (hexBytes ver));
          htlcs := Some (match tail with [] => [] | _ => str "0x" ++ tail end);
          settlement_hash := None;
          settlement_flag := None |}.
Proof.
  intros data Hpk Hep Hver Xep Xver Hin.
  assert (Hs : strip0x hex = data).
  { destruct Hin as [-> | [Hn ->]]; [reflexivity|]. unfold strip0x. now rewrite Hn. }
  unfold parseLockArgs. rewrite Hs. cbn [Nat.add]. unfold substringFrom.
  assert (F1 : substring data 0 40 = pk) by (apply substring_prefix; exact Hpk).
  assert (F2 : substring data 40 56 = ep) by (apply substring_field; lia).
  assert (F3 : substring data 56 72 = ver).
  { unfold data. rewrite app_assoc. apply substring_field; rewrite ?length_app; lia. }
  assert (F4 : skipn 72 data = tail).
  { unfold data. rewrite !app_assoc. apply skipn_prefix. rewrite !length_app. lia. }
  rewrite F1, F2, F3, F4.
  rewrite (le_field16 ep Hep Xep), (le_field16 ver Hver Xver).
  reflexivity.
Qed.

Lemma parseLockArgs_fields_witness :
  parseLockArgs
    (str "0x00112233445566778899aabbccddeeff001122330a0000000000000001000000000000000102")
  = Ok {| pubkey_hash := str "0x00112233445566778899aabbccddeeff00112233";
          delay_epoch := parseEpoch 10;
          version := str "1";
          htlcs := Some (str "0x0102");
          settlement_hash := None;
          settlement_flag := None |}.
Proof.
  apply (parseLockArgs_fields
           (str "00112233445566778899aabbccddeeff00112233")
           (str "0a00000000000000") (str "0100000000000000") (str "0102"));
    try reflexivity.
  left. reflexivity.
Defined.

(** X5. [parseLockArgsV2] on a blob made of a 20-byte public key hash, 8
    epoch bytes, 8 version bytes, a 20-byte settlement hash and a flag byte
    recovers the parts: the epoch little-endian, the version big-endian, the
    settlement hash as it is and the flag as a number; what follows the flag
    is not read, and a blob that ends after the settlement hash has no
    flag. *)
Theorem parseLockArgsV2_fields (pk ep ver sh flag rest hex : jsstring) :
  let data := pk ++ ep ++ ver ++ sh ++ flag ++ rest in
  length pk = 40%nat -> length ep = 16%nat -> length ver = 16%nat ->
  length sh = 40%nat ->
  isHex ep = true -> isHex ver = true ->
  (length flag = 2%nat /\ isHex flag = true) \/ (flag = [] /\ rest = []) ->
  hex = str "0x" ++ data \/ (startsWith data (str "0x") = false /\ hex = data) ->
  parseLockArgsV2 hex
  = Ok {| pubkey_hash := str "0x" ++ pk;
          delay_epoch := parseEpoch (leValue (hexBytes ep));
          version := toString (beValue (hexBytes ver));
          htlcs := None;
          settlement_hash := Some (str "0x" ++ sh);
          settlement_flag :=
            match flag with [] => None | _ => Some (hexValue flag) end |}.
Proof.
  intros data Hpk Hep Hver Hsh Xep Xver Hflag Hin.
  assert (Hs : strip0x hex = data).
  { destruct Hin as [-> | [Hn ->]]; [reflexivity|]. unfold strip0x. now rewrite Hn. }
  unfold parseLockArgsV2. rewrite Hs. cbn [Nat.add].
  assert (F1 : substring data 0 40 = pk) by (apply substring_prefix; exact Hpk).
  assert (F2 : substring data 40 56 = ep) by (apply substring_field; lia).
  assert (F3 : substring data 56 72 = ver).
  { unfold data. rewrite app_assoc. apply substring_field; rewrite ?length_app; lia. }
  assert (F4 : substring data 72 112 = sh).
  { unfold data.
    replace (pk ++ ep ++ ver ++ sh ++ flag ++ rest)
      with ((pk ++ ep ++ ver) ++ sh ++ flag ++ rest)
      by (rewrite <- !app_assoc; reflexivity).
    apply substring_field; rewrite ?length_app; lia. }
  assert (F5 : substring data 112 114 = flag).
  { destruct Hflag as [[Hf _] | [-> ->]].
    - unfold data.
      replace (pk ++ ep ++ ver ++ sh ++ flag ++ rest)
        with ((pk ++ ep ++ ver ++ sh) ++ flag ++ rest)
        by (rewrite <- !app_assoc; reflexivity).
      apply substring_field; rewrite ?length_app; lia.
    - apply substring_short; [lia|]. unfold data. rewrite !length_app. cbn [length]. lia. }
  rewrite F1, F2, F3, F4, F5.
  rewrite (le_field16 ep Hep Xep).
  rewrite BigInt_0x_hex by (try assumption; apply nonempty_of_length; lia).
  rewrite hexValue_beValue by (rewrite Hver; reflexivity).
  cbn [bind].
  assert (Hsh' : sh <> []) by (apply nonempty_of_length; lia).
  destruct sh as [|s0 sh']; [congruence|].
  destruct Hflag as [[Hf Xf] | [-> _]]; [|reflexivity].
  rewrite parseInt16_hex by (try assumption; apply nonempty_of_length; lia).
  destruct flag; [discriminate Hf | reflexivity].
Qed.

Lemma parseLockArgsV2_fields_witness :
  parseLockArgsV2
    (str "0x00112233445566778899aabbccddeeff001122330a000000000000000000000000000003ffeeddccbbaa99887766554433221100ffeeddcc01")
  = Ok {| pubkey_hash := str "0x00112233445566778899aabbccddeeff00112233";
          delay_epoch := parseEpoch 10;
          version := str "3";
          htlcs := None;
          settlement_hash := Some (str "0xffeeddccbbaa99887766554433221100ffeeddcc");
          settlement_flag := Some 1%Z |}.
Proof.
  apply (parseLockArgsV2_fields
           (str "00112233445566778899aabbccddeeff00112233")
           (str "0a00000000000000") (str "0000000000000003")
           (str "ffeeddccbbaa99887766554433221100ffeeddcc") (str "01") (str ""));
    try reflexivity.
  - left. split; reflexivity.
  - left. reflexivity.
Defined.

(** ** WitnessCodec: HTLC records and the outcome of a decode *)

Lemma substring_nonempty (s : jsstring) a b :
  (a < b)%nat -> (a < length s)%nat -> substring s a b <> [].
Proof.
  intros Hab Ha. apply nonempty_of_length. unfold substring.
  rewrite Nat.min_l, Nat.max_r by lia. rewrite length_firstn, length_skipn. lia.
Qed.

Lemma littleEndianHexToBigInt_field data a b :
  isHex data = true -> (a < b)%nat ->
  if Nat.ltb a (length data)
  then littleEndianHexToBigInt (substring data a b)
       = Ok (leValue (hexBytes (padEven (substring data a b))))
  else littleEndianHexToBigInt (substring data a b) = Throw (cannotConvert (str "0x")).
Proof.
  intros Hhex Hab. destruct (Nat.ltb_spec a (length data)) as [Hlt | Hge].
  - apply littleEndianHexToBigInt_hex; [now apply substring_nonempty|].
    now apply isHex_substring.
  - rewrite substring_short by lia. reflexivity.
Qed.

Lemma parseHtlc_outcome data o :
  isHex data = true ->
  if Nat.ltb (o + 154) (length data)
  then exists h, parseHtlc data o = Ok (h, (o + 170)%nat)
  else parseHtlc data o = Throw (cannotConvert (str "0x")).
Proof.
  intros Hhex. unfold parseHtlc.
  pose proof (littleEndianHexToBigInt_field data (o + 2) (o + 2 + 32) Hhex) as Ha.
  pose proof (littleEndianHexToBigInt_field data (o + 2 + 32 + 40 + 40 + 40)
                (o + 2 + 32 + 40 + 40 + 40 + 16) Hhex) as He.
  destruct (Nat.ltb_spec (o + 154) (length data)) as [Hlt | Hge].
  - destruct (Nat.ltb_spec (o + 2) (length data)); [|lia].
    destruct (Nat.ltb_spec (o + 2 + 32 + 40 + 40 + 40) (length data)); [|lia].
    rewrite Ha, He by lia. cbn [bind]. eexists. f_equal. f_equal. lia.
  - destruct (Nat.ltb_spec (o + 2) (length data)).
    + rewrite Ha by lia. cbn [bind].
      destruct (Nat.ltb_spec (o + 2 + 32 + 40 + 40 + 40) (length data)); [lia|].
      now rewrite He by lia.
    + now rewrite Ha by lia.
Qed.

Lemma parseHtlcs_outcome data : isHex data = true -> forall n o,
  if htlcsReadable n o (length data)
  then exists hs, parseHtlcs n data o = Ok (hs, (o + 170 * n)%nat) /\ length hs = n
  else parseHtlcs n data o = Throw (cannotConvert (str "0x")).
Proof.
  intros Hhex. induction n as [|n IH]; intros o.
  - cbn [htlcsReadable parseHtlcs]. exists []. split; [f_equal; f_equal; lia | reflexivity].
  - cbn [htlcsReadable parseHtlcs].
    pose proof (parseHtlc_outcome data o Hhex) as H1.
    specialize (IH (o + 170)%nat).
    destruct (Nat.ltb_spec (o + 170 * n + 154) (length data)) as [Hlt | Hge].
    + destruct (Nat.ltb_spec (o + 154) (length data)); [|lia].
      destruct H1 as [h ->]. cbn [bind].
      assert (Hr : htlcsReadable n (o + 170) (length data) = true).
      { destruct n as [|m]; [reflexivity|]. cbn [htlcsReadable].
        apply Nat.ltb_lt. lia. }
      rewrite Hr in IH. destruct IH as (hs & -> & Hl). cbn [bind].
      exists (h :: hs). split; [f_equal; f_equal; lia | cbn; now rewrite Hl].
    + destruct (Nat.ltb_spec (o + 154) (length data)).
      * destruct H1 as [h ->]. cbn [bind].
        assert (Hr : htlcsReadable n (o + 170) (length data) = false).
        { destruct n as [|m]; [lia|]. cbn [htlcsReadable].
          apply Nat.ltb_ge. lia. }
        rewrite Hr in IH. now rewrite IH.
      * now rewrite H1.
Qed.

Lemma parseHtlc_at data o :
  isHex data = true -> (o + 170 <= length data)%nat ->
  parseHtlc data o = Ok (htlcAt data o, (o + 170)%nat).
Proof.
  intros Hhex Hlen. unfold parseHtlc, htlcAt.
  rewrite <- !Nat.add_assoc. cbn [Nat.add].
  assert (T : forall a b w, (b = a + w)%nat -> (0 < w)%nat -> Nat.even w = true ->
              (b <= length data)%nat ->
              substring data a b <> [] /\ isHex (substring data a b) = true
              /\ Nat.even (length (substring data a b)) = true).
  { intros a b w -> Hw Hev Hb. repeat split.
    - apply substring_nonempty; lia.
    - now apply isHex_substring.
    - rewrite substring_length by lia. replace (a + w - a)%nat with w by lia. exact Hev. }
  destruct (T o (o + 2)%nat 2%nat) as (A1 & A2 & _); [reflexivity | lia | reflexivity | lia |].
  destruct (T (o + 2)%nat (o + 34)%nat 32%nat) as (B1 & B2 & B3);
    [lia | lia | reflexivity | lia |].
  destruct (T (o + 154)%nat (o + 170)%nat 16%nat) as (C1 & C2 & C3);
    [lia | lia | reflexivity | lia |].
  rewrite (parseInt16_hex _ A1 A2).
  rewrite (littleEndianHexToBigInt_hex _ B1 B2), (padEven_even _ B3).
  rewrite (littleEndianHexToBigInt_hex _ C1 C2), (padEven_even _ C3).
  cbn [bind].
  change (Z.shiftl 1 56 - 1)%Z with (Z.ones 56). rewrite Z.land_ones by lia.
  reflexivity.
Qed.

Lemma parseHtlcs_at data : isHex data = true -> forall n o,
  (o + 170 * n <= length data)%nat ->
  parseHtlcs n data o
  = Ok (map (fun k => htlcAt data (o + 170 * k)) (seq 0 n), (o + 170 * n)%nat).
Proof.
  intros Hhex. induction n as [|n IH]; intros o Hlen.
  - cbn. f_equal. f_equal. lia.
  - cbn [parseHtlcs]. rewrite parseHtlc_at by (try assumption; lia). cbn [bind].
    rewrite IH by lia. cbn [bind]. f_equal. f_equal; [|lia].
    cbn [seq map]. f_equal; [f_equal; lia|].
    rewrite <- seq_shift, map_map. apply map_ext. intros k. f_equal. lia.
Qed.

(** X6. [parseWitness] on a hex witness whose discriminator is neither
    [0xFF] nor [0xFE] and which holds all the HTLC records its count byte
    announces: the pending-HTLC variant lists exactly that many records,
    record [k] read from the 85 bytes at hex offset [36 + 170 k]; the 65
    bytes after the last record are the signature, and the preimage is the
    next 32 bytes, or ['N/A'] when the witness ends with the signature. *)
Theorem parseWitness_pending_layout (data hex : jsstring) :
  isHex data = true ->
  hex = data \/ hex = str "0x" ++ data ->
  let unlockType := hexValue (substring data 32 34) in
  let count := Z.to_nat (hexValue (substring data 34 36)) in
  let o := (36 + 170 * count)%nat in
  unlockType <> 255%Z -> unlockType <> 254%Z ->
  (o <= length data)%nat ->
  parseWitness hex
  = Ok {| empty_witness_args := str "0x" ++ substring data 0 32;
          unlock_type := Some (Int unlockType);
          unlock_count := None;
          revocation := None;
          non_pending_htlc := None;
          pending_htlc :=
            Some {| ph_pending_htlc_count := Int (hexValue (substring data 34 36));
                    ph_htlcs := map (fun k => htlcAt data (36 + 170 * k)) (seq 0 count);
                    ph_signature := str "0x" ++ substring data o (o + 130);
                    ph_preimage :=
                      if Nat.ltb (o + 130) (length data)
                      then str "0x" ++ substring data (o + 130) (o + 130 + 64)
                      else str "N/A" |};
          settlement := None;
          error := None |}.
Proof.
  intros Hhex Hin unlockType count o H255 H254 Hlen.
  unfold parseWitness. rewrite (strip0x_either data hex Hhex Hin). cbn [Nat.add].
  assert (Hu : parseInt16 (substring data 32 34) = Int unlockType).
  { apply parseInt16_hex; [apply substring_nonempty; unfold o in Hlen; lia|].
    now apply isHex_substring. }
  assert (Hc : parseInt16 (substring data 34 36) = Int (hexValue (substring data 34 36))).
  { apply parseInt16_hex; [apply substring_nonempty; unfold o in Hlen; lia|].
    now apply isHex_substring. }
  rewrite Hu, Hc. cbn [numberIs iterations].
  destruct (Z.eqb_spec unlockType 255) as [|_]; [contradiction|].
  destruct (Z.eqb_spec unlockType 254) as [|_]; [contradiction|].
  fold count. rewrite (parseHtlcs_at data Hhex count 36 Hlen). cbn [bind]. fold o.
  reflexivity.
Qed.

Lemma parseWitness_pending_layout_witness :
  exists w p,
    parseWitness
      (str "0x0000000000000000000000000000000001010264000000000000000000000000000000aaaaaaaaaaaaaaaaaaaaaaaaaaaaaaaaaaaaaaaabbbbbbbbbbbbbbbbbbbbbbbbbbbbbbbbbbbbbbbbcccccccccccccccccccccccccccccccccccccccc0a00000000000000dd")
    = Ok w
    /\ pending_htlc w = Some p
    /\ map payment_amount (ph_htlcs p) = [str "100"]
    /\ map htlc_expiry_timestamp (ph_htlcs p) = [str "10000"]
    /\ ph_signature p = str "0xdd"
    /\ ph_preimage p = str "N/A".
Proof.
  eexists. eexists. split.
  - apply (parseWitness_pending_layout
             (str "0000000000000000000000000000000001010264000000000000000000000000000000aaaaaaaaaaaaaaaaaaaaaaaaaaaaaaaaaaaaaaaabbbbbbbbbbbbbbbbbbbbbbbbbbbbbbbbbbbbbbbbcccccccccccccccccccccccccccccccccccccccc0a00000000000000dd")).
    + reflexivity.
    + right. reflexivity.
    + vm_compute. discriminate.
    + vm_compute. discriminate.
    + apply Nat.leb_le. reflexivity.
  - split; [reflexivity|]. repeat split; vm_compute; reflexivity.
Defined.

(** X7. On a hex witness [parseWitness] either returns or raises the
    SyntaxError of [BigInt('0x')], and which of the two is decided by the
    length alone: under [0xFF] it returns iff at least one digit follows the
    discriminator, under [0xFE] it always returns, and otherwise iff the
    HTLC loop can get through the announced records. An empty witness
    returns (a pending-HTLC variant with a [NaN] count). *)
Theorem parseWitness_outcome (data hex : jsstring) :
  isHex data = true ->
  hex = data \/ hex = str "0x" ++ data ->
  let unlockType := parseInt16 (substring data 32 34) in
  let count := iterations (parseInt16 (substring data 34 36)) in
  if (if numberIs unlockType 255 then Nat.ltb 34 (length data)
      else if numberIs unlockType 254 then true
      else htlcsReadable count 36 (length data))
  then exists w, parseWitness hex = Ok w
  else parseWitness hex = Throw (cannotConvert (str "0x")).
Proof.
  intros Hhex Hin unlockType count.
  unfold parseWitness. rewrite (strip0x_either data hex Hhex Hin). cbn [Nat.add].
  fold unlockType.
  destruct (numberIs unlockType 255).
  - destruct (Nat.ltb_spec 34 (length data)) as [Hlt | Hge].
    + rewrite BigInt_0x_hex; [cbn [bind]; eauto | |now apply isHex_substring].
      apply substring_nonempty; lia.
    + rewrite substring_short by lia. reflexivity.
  - destruct (numberIs unlockType 254); [eauto|].
    fold count.
    pose proof (parseHtlcs_outcome data Hhex count 36) as H.
    destruct (htlcsReadable count 36 (length data)).
    + destruct H as (hs & -> & _). cbn [bind]. eauto.
    + now rewrite H.
Qed.

Lemma parseWitness_outcome_witness :
  (exists w, parseWitness (str "0x") = Ok w)
  /\ parseWitness (str "0x00000000000000000000000000000000ff") = Throw (cannotConvert (str "0x"))
  /\ parseWitness (str "0x0000000000000000000000000000000001020a") = Throw (cannotConvert (str "0x")).
Proof.
  split; [|split].
  - apply (parseWitness_outcome (str "") (str "0x") eq_refl (or_intror eq_refl)).
  - apply (parseWitness_outcome (str "00000000000000000000000000000000ff")
             (str "0x00000000000000000000000000000000ff") eq_refl (or_intror eq_refl)).
  - apply (parseWitness_outcome (str "0000000000000000000000000000000001020a")
             (str "0x0000000000000000000000000000000001020a") eq_refl (or_intror eq_refl)).
Defined.

(** X8. On a hex witness [parseWitnessV2] either returns or raises the
    SyntaxError of [BigInt('0x')]: under unlock count 0 it returns iff at
    least one digit follows the count, and otherwise iff the witness is
    longer than [148 + 170 n] digits, [n] being the announced number of
    HTLC records, that is iff the local settlement amount has a digit. *)
Theorem parseWitnessV2_outcome (data hex : jsstring) :
  isHex data = true ->
  hex = data \/ hex = str "0x" ++ data ->
  let unlockCount := parseInt16 (substring data 32 34) in
  let count := iterations (parseInt16 (substring data 34 36)) in
  if (if numberIs unlockCount 0 then Nat.ltb 34 (length data)
      else Nat.ltb (148 + 170 * count) (length data))
  then exists w, parseWitnessV2 hex = Ok w
  else parseWitnessV2 hex = Throw (cannotConvert (str "0x")).
Proof.
  intros Hhex Hin unlockCount count.
  remember (148 + 170 * count)%nat as bound eqn:Hbound.
  unfold parseWitnessV2. rewrite (strip0x_either data hex Hhex Hin). cbn [Nat.add].
  fold unlockCount.
  destruct (numberIs unlockCount 0).
  - destruct (Nat.ltb_spec 34 (length data)) as [Hlt | Hge].
    + rewrite BigInt_0x_hex; [cbn [bind]; eauto | |now apply isHex_substring].
      apply substring_nonempty; lia.
    + rewrite substring_short by lia. reflexivity.
  - fold count.
    pose proof (parseHtlcs_outcome data Hhex count 36) as H.
    set (o := (36 + 170 * count)%nat) in *.
    pose proof (littleEndianHexToBigInt_field data (o + 40) (o + 40 + 32) Hhex) as Hr.
    pose proof (littleEndianHexToBigInt_field data (o + 40 + 32 + 40)
                  (o + 40 + 32 + 40 + 32) Hhex) as Hl.
    destruct (Nat.ltb_spec bound (length data)) as [Hlt | Hge].
    + assert (Hread : htlcsReadable count 36 (length data) = true).
      { destruct count as [|m]; [reflexivity|]. cbn [htlcsReadable].
        apply Nat.ltb_lt. lia. }
      rewrite Hread in H. destruct H as (hs & -> & _). cbn [bind].
      destruct (Nat.ltb_spec (o + 40) (length data)); [|unfold o in *; lia].
      destruct (Nat.ltb_spec (o + 40 + 32 + 40) (length data)); [|unfold o in *; lia].
      rewrite Hr, Hl by lia. cbn [bind]. eauto.
    + destruct (htlcsReadable count 36 (length data)).
      * destruct H as (hs & -> & _). cbn [bind].
        destruct (Nat.ltb_spec (o + 40) (length data)).
        -- rewrite Hr by lia. cbn [bind].
           destruct (Nat.ltb_spec (o + 40 + 32 + 40) (length data));
             [unfold o in *; lia|].
           now rewrite Hl by lia.
        -- now rewrite Hr by lia.
      * now rewrite H.
Qed.

Lemma parseWitnessV2_outcome_witness :
  parseWitnessV2 (str "0x") = Throw (cannotConvert (str "0x"))
  /\ (exists w, parseWitnessV2 (str "0x00000000000000000000000000000000000000000000000009") = Ok w).
Proof.
  split.
  - apply (parseWitnessV2_outcome (str "") (str "0x") eq_refl (or_intror eq_refl)).
  - apply (parseWitnessV2_outcome
             (str "00000000000000000000000000000000000000000000000009")
             (str "0x00000000000000000000000000000000000000000000000009")
             eq_refl (or_intror eq_refl)).
Defined.

(** ** TxMessageBuilder: failure, and the change of each address *)

Lemma forEach_updateBal_keys (dc du : CellInfo -> Z) cells : forall (m m' : BalanceMap),
  forEachM (fun m c => updateBal m (cell_args c) (dc c) (du c)) cells m = Ok m' ->
  forall c, In c cells -> inherited (cell_args c) = false.
Proof.
  induction cells as [|x cells IH]; simpl; intros m m' H c Hin; [contradiction|].
  destruct (updateBal m (cell_args x) (dc x) (du x)) as [m1|] eqn:E; [|discriminate].
  simpl in H. destruct Hin as [<- | Hin]; [|now apply (IH m1 m' H)].
  unfold updateBal in E. destruct (inherited (cell_args x)); [discriminate | reflexivity].
Qed.

Lemma buildMessage_keys client rpcUrl txData ins pw msg :
  buildMessage client rpcUrl txData ins pw = Ok msg ->
  forall c, In c (ins ++ output_cells msg) -> inherited (cell_args c) = false.
Proof.
  unfold buildMessage.
  destruct (mapM _ (indexed _)) as [outs|] eqn:Eo; [|discriminate]. cbn [bind].
  match goal with
  | |- context [forEachM ?f ins ?m] => destruct (forEachM f ins m) as [m1|] eqn:E1
  end; [|discriminate]. cbn [bind].
  match goal with
  | |- context [forEachM ?f outs ?m] => destruct (forEachM f outs m) as [m2|] eqn:E2
  end; [|discriminate]. cbn [bind].
  destruct (blockMeta client rpcUrl txData) as [bn bt].
  intros H. inversion H; subst msg; clear H. cbn [output_cells].
  intros c Hin. apply in_app_or in Hin as [Hin | Hin].
  - exact (forEach_updateBal_keys _ _ _ _ _ E1 c Hin).
  - exact (forEach_updateBal_keys _ _ _ _ _ E2 c Hin).
Qed.

(** X9. [getTxMessage] returns a message exactly when the transaction is
    found, every input resolves to a cell, every output decodes, and no lock
    args of these cells is a property name that objects inherit; the
    witnesses and the block header never make it fail. *)
Theorem getTxMessage_returns_iff client rpcUrl commitmentCodeHash txHash :
  (exists msg, getTxMessage client rpcUrl commitmentCodeHash txHash = Ok msg)
  <-> exists txData ins outs,
        getTransaction client rpcUrl txHash = Ok (Some txData)
        /\ mapM (cellOfInput client rpcUrl) (inputs (transaction txData)) = Ok ins
        /\ mapM (outputCell (transaction txData)) (indexed (outputs (transaction txData)))
           = Ok outs
        /\ forall c, In c (ins ++ outs) -> inherited (cell_args c) = false.
Proof.
  split.
  - intros [msg H].
    destruct (getTxMessage_inv _ _ _ _ _ H) as (txData & resolved & Ht & Hi & _ & Hb).
    destruct (buildMessage_inv _ _ _ _ _ _ Hb) as (_ & _ & Ho & _).
    exists txData, (input_cells msg), (output_cells msg).
    split; [exact Ht|]. split; [exact Hi|]. split; [exact Ho|].
    exact (buildMessage_keys _ _ _ _ _ _ Hb).
  - intros (txData & ins & outs & Ht & Hi & Ho & Hk).
    exact (getTxMessage_returns _ _ _ _ _ _ _ Ht Hi Ho Hk).
Qed.

Lemma firstRejection_app {A} (pre post : list (nat * JsResult A)) i e :
  (forall p, In p pre -> exists a, snd p = Ok a) ->
  firstRejection (pre ++ (i, Throw e) :: post) = Some e.
Proof.
  induction pre as [|[j r] pre IH]; intros H; [reflexivity|].
  destruct (H (j, r) (or_introl eq_refl)) as [a Ha]. cbn [snd] in Ha. subst r.
  cbn [app firstRejection]. apply IH. intros p Hp. apply H. now right.
Qed.

(** X10. When a lookup of an input fails, [getTxMessage] fails with the
    error of the lookup that fails first in the order the lookups complete,
    whatever the other lookups and the outputs do. *)
Theorem getTxMessage_first_rejection client rpcUrl commitmentCodeHash txHash txData
  (pre post : list (nat * CellInput)) (i : nat) (input : CellInput) (e : JsError) :
  getTransaction client rpcUrl txHash = Ok (Some txData) ->
  completionOrder (resolved_at client rpcUrl txHash) (inputs (transaction txData))
  = pre ++ (i, input) :: post ->
  (forall p, In p pre -> exists c, cellOfInput client rpcUrl (snd p) = Ok c) ->
  cellOfInput client rpcUrl input = Throw e ->
  getTxMessage client rpcUrl commitmentCodeHash txHash = Throw e.
Proof.
  intros Ht Ho Hpre He. unfold getTxMessage. rewrite Ht. cbn [bind].
  unfold resolveInputs.
  pose proof (runCallbacks_log client rpcUrl commitmentCodeHash (transaction txData)
                (completionOrder (resolved_at client rpcUrl txHash)
                   (inputs (transaction txData))) None) as Hl.
  destruct (runCallbacks _ _ _ _ _ _) as [log pw]. cbn [fst] in Hl. subst log.
  rewrite Ho, map_app. cbn [map fst snd]. rewrite He.
  unfold Promise_all. rewrite firstRejection_app; [reflexivity|].
  intros p Hp. apply in_map_iff in Hp as (q & <- & Hq). cbn [snd]. now apply Hpre.
Qed.

Lemma getTxMessage_first_rejection_witness :
  getTxMessage Sample.widerClient Sample.rpc Sample.commitment (str "0xf5")
  = Throw (Error (str "Previous tx not found: 0xee")).
Proof.
  apply (getTxMessage_first_rejection Sample.widerClient Sample.rpc Sample.commitment (str "0xf5")
           (Sample.committed Sample.orphan)
           [(0%nat, Sample.spend "0xf0" "0x0")] [(2%nat, Sample.spend "0xf0" "0x9")]
           1%nat (Sample.spend "0xee" "0x0")).
  - reflexivity.
  - reflexivity.
  - intros p [<- | []]. eexists. vm_compute. reflexivity.
  - reflexivity.
Defined.

Lemma find_all_false {A} (p : A -> bool) l :
  (forall x, In x l -> p x = false) -> find p l = None.
Proof.
  induction l as [|x l IH]; cbn [find]; intros H; [reflexivity|].
  rewrite (H x (or_introl eq_refl)). apply IH. intros y Hy. apply H. now right.
Qed.

Section PerAddress.

Local Abbreviation keyIs := (fun (k : jsstring) (e : jsstring * Balance) => eqb (fst e) k).

Lemma find_addTo a c u k (m : BalanceMap) :
  find (keyIs k) (map (addTo a c u) m) = option_map (addTo a c u) (find (keyIs k) m).
Proof.
  induction m as [|e m IH]; cbn [map find option_map]; [reflexivity|].
  assert (Hf : fst (addTo a c u e) = fst e).
  { unfold addTo. destruct (eqb (fst e) a); reflexivity. }
  rewrite Hf. destruct (eqb (fst e) k); [reflexivity | exact IH].
Qed.

Lemma find_absent k (m : BalanceMap) :
  hasKey m k = false -> find (keyIs k) m = None.
Proof.
  unfold hasKey. induction m as [|e m IH]; cbn [existsb find]; [reflexivity|].
  destruct (eqb (fst e) k); [discriminate | exact IH].
Qed.

Lemma find_present k (m : BalanceMap) :
  hasKey m k = true -> find (keyIs k) m <> None.
Proof.
  unfold hasKey. induction m as [|e m IH]; cbn [existsb find]; [discriminate|].
  destruct (eqb (fst e) k); [discriminate | exact IH].
Qed.

Lemma find_snoc k (m : BalanceMap) e :
  find (keyIs k) (m ++ [e])
  = match find (keyIs k) m with
    | Some x => Some x
    | None => if eqb (fst e) k then Some e else None
    end.
Proof.
  induction m as [|x m IH]; cbn [app find]; [reflexivity|].
  destruct (eqb (fst x) k); [reflexivity | exact IH].
Qed.

Lemma find_key k (m : BalanceMap) e : find (keyIs k) m = Some e -> fst e = k.
Proof. intros H. apply find_some in H as [_ H]. now apply eqb_eq. Qed.

Lemma updateBal_at (m m' : BalanceMap) a c u :
  updateBal m a c u = Ok m' ->
  forall k,
    ckbAt m' k = (ckbAt m k + if eqb a k then c else 0)%Z
    /\ udtAt m' k = (udtAt m k + if eqb a k then u else 0)%Z.
Proof.
  unfold updateBal. destruct (inherited a); [discriminate|].
  intros H k. inversion H as [H']. clear H H'.
  unfold ckbAt, udtAt, balOf.
  rewrite find_addTo.
  destruct (hasKey m a) eqn:Eh.
  - destruct (find (keyIs k) m) as [e|] eqn:Ef; cbn [option_map snd].
    + pose proof (find_key _ _ _ Ef) as Hk. unfold addTo. rewrite Hk.
      destruct (eqb k a) eqn:E1; destruct (eqb a k) eqn:E2; cbn [snd bal_ckb bal_udt];
        try (split; lia).
      * apply eqb_eq in E1. subst a. now rewrite eqb_refl in E2.
      * apply eqb_eq in E2. subst a. now rewrite eqb_refl in E1.
    + destruct (eqb a k) eqn:E2; [|split; lia].
      apply eqb_eq in E2. subst a. exfalso.
      now apply (find_present k m Eh).
  - rewrite find_snoc. cbn [fst].
    destruct (find (keyIs k) m) as [e|] eqn:Ef; cbn [option_map snd].
    + pose proof (find_key _ _ _ Ef) as Hk. unfold addTo. rewrite Hk.
      destruct (eqb k a) eqn:E1.
      * apply eqb_eq in E1. subst a. rewrite (find_absent k m Eh) in Ef. discriminate.
      * destruct (eqb a k) eqn:E2; [|split; lia].
        apply eqb_eq in E2. subst a. now rewrite eqb_refl in E1.
    + destruct (eqb a k) eqn:E2; cbn [option_map snd]; [|split; reflexivity].
      unfold addTo. cbn [fst snd]. rewrite eqb_refl. cbn. split; lia.
Qed.

Lemma forEach_updateBal_at (dc du : CellInfo -> Z) cells : forall (m m' : BalanceMap),
  forEachM (fun m c => updateBal m (cell_args c) (dc c) (du c)) cells m = Ok m' ->
  forall k,
    ckbAt m' k = (ckbAt m k + sumZ (map dc (filter (argsIs k) cells)))%Z
    /\ udtAt m' k = (udtAt m k + sumZ (map du (filter (argsIs k) cells)))%Z.
Proof.
  induction cells as [|c cells IH]; cbn [forEachM]; intros m m' H k.
  - inversion H; subst. cbn. split; lia.
  - destruct (updateBal m (cell_args c) (dc c) (du c)) as [m1|] eqn:E; [|discriminate].
    cbn [bind] in H. destruct (updateBal_at _ _ _ _ _ E k) as [C1 U1].
    destruct (IH _ _ H k) as [C2 U2]. rewrite C2, U2, C1, U1.
    unfold argsIs, sumZ. cbn [filter]. cbv beta.
    destruct (eqb (cell_args c) k); cbn [map fold_right]; split; lia.
Qed.

Lemma changeOf_rendered (m : BalanceMap) k :
  NoDup (map fst m) ->
  changeOf k (map renderBalance (filter nonZero m))
  = if (Z.eqb (ckbAt m k) 0 && Z.eqb (udtAt m k) 0)%bool then None
    else Some {| ckb := toString (ckbAt m k); udt := toString (udtAt m k) |}.
Proof.
  unfold changeOf, ckbAt, udtAt, balOf.
  induction m as [|e m IH]; intros Hnd; [reflexivity|].
  inversion Hnd as [|? ? Hnotin Hnd']; subst. specialize (IH Hnd').
  cbn [filter find].
  destruct (eqb (fst e) k) eqn:Ek.
  - apply eqb_eq in Ek. cbn [option_map snd].
    assert (Hnone : find (fun x : jsstring * BalanceChange => eqb (fst x) k)
                      (map renderBalance (filter nonZero m)) = None).
    { apply find_all_false. intros x Hx. apply in_map_iff in Hx as (y & <- & Hy).
      apply filter_In in Hy as [Hy _]. cbn [renderBalance fst].
      destruct (eqb (fst y) k) eqn:E; [|reflexivity].
      apply eqb_eq in E. exfalso. apply Hnotin. rewrite Ek, <- E. now apply in_map. }
    unfold nonZero at 1.
    destruct (Z.eqb (bal_ckb (snd e)) 0), (Z.eqb (bal_udt (snd e)) 0);
      cbn [negb orb andb map find renderBalance fst]; rewrite ?Ek, ?eqb_refl, ?Hnone;
      reflexivity.
  - destruct (nonZero e); [|exact IH].
    cbn [map find renderBalance fst]. rewrite Ek. exact IH.
Qed.

End PerAddress.

Lemma buildMessage_balances client rpcUrl txData ins pw msg :
  buildMessage client rpcUrl txData ins pw = Ok msg ->
  exists balanceMap : BalanceMap,
    NoDup (map fst balanceMap)
    /\ balance_changes msg = map renderBalance (filter nonZero balanceMap)
    /\ forall k, ckbAt balanceMap k = netCkb k ins (output_cells msg)
                 /\ udtAt balanceMap k = netUdt k ins (output_cells msg).
Proof.
  unfold buildMessage.
  destruct (mapM _ (indexed _)) as [outs|] eqn:Eo; [|discriminate]. cbn [bind].
  match goal with
  | |- context [forEachM ?f ins ?m] => destruct (forEachM f ins m) as [m1|] eqn:E1
  end; [|discriminate]. cbn [bind].
  match goal with
  | |- context [forEachM ?f outs ?m] => destruct (forEachM f outs m) as [m2|] eqn:E2
  end; [|discriminate]. cbn [bind].
  destruct (blockMeta client rpcUrl txData) as [bn bt].
  intros H. inversion H; subst msg; clear H. cbn [balance_changes output_cells].
  destruct (forEach_updateBal _ _ ins [] m1 (NoDup_nil _) E1) as (N1 & _).
  destruct (forEach_updateBal _ _ outs m1 m2 N1 E2) as (N2 & _).
  exists m2. split; [exact N2|]. split; [reflexivity|]. intros k.
  destruct (forEach_updateBal_at _ _ _ _ _ E1 k) as [C1 U1].
  destruct (forEach_updateBal_at _ _ _ _ _ E2 k) as [C2 U2].
  rewrite C2, U2, C1, U1. unfold netCkb, netUdt.
  rewrite !sumZ_opp.
  rewrite !(map_ext udtOrZero udtOf udtOrZero_udtOf).
  change (ckbAt [] k) with 0%Z. change (udtAt [] k) with 0%Z. split; lia.
Qed.

(** X11. In a build that returns, [balance_changes] has one entry per key,
    and the entry of an address is its net change: the capacities (and UDT
    capacities) of the output cells under its lock args minus those of the
    input cells under them, as decimal strings; an address whose two net
    changes are zero, or which owns no cell of the transaction, has no
    entry. *)
Theorem getTxMessage_balance_per_address client rpcUrl commitmentCodeHash txHash msg :
  getTxMessage client rpcUrl commitmentCodeHash txHash = Ok msg ->
  NoDup (map fst (balance_changes msg))
  /\ forall k,
       let dCkb := netCkb k (input_cells msg) (output_cells msg) in
       let dUdt := netUdt k (input_cells msg) (output_cells msg) in
       changeOf k (balance_changes msg)
       = if (Z.eqb dCkb 0 && Z.eqb dUdt 0)%bool then None
         else Some {| ckb := toString dCkb; udt := toString dUdt |}.
Proof.
  intros H.
  destruct (getTxMessage_inv _ _ _ _ _ H) as (txData & resolved & _ & _ & _ & Hb).
  destruct (buildMessage_balances _ _ _ _ _ _ Hb) as (bm & Hnd & Hbc & Hat).
  rewrite Hbc. split.
  - rewrite map_map. cbn [renderBalance fst].
    assert (Hsub : forall l : BalanceMap, NoDup (map fst l) ->
              NoDup (map (fun x => fst x) (filter nonZero l))).
    { induction l as [|e l IH]; cbn [filter map]; intros Hl; [constructor|].
      inversion Hl as [|? ? Hn Hl']; subst.
      destruct (nonZero e); [|now apply IH]. cbn [map]. constructor; [|now apply IH].
      intros Hin. apply Hn. apply in_map_iff in Hin as (y & Hy & Hyin).
      apply filter_In in Hyin as [Hyin _]. rewrite <- Hy. now apply in_map. }
    now apply Hsub.
  - intros k. cbv zeta. rewrite (changeOf_rendered bm k Hnd).
    destruct (Hat k) as [-> ->]. reflexivity.
Qed.

Lemma getTxMessage_balance_per_address_witness :
  exists msg,
    getTxMessage Sample.client Sample.rpc Sample.commitment (str "0xf1") = Ok msg
    /\ changeOf (str "0xa1") (balance_changes msg)
       = Some {| ckb := str "-1000"; udt := str "0" |}
    /\ changeOf (str "0xb1") (balance_changes msg)
       = Some {| ckb := str "990"; udt := str "0" |}
    /\ changeOf (str "0xc9") (balance_changes msg) = None.
Proof.
  eexists. split; [vm_compute; reflexivity|].
  match goal with
  | |- changeOf _ (balance_changes ?m) = _ /\ _ =>
      destruct (getTxMessage_balance_per_address
                  Sample.client Sample.rpc Sample.commitment (str "0xf1") m)
        as (_ & Hk); [vm_compute; reflexivity|]
  end.
  split; [|split].
  - rewrite (Hk (str "0xa1")). vm_compute. reflexivity.
  - rewrite (Hk (str "0xb1")). vm_compute. reflexivity.
  - rewrite (Hk (str "0xc9")). vm_compute. reflexivity.
Defined.

Lemma getTxMessage_returns_iff_witness :
  exists msg, getTxMessage Sample.client Sample.rpc Sample.commitment (str "0xf1") = Ok msg.
Proof.
  apply (proj2 (getTxMessage_returns_iff Sample.client Sample.rpc Sample.commitment
                  (str "0xf1"))).
  exists (Sample.committed Sample.payment).
  eexists. eexists. split; [reflexivity|]. split; [vm_compute; reflexivity|].
  split; [vm_compute; reflexivity|].
  intros c [<- | [<- | []]]; reflexivity.
Defined.

(** X13. What [fetchAndParseTx] returns is read from the first input and
    from output 0 of the transaction that input spends, whatever output
    index the input names: the lock args are those of output 0, the witness
    is witness 0, and the version is ['1'] exactly when those lock args hold
    the version field and it reads 1 little-endian, and ['2'] otherwise. *)
Theorem fetchAndParseTx_reads_first_output client rpcUrl txHash r :
  fetchAndParseTx client rpcUrl txHash = Ok r ->
  exists tx input0 prevTx output0,
    getTransaction client rpcUrl txHash = Ok (Some tx)
    /\ nth_error (inputs (transaction tx)) 0 = Some input0
    /\ getTransaction client rpcUrl (tx_hash (previous_output input0)) = Ok (Some prevTx)
    /\ nth_error (outputs (transaction prevTx)) 0 = Some output0
    /\ lockArgs r = args (lock output0)
    /\ witness r = nth_error (witnesses (transaction tx)) 0
    /\ (fetched_version r = str "1" \/ fetched_version r = str "2")
    /\ (fetched_version r = str "1" <->
        (72 <= length (strip0x (lockArgs r)))%nat
        /\ littleEndianHexToBigInt (substring (strip0x (lockArgs r)) 56 72) = Ok 1%Z).
Proof.
  intros H. pose proof (fetchAndParseTx_version client rpcUrl txHash r H) as [Hv Hiff].
  unfold fetchAndParseTx in H.
  destruct (getTransaction client rpcUrl txHash) as [[tx|]|] eqn:Et; cbn [bind] in H;
    try discriminate.
  destruct (nth_error (inputs (transaction tx)) 0) as [input0|] eqn:Ei; [|discriminate].
  destruct (getTransaction client rpcUrl (tx_hash (previous_output input0)))
    as [[prevTx|]|] eqn:Ep; cbn [bind] in H; try discriminate.
  destruct (nth_error (outputs (transaction prevTx)) 0) as [output0|] eqn:Eo; [|discriminate].
  exists tx, input0, prevTx, output0.
  split; [reflexivity|]. split; [exact Ei|]. split; [exact Ep|]. split; [exact Eo|].
  match type of H with
  | (version <- ?v ;; _) = _ => destruct v as [ver|]; cbn [bind] in H; [|discriminate]
  end.
  assert (Hl : lockArgs r = args (lock output0)) by (inversion H; reflexivity).
  assert (Hw : witness r = nth_error (witnesses (transaction tx)) 0)
    by (inversion H; reflexivity).
  split; [exact Hl|]. split; [exact Hw|]. split; [exact Hv | exact Hiff].
Qed.

Lemma fetchAndParseTx_reads_first_output_witness :
  exists r,
    fetchAndParseTx Sample.client Sample.rpc (str "0xf3") = Ok r
    /\ nth_error (inputs Sample.truncated) 0 = Some (Sample.spend "0xf0" "0x2")
    /\ lockArgs r = str "0xa1"
    /\ fetched_version r = str "2".
Proof.
  eexists. split; [vm_compute; reflexivity|]. split; [reflexivity|].
  match goal with
  | |- lockArgs ?r = _ /\ _ =>
      destruct (fetchAndParseTx_reads_first_output Sample.client Sample.rpc (str "0xf3") r)
        as (tx & input0 & prevTx & output0 & Et & Ei & Ep & Eo & Hl & _);
        [vm_compute; reflexivity|]
  end.
  split; [|reflexivity].
  rewrite Hl. vm_compute in Et. inversion Et; subst tx.
  vm_compute in Ei. inversion Ei; subst input0.
  vm_compute in Ep. inversion Ep; subst prevTx.
  vm_compute in Eo. inversion Eo; subst output0. reflexivity.
Defined.

(** ** BalanceAggregator: every cell is counted once *)

Section Counting.

Variable udtCfgInfos : list UdtCfgInfo.

Local Abbreviation countSum := (fun m : UdtMap => fold_right (fun e n => (cellCount (snd e) + n)%nat) 0%nat m).

(** What every entry of the UDT map satisfies. *)
Local Abbreviation sound :=
  (fun e : jsstring * UdtBalance =>
     fst e = udtKey (typeScript (snd e))
     /\ (1 <= cellCount (snd e))%nat
     /\ exists u, In u udtCfgInfos /\ name (snd e) = cfg_name u
                  /\ typeScript (snd e) = script u).

Lemma mapGet_none_keys (m : UdtMap) key : mapGet m key = None -> ~ In key (map fst m).
Proof.
  induction m as [|[k v] m IH]; cbn [mapGet map fst In]; intros H; [tauto|].
  intros [Hk | Hin].
  - subst k. now rewrite eqb_refl in H.
  - destruct (eqb k key); [discriminate | now apply IH].
Qed.

Lemma mapBump_keys (m : UdtMap) key amount : map fst (mapBump m key amount) = map fst m.
Proof.
  induction m as [|[k v] m IH]; cbn [mapBump map fst]; [reflexivity|].
  destruct (eqb k key); cbn [map fst]; [reflexivity | now rewrite IH].
Qed.

Lemma mapBump_count (m : UdtMap) key amount v :
  mapGet m key = Some v -> countSum (mapBump m key amount) = S (countSum m).
Proof.
  induction m as [|[k w] m IH]; cbn [mapGet mapBump]; intros H; [discriminate|].
  destruct (eqb k key); cbn [fold_right snd cellCount].
  - reflexivity.
  - rewrite (IH H). lia.
Qed.

Lemma mapBump_sound (m : UdtMap) key amount :
  Forall sound m -> Forall sound (mapBump m key amount).
Proof.
  induction 1 as [|[k w] m Hw Hm IH]; cbn [mapBump]; [constructor|].
  destruct (eqb k key).
  - constructor; [|exact Hm].
    cbn [fst snd typeScript cellCount name] in *.
    destruct Hw as (H1 & H2 & H3). split; [exact H1|]. split; [lia | exact H3].
  - constructor; [exact Hw | exact IH].
Qed.

Lemma accountCell_counts t cell t' :
  accountCell udtCfgInfos t cell = Ok t' ->
  NoDup (map fst (tot_udtMap t)) -> Forall sound (tot_udtMap t) ->
  NoDup (map fst (tot_udtMap t')) /\ Forall sound (tot_udtMap t')
  /\ (tot_ckbCellCount t' + countSum (tot_udtMap t')
      = S (tot_ckbCellCount t + countSum (tot_udtMap t)))%nat.
Proof.
  unfold accountCell, countAsCkb. intros H Hnd Hs.
  assert (Hckb : forall r, (cap <- BigInt (live_capacity cell) ;;
                            Ok {| tot_ckbBalance := tot_ckbBalance t + cap;
                                  tot_ckbCellCount := S (tot_ckbCellCount t);
                                  tot_udtMap := tot_udtMap t |}) = Ok r ->
            NoDup (map fst (tot_udtMap r)) /\ Forall sound (tot_udtMap r)
            /\ (tot_ckbCellCount r + countSum (tot_udtMap r)
                = S (tot_ckbCellCount t + countSum (tot_udtMap t)))%nat).
  { intros r Hr. destruct (BigInt (live_capacity cell)); [|discriminate].
    cbn [bind] in Hr. inversion Hr; subst r. cbn. auto. }
  destruct (live_type cell) as [ty|]; [|now apply Hckb].
  destruct (find _ udtCfgInfos) as [u|] eqn:Ef; [|now apply Hckb].
  destruct (udtAmount cell) as [amount|]; [|discriminate]. cbn [bind] in H.
  inversion H; subst t'; clear H. cbn [tot_udtMap tot_ckbCellCount].
  destruct (mapGet (tot_udtMap t) (udtKey (script u))) as [v|] eqn:Eg.
  - rewrite mapBump_keys, (mapBump_count _ _ _ _ Eg).
    split; [exact Hnd|]. split; [now apply mapBump_sound | lia].
  - split; [|split].
    + rewrite map_app. cbn [map fst]. apply NoDup_app; [exact Hnd | repeat constructor; auto|].
      intros x Hx [<- | []]. exact (mapGet_none_keys _ _ Eg Hx).
    + apply Forall_app. split; [exact Hs|]. constructor; [|constructor].
      cbn [fst snd typeScript cellCount name]. split; [reflexivity|]. split; [lia|].
      exists u. apply find_some in Ef as [Hin _]. auto.
    + rewrite fold_right_app. cbn [fold_right snd cellCount].
      assert (Hfold : forall (m : UdtMap) n,
                fold_right (fun e k => (cellCount (snd e) + k)%nat) n m
                = (countSum m + n)%nat).
      { induction m as [|e m IHm]; intros n; cbn [fold_right]; [reflexivity|].
        rewrite IHm. lia. }
      rewrite Hfold. lia.
Qed.

Lemma forEach_accountCell_counts cells : forall t t',
  forEachM (accountCell udtCfgInfos) cells t = Ok t' ->
  NoDup (map fst (tot_udtMap t)) -> Forall sound (tot_udtMap t) ->
  NoDup (map fst (tot_udtMap t')) /\ Forall sound (tot_udtMap t')
  /\ (tot_ckbCellCount t' + countSum (tot_udtMap t')
      = length cells + (tot_ckbCellCount t + countSum (tot_udtMap t)))%nat.
Proof.
  induction cells as [|c cells IH]; cbn [forEachM length]; intros t t' H Hnd Hs.
  - inversion H; subst. auto.
  - destruct (accountCell udtCfgInfos t c) as [t1|] eqn:E; [|discriminate].
    cbn [bind] in H. destruct (accountCell_counts _ _ _ E Hnd Hs) as (N1 & S1 & C1).
    destruct (IH _ _ H N1 S1) as (N2 & S2 & C2).
    split; [exact N2|]. split; [exact S2 | lia].
Qed.

End Counting.

(** X14. An account that [computeAccountBalance] returns counts every live
    cell exactly once: the CKB cell count and the cell counts of the UDT
    entries add up to the number of cells. There is one entry per UDT key,
    each for a registered UDT (its name and type script) and holding at
    least one cell. *)
Theorem computeAccountBalance_counts cells udtCfgInfos network ab :
  computeAccountBalance cells udtCfgInfos network = Ok ab ->
  (ckbCellCount ab + fold_right (fun e n => cellCount e + n) 0 (udtBalances ab)
   = length cells)%nat
  /\ NoDup (map (fun e => udtKey (typeScript e)) (udtBalances ab))
  /\ Forall (fun e => (1 <= cellCount e)%nat
                      /\ exists u, In u udtCfgInfos /\ name e = cfg_name u
                                   /\ typeScript e = script u) (udtBalances ab).
Proof.
  unfold computeAccountBalance.
  destruct (forEachM _ cells _) as [t|] eqn:E; cbn [bind]; [|discriminate].
  intros H. inversion H; subst ab; clear H. cbn [ckbCellCount udtBalances].
  destruct (forEach_accountCell_counts udtCfgInfos cells _ _ E) as (N & S & C);
    [constructor | constructor |]. cbn [tot_udtMap tot_ckbCellCount fold_right] in C.
  split; [|split].
  - assert (Hsum : forall m : UdtMap,
              fold_right (fun e n => (cellCount e + n)%nat) 0%nat (map snd m)
              = fold_right (fun e n => (cellCount (snd e) + n)%nat) 0%nat m).
    { induction m as [|e m IH]; cbn [map fold_right]; [reflexivity|]. now rewrite IH. }
    rewrite Hsum. lia.
  - assert (Hk : map (fun e => udtKey (typeScript e)) (map snd (tot_udtMap t))
                 = map fst (tot_udtMap t)).
    { rewrite map_map. apply map_ext_in. intros e He.
      rewrite Forall_forall in S. symmetry. exact (proj1 (S e He)). }
    rewrite Hk. exact N.
  - apply Forall_map. eapply Forall_impl; [|exact S].
    intros e (_ & H1 & H2). auto.
Qed.

Lemma computeAccountBalance_counts_witness :
  exists ab,
    computeAccountBalance Sample.account Sample.registered testnet = Ok ab
    /\ (ckbCellCount ab + fold_right (fun e n => cellCount e + n) 0 (udtBalances ab)
        = 3)%nat.
Proof.
  eexists. split; [vm_compute; reflexivity|].
  match goal with
  | |- (ckbCellCount ?ab + _ = _)%nat =>
      exact (proj1 (computeAccountBalance_counts Sample.account Sample.registered testnet ab
                      ltac:(vm_compute; reflexivity)))
  end.
Defined.

Lemma forEachM_ok_iff {S A} (f : S -> A -> JsResult S) (ok : A -> Prop) xs :
  (forall s x, (exists s', f s x = Ok s') <-> ok x) ->
  forall s, (exists s', forEachM f xs s = Ok s') <-> Forall ok xs.
Proof.
  intros Hf. induction xs as [|x xs IH]; intros s; cbn [forEachM].
  - split; [constructor | eauto].
  - split.
    + intros [s' H]. destruct (f s x) as [s1|] eqn:E; [|discriminate].
      cbn [bind] in H. constructor.
      * apply (Hf s x). eauto.
      * apply (IH s1). eauto.
    + intros H. inversion H as [|? ? Hx Hxs]; subst.
      apply (Hf s x) in Hx as [s1 ->]. cbn [bind]. now apply IH.
Qed.

(** X15. [computeAccountBalance] returns exactly when, for every cell, the
    one field it reads parses: the capacity of a cell counted as CKB, the
    amount of a cell of a registered UDT. The capacity of a UDT cell is
    never read. *)
Theorem computeAccountBalance_returns_iff cells udtCfgInfos network :
  (exists ab, computeAccountBalance cells udtCfgInfos network = Ok ab)
  <-> Forall (fun cell =>
                if countsAsCkb udtCfgInfos cell
                then exists cap, BigInt (live_capacity cell) = Ok cap
                else exists amount, udtAmount cell = Ok amount) cells.
Proof.
  unfold computeAccountBalance.
  set (t0 := {| tot_ckbBalance := 0; tot_ckbCellCount := 0; tot_udtMap := [] |}).
  assert (Hcell : forall t cell,
            (exists t', accountCell udtCfgInfos t cell = Ok t')
            <-> (if countsAsCkb udtCfgInfos cell
                 then exists cap, BigInt (live_capacity cell) = Ok cap
                 else exists amount, udtAmount cell = Ok amount)).
  2:{ rewrite <- (forEachM_ok_iff (accountCell udtCfgInfos) _ cells Hcell t0).
      destruct (forEachM (accountCell udtCfgInfos) cells t0) as [t|e]; cbn [bind].
      - split; intros _; eexists; reflexivity.
      - split; intros [x H]; discriminate H. }
  - intros t cell. unfold accountCell, countsAsCkb, matchedUdtOf, countAsCkb.
    assert (Hckb : (exists s', (cap <- BigInt (live_capacity cell) ;;
                                Ok {| tot_ckbBalance := tot_ckbBalance t + cap;
                                      tot_ckbCellCount := S (tot_ckbCellCount t);
                                      tot_udtMap := tot_udtMap t |}) = Ok s')
                   <-> exists cap, BigInt (live_capacity cell) = Ok cap).
    { destruct (BigInt (live_capacity cell)) as [cap|e]; cbn [bind].
      - split; intros _; eexists; reflexivity.
      - split; intros [x H]; discriminate H. }
    destruct (live_type cell) as [ty|]; cbn [isNull]; [|exact Hckb].
    destruct (find _ udtCfgInfos) as [u|]; cbn [isNull]; [|exact Hckb].
    destruct (udtAmount cell) as [amount|e]; cbn [bind].
    + split; intros _; eexists; reflexivity.
    + split; intros [x H]; discriminate H.
Qed.

Lemma computeAccountBalance_returns_iff_witness :
  exists ab,
    computeAccountBalance
      [Sample.live "not a number" (Some Sample.xudtLower) "0x2a000000000000000000000000000000"]
      Sample.registered testnet = Ok ab.
Proof.
  apply (proj2 (computeAccountBalance_returns_iff _ Sample.registered testnet)).
  constructor; [|constructor]. exists 42%Z. reflexivity.
Defined.

(** ** format.ts *)

(** X16. [shorten] leaves a string of at most [left + right + 2] code units
    alone. A longer one becomes its first [left] code units, the ellipsis
    and its last [right] code units when [right] is positive: [left + right
    + 1] code units, fewer than before. With [right = 0] the ellipsis is
    followed by the whole string, so the result is longer than the
    input. *)
Theorem shorten_result {A} (ellipsis : A) (value : list A) (left right : nat) :
  ((length value <= left + right + 2)%nat -> shorten ellipsis value left right = value)
  /\ ((left + right + 2 < length value)%nat -> (0 < right)%nat ->
      shorten ellipsis value left right
      = firstn left value ++ [ellipsis] ++ skipn (length value - right) value
      /\ length (shorten ellipsis value left right) = (left + right + 1)%nat
      /\ (length (shorten ellipsis value left right) < length value)%nat)
  /\ ((left + 2 < length value)%nat ->
      shorten ellipsis value left 0 = firstn left value ++ [ellipsis] ++ value
      /\ length (shorten ellipsis value left 0) = (left + 1 + length value)%nat).
Proof.
  unfold shorten. split; [|split].
  - intros H. destruct (Nat.leb_spec (length value) (left + right + 2)); [reflexivity | lia].
  - intros H Hr. destruct (Nat.leb_spec (length value) (left + right + 2)); [lia|].
    destruct right as [|r]; [lia|]. cbn [sliceEnd].
    split; [reflexivity|].
    rewrite !length_app, length_firstn, length_skipn. cbn [length]. lia.
  - intros H. destruct (Nat.leb_spec (length value) (left + 0 + 2)); [lia|].
    cbn [sliceEnd]. split; [reflexivity|].
    rewrite !length_app, length_firstn. cbn [length]. lia.
Qed.

Lemma shorten_result_witness :
  shorten "."%char (str "0x12") 10 6 = str "0x12"
  /\ shorten "."%char (str "0123456789abcdef") 3 2 = str "012.ef"
  /\ shorten "."%char (str "0123456789") 4 0 = str "0123.0123456789".
Proof.
  split; [|split].
  - apply (proj1 (shorten_result "."%char (str "0x12") 10 6)).
    apply Nat.leb_le. reflexivity.
  - apply (proj1 (proj1 (proj2 (shorten_result "."%char (str "0123456789abcdef") 3 2))
                    ltac:(apply Nat.ltb_lt; reflexivity)
                    ltac:(apply Nat.ltb_lt; reflexivity))).
  - apply (proj1 (proj2 (proj2 (shorten_result "."%char (str "0123456789") 4 0))
                    ltac:(apply Nat.ltb_lt; reflexivity))).
Defined.

(** ** WitnessCodec: the layout of a version 2 witness *)

Lemma parseUnlocks_length data : forall n o, length (parseUnlocks n data o) = n.
Proof.
  induction n as [|n IH]; intros o; cbn [parseUnlocks]; [reflexivity|].
  destruct (parseUnlock data o) as [u o'] eqn:E. cbn [length]. now rewrite IH.
Qed.

Lemma le_field data a b :
  isHex data = true -> (a < b)%nat -> (b <= length data)%nat -> Nat.even (b - a) = true ->
  littleEndianHexToBigInt (substring data a b) = Ok (leValue (hexBytes (substring data a b))).
Proof.
  intros Hhex Hab Hb Hev.
  rewrite littleEndianHexToBigInt_hex;
    [|apply substring_nonempty; lia | now apply isHex_substring].
  rewrite padEven_even; [reflexivity|]. now rewrite substring_length by lia.
Qed.

(** X17. [parseWitnessV2] on a hex witness with a non-zero unlock count that
    holds the announced HTLC records and the two settlement entries: record
    [k] is read from the 85 bytes at hex offset [36 + 170 k]; after the last
    record come the remote party's 20-byte pubkey hash and 16-byte
    little-endian amount, then the local party's, and the unlocks are read
    from the digit after them, as many as the unlock count says. *)
Theorem parseWitnessV2_settlement_layout (data hex : jsstring) :
  isHex data = true ->
  hex = data \/ hex = str "0x" ++ data ->
  let unlockCount := hexValue (substring data 32 34) in
  let count := Z.to_nat (hexValue (substring data 34 36)) in
  let o := (36 + 170 * count)%nat in
  unlockCount <> 0%Z ->
  (o + 144 <= length data)%nat ->
  exists us,
    parseWitnessV2 hex
    = Ok {| empty_witness_args := str "0x" ++ substring data 0 32;
            unlock_type := None;
            unlock_count := Some (Int unlockCount);
            revocation := None;
            non_pending_htlc := None;
            pending_htlc := None;
            settlement :=
              Some {| st_pending_htlc_count := Int (hexValue (substring data 34 36));
                      st_htlcs := map (fun k => htlcAt data (36 + 170 * k)) (seq 0 count);
                      settlement_remote_pubkey_hash :=
                        str "0x" ++ substring data o (o + 40);
                      settlement_remote_amount :=
                        toString (leValue (hexBytes (substring data (o + 40) (o + 72))));
                      settlement_local_pubkey_hash :=
                        str "0x" ++ substring data (o + 72) (o + 112);
                      settlement_local_amount :=
                        toString (leValue (hexBytes (substring data (o + 112) (o + 144))));
                      unlocks := us |};
            error := None |}
    /\ us = parseUnlocks (Z.to_nat unlockCount) data (o + 144)
    /\ length us = Z.to_nat unlockCount.
Proof.
  intros Hhex Hin unlockCount count o H0 Hlen.
  exists (parseUnlocks (Z.to_nat unlockCount) data (o + 144)).
  split; [|split; [reflexivity | apply parseUnlocks_length]].
  unfold parseWitnessV2. rewrite (strip0x_either data hex Hhex Hin). cbn [Nat.add].
  assert (Hu : parseInt16 (substring data 32 34) = Int unlockCount).
  { apply parseInt16_hex; [apply substring_nonempty; unfold o in Hlen; lia|].
    now apply isHex_substring. }
  assert (Hc : parseInt16 (substring data 34 36) = Int (hexValue (substring data 34 36))).
  { apply parseInt16_hex; [apply substring_nonempty; unfold o in Hlen; lia|].
    now apply isHex_substring. }
  rewrite Hu, Hc. cbn [numberIs iterations].
  destruct (Z.eqb_spec unlockCount 0) as [|_]; [contradiction|].
  fold count. rewrite (parseHtlcs_at data Hhex count 36) by (unfold o in Hlen; lia).
  cbn [bind]. fold o.
  replace (o + 40 + 32)%nat with (o + 72)%nat by lia.
  replace (o + 72 + 40)%nat with (o + 112)%nat by lia.
  replace (o + 112 + 32)%nat with (o + 144)%nat by lia.
  rewrite (le_field data (o + 40) (o + 72) Hhex) by
    (try lia; replace (o + 72 - (o + 40))%nat with 32%nat by lia; reflexivity).
  cbn [bind].
  rewrite (le_field data (o + 112) (o + 144) Hhex) by
    (try lia; replace (o + 144 - (o + 112))%nat with 32%nat by lia; reflexivity).
  cbn [bind]. reflexivity.
Qed.

Lemma parseWitnessV2_settlement_layout_witness :
  exists w s,
    parseWitnessV2
      (str "0x00000000000000000000000000000000010011111111111111111111111111111111111111116400000000000000000000000000000022222222222222222222222222222222222222222c01000000000000000000000000000007")
    = Ok w
    /\ settlement w = Some s
    /\ st_htlcs s = []
    /\ settlement_remote_amount s = str "100"
    /\ settlement_local_amount s = str "300"
    /\ map ul_unlock_type (unlocks s) = [Int 7].
Proof.
  destruct (parseWitnessV2_settlement_layout
              (str "00000000000000000000000000000000010011111111111111111111111111111111111111116400000000000000000000000000000022222222222222222222222222222222222222222c01000000000000000000000000000007")
              (str "0x00000000000000000000000000000000010011111111111111111111111111111111111111116400000000000000000000000000000022222222222222222222222222222222222222222c01000000000000000000000000000007")
              eq_refl (or_intror eq_refl))
    as (us & Hw & Hus & _).
  - vm_compute. discriminate.
  - apply Nat.leb_le. reflexivity.
  - eexists. eexists. split; [exact Hw|]. split; [reflexivity|].
    cbn [st_htlcs settlement_remote_amount settlement_local_amount unlocks].
    rewrite Hus. repeat split; vm_compute; reflexivity.
Defined.

(** X18. [parseWitnessV2] on a hex witness with unlock count 0 that holds
    the 8 version bytes: the version is those bytes read as a big-endian
    integer, in decimal; the pubkey is the next 32 bytes and the signature
    is everything after them. *)
Theorem parseWitnessV2_revocation_layout (data hex : jsstring) :
  isHex data = true ->
  hex = data \/ hex = str "0x" ++ data ->
  hexValue (substring data 32 34) = 0%Z ->
  (50 <= length data)%nat ->
  parseWitnessV2 hex
  = Ok {| empty_witness_args := str "0x" ++ substring data 0 32;
          unlock_type := None;
          unlock_count := Some (Int 0);
          revocation :=
            Some {| rev_version := toString (beValue (hexBytes (substring data 34 50)));
                    rev_pubkey := str "0x" ++ substring data 50 114;
                    rev_signature := str "0x" ++ substringFrom data 114 |};
          non_pending_htlc := None;
          pending_htlc := None;
          settlement := None;
          error := None |}.
Proof.
  intros Hhex Hin H0 Hlen.
  unfold parseWitnessV2. rewrite (strip0x_either data hex Hhex Hin). cbn [Nat.add].
  assert (Hu : parseInt16 (substring data 32 34) = Int 0).
  { rewrite <- H0. apply parseInt16_hex; [apply substring_nonempty; lia|].
    now apply isHex_substring. }
  rewrite Hu. cbn [numberIs Z.eqb].
  rewrite BigInt_0x_hex; [|apply substring_nonempty; lia | now apply isHex_substring].
  cbn [bind]. rewrite hexValue_beValue by (now rewrite substring_length by lia).
  reflexivity.
Qed.

Lemma parseWitnessV2_revocation_layout_witness :
  exists w r,
    parseWitnessV2 (str "0x00000000000000000000000000000000000000000000000100aabb") = Ok w
    /\ revocation w = Some r
    /\ rev_version r = str "256"
    /\ rev_pubkey r = str "0xaabb"
    /\ rev_signature r = str "0x".
Proof.
  eexists. eexists. split.
  - apply (parseWitnessV2_revocation_layout
             (str "00000000000000000000000000000000000000000000000100aabb")
             (str "0x00000000000000000000000000000000000000000000000100aabb")
             eq_refl (or_intror eq_refl) eq_refl).
    apply Nat.leb_le. reflexivity.
  - split; [reflexivity|]. repeat split; vm_compute; reflexivity.
Defined.

(** ** BalanceAggregator: what each entry holds *)

Lemma mapGet_in (m : UdtMap) k v :
  NoDup (map fst m) -> In (k, v) m -> mapGet m k = Some v.
Proof.
  induction m as [|[k' v'] m IH]; cbn [map fst mapGet In]; intros Hnd Hin; [contradiction|].
  inversion Hnd as [|? ? Hnot Hnd']; subst.
  destruct Hin as [Heq | Hin].
  - inversion Heq; subst. now rewrite eqb_refl.
  - destruct (eqb k' k) eqn:Ek; [|now apply IH].
    apply eqb_eq in Ek. subst k'. exfalso. apply Hnot.
    apply (in_map fst) in Hin. exact Hin.
Qed.

Lemma mapGet_some_in (m : UdtMap) k v : mapGet m k = Some v -> In (k, v) m.
Proof.
  induction m as [|[k' v'] m IH]; cbn [mapGet In]; intros H; [discriminate|].
  destruct (eqb k' k) eqn:Ek.
  - apply eqb_eq in Ek. inversion H; subst. now left.
  - right. now apply IH.
Qed.

(** X19. The account [computeAccountBalance] returns: the CKB balance and
    cell count are those of the cells without a registered type script; every
    UDT entry holds the summed amounts and the number of the cells whose
    first matching registered script has the entry's key
    [code_hash:args]; and every cell of a registered UDT is in the entry
    with the key of its matched script. Two registered scripts with the
    same key share one entry. *)
Theorem computeAccountBalance_entries cells udtCfgInfos network ab :
  computeAccountBalance cells udtCfgInfos network = Ok ab ->
  ckbBalance ab = sumZ (map capacityOf (filter (countsAsCkb udtCfgInfos) cells))
  /\ ckbCellCount ab = length (filter (countsAsCkb udtCfgInfos) cells)
  /\ Forall (fun e =>
               let key := udtKey (typeScript e) in
               balance e = sumZ (map amountOf (filter (countsUnder udtCfgInfos key) cells))
               /\ cellCount e = length (filter (countsUnder udtCfgInfos key) cells))
            (udtBalances ab)
  /\ forall cell u,
       In cell cells -> matchedUdtOf udtCfgInfos cell = Some u ->
       exists e, In e (udtBalances ab) /\ udtKey (typeScript e) = udtKey (script u).
Proof.
  unfold computeAccountBalance.
  destruct (forEachM _ cells _) as [t|] eqn:E; cbn [bind]; [|discriminate].
  intros H. inversion H; subst ab; clear H. cbn [ckbBalance ckbCellCount udtBalances].
  destruct (forEach_accountCell _ _ _ _ E) as (C & N & U). cbn in C, N.
  destruct (forEach_accountCell_counts udtCfgInfos cells _ _ E) as (Nd & Sd & _);
    [constructor | constructor |].
  split; [exact C|]. split; [exact N|]. split.
  - apply Forall_forall. intros e He. apply in_map_iff in He as ([k v] & <- & Hin).
    cbn [snd]. rewrite Forall_forall in Sd. destruct (Sd _ Hin) as (Hk & _).
    cbn [fst snd] in Hk. subst k.
    destruct (U (udtKey (typeScript v))) as [B K].
    unfold udtBalanceOf, udtCellCountOf in B, K.
    rewrite (mapGet_in _ _ _ Nd Hin) in B, K. cbn in B, K. split; [exact B | exact K].
  - intros cell u Hin Hm.
    destruct (U (udtKey (script u))) as [_ K].
    unfold udtCellCountOf in K. cbn [tot_udtMap mapGet] in K.
    assert (Hpos : (1 <= length (filter (countsUnder udtCfgInfos (udtKey (script u))) cells))%nat).
    { assert (Hf : In cell (filter (countsUnder udtCfgInfos (udtKey (script u))) cells)).
      { apply filter_In. split; [exact Hin|]. unfold countsUnder. rewrite Hm.
        apply eqb_refl. }
      apply In_nth with (d := cell) in Hf. destruct Hf as (i & Hi & _). lia. }
    destruct (mapGet (tot_udtMap t) (udtKey (script u))) as [v|] eqn:Eg; [|cbn in K; lia].
    apply mapGet_some_in in Eg. exists v. split.
    + apply in_map_iff. exists (udtKey (script u), v). split; [reflexivity | exact Eg].
    + rewrite Forall_forall in Sd. destruct (Sd _ Eg) as (Hk & _). cbn [fst snd] in Hk.
      symmetry. exact Hk.
Qed.

Lemma computeAccountBalance_entries_witness :
  exists ab,
    computeAccountBalance Sample.account Sample.registered testnet = Ok ab
    /\ ckbBalance ab = 500%Z
    /\ ckbCellCount ab = 1%nat
    /\ map balance (udtBalances ab) = [42%Z].
Proof.
  eexists. split; [vm_compute; reflexivity|].
  match goal with
  | |- ckbBalance ?ab = _ /\ _ =>
      destruct (computeAccountBalance_entries Sample.account Sample.registered testnet ab)
        as (Hb & Hc & _); [vm_compute; reflexivity|]
  end.
  split; [exact Hb|]. split; [exact Hc | reflexivity].
Defined.

(** ** ChannelDeathTracer: the shape of a trace *)

Lemma present_truthy x s : present x = Some s -> truthy s = true.
Proof.
  unfold present. destruct x as [y|]; [|discriminate].
  destruct (truthy y) eqn:E; [|discriminate]. intros H. inversion H; subst. exact E.
Qed.

Section Trace.

Variable client : ChainQueryClient.
Variables rpcUrl commitmentCodeHash : jsstring.

Local Abbreviation valid :=
  (fun it : TraceItem =>
     getTxMessage client rpcUrl commitmentCodeHash (trace_tx_hash it) = Ok (msg it)).

Lemma traceLoop_follows fuel : forall cur acc items,
  truthy cur = true ->
  traceLoop fuel client rpcUrl commitmentCodeHash cur acc = Some (Ok items) ->
  exists ext,
    items = acc ++ ext
    /\ Forall valid ext
    /\ follows client rpcUrl commitmentCodeHash cur ext.
Proof.
  induction fuel as [|fuel IH]; intros cur acc items Hcur H; [discriminate|].
  cbn [traceLoop] in H. rewrite Hcur in H.
  destruct (getLnCellDeathHash client rpcUrl cur) as [d|] eqn:Ed; [|discriminate].
  destruct (present (txHash d)) as [next|] eqn:Ep.
  - destruct (getTxMessage client rpcUrl commitmentCodeHash next) as [m|] eqn:Em;
      [|discriminate].
    set (it := {| trace_tx_hash := next; msg := m |}) in *.
    destruct (sameHash (codeHash d) commitmentCodeHash) eqn:Es; cbn [negb] in H.
    + destruct (IH next (acc ++ [it]) items (present_truthy _ _ Ep) H)
        as (ext & -> & V & F).
      exists (it :: ext). split; [now rewrite <- app_assoc|].
      split; [constructor; [exact Em | exact V]|].
      cbn [follows]. exists d. split; [exact Ed|]. split; [exact Ep|].
      rewrite Es. exact F.
    + inversion H; subst items. exists [it]. split; [reflexivity|].
      split; [constructor; [exact Em | constructor]|].
      cbn [follows]. exists d. split; [exact Ed|]. split; [exact Ep|].
      rewrite Es. reflexivity.
  - inversion H; subst items. exists []. split; [now rewrite app_nil_r|].
    split; [constructor|]. cbn [follows]. exists d. split; [exact Ed | exact Ep].
Qed.

End Trace.

(** X12. A trace that [getLnTxTrace] returns starts with the opening
    transaction and every item carries the message [getTxMessage] builds for
    its hash. The opening transaction is alone when its death lookup finds
    no spend; otherwise its spend follows it, and from there on every item
    is followed by the spend its death lookup finds for as long as the lock
    code hash the lookup reports is the commitment code hash. The trace
    ends at the first item whose lookup finds no spend, or with the first
    spend found under another lock code hash, whose own spend is not looked
    up. *)
Theorem getLnTxTrace_walk fuel client rpcUrl commitmentCodeHash openChannelTxHash items :
  getLnTxTrace fuel client rpcUrl commitmentCodeHash openChannelTxHash = Some (Ok items) ->
  Forall (fun it => getTxMessage client rpcUrl commitmentCodeHash (trace_tx_hash it)
                    = Ok (msg it)) items
  /\ exists first rest d,
       items = first :: rest
       /\ trace_tx_hash first = openChannelTxHash
       /\ getLnCellDeathHash client rpcUrl openChannelTxHash = Ok d
       /\ match rest with
          | [] => present (txHash d) = None
          | second :: rest' =>
              present (txHash d) = Some (trace_tx_hash second)
              /\ follows client rpcUrl commitmentCodeHash (trace_tx_hash second) rest'
          end.
Proof.
  unfold getLnTxTrace.
  destruct (getTxMessage client rpcUrl commitmentCodeHash openChannelTxHash)
    as [msg0|] eqn:E0; [|discriminate].
  set (it0 := {| trace_tx_hash := openChannelTxHash; msg := msg0 |}).
  destruct (getLnCellDeathHash client rpcUrl openChannelTxHash) as [d|] eqn:Ed;
    [|discriminate].
  destruct (present (txHash d)) as [next|] eqn:Ep.
  - destruct (getTxMessage client rpcUrl commitmentCodeHash next) as [m|] eqn:Em;
      [|discriminate].
    set (it1 := {| trace_tx_hash := next; msg := m |}).
    intros H.
    destruct (traceLoop_follows client rpcUrl commitmentCodeHash fuel next
                ([it0] ++ [it1]) items (present_truthy _ _ Ep) H) as (ext & -> & V & F).
    split.
    + constructor; [exact E0|]. constructor; [exact Em | exact V].
    + exists it0, (it1 :: ext), d. split; [reflexivity|]. split; [reflexivity|].
      split; [reflexivity|]. split; [exact Ep | exact F].
  - intros H. inversion H; subst items. split.
    + constructor; [exact E0 | constructor].
    + exists it0, [], d. split; [reflexivity|]. split; [reflexivity|].
      split; [reflexivity | exact Ep].
Qed.

Lemma getLnTxTrace_walk_witness :
  exists items d,
    getLnTxTrace 2 Sample.settledClient Sample.rpc Sample.commitment (str "0xa0")
    = Some (Ok items)
    /\ map trace_tx_hash items = [str "0xa0"; str "0xa1"; str "0xa2"; str "0xa3"]
    /\ follows Sample.settledClient Sample.rpc Sample.commitment (str "0xa1")
         (skipn 2 items)
    /\ getLnCellDeathHash Sample.settledClient Sample.rpc (str "0xa3") = Ok d
    /\ present (txHash d) = Some (str "0xa4").
Proof.
  eexists. eexists. split; [vm_compute; reflexivity|]. split; [reflexivity|].
  split; [|split; [vm_compute; reflexivity | reflexivity]].
  match goal with
  | |- follows _ _ _ _ (skipn 2 ?l) =>
      destruct (getLnTxTrace_walk 2 Sample.settledClient Sample.rpc Sample.commitment
                  (str "0xa0") l ltac:(vm_compute; reflexivity))
        as (_ & first & rest & d0 & Hi & _ & _ & Hrest)
  end.
  inversion Hi; subst first rest. cbn [skipn]. exact (proj2 Hrest).
Defined.

(** ** BalanceAggregator: one more cell in the account *)

Lemma sumZ_app l1 l2 : sumZ (l1 ++ l2) = (sumZ l1 + sumZ l2)%Z.
Proof.
  unfold sumZ. induction l1 as [|x l1 IH]; cbn [app fold_right]; [reflexivity|].
  rewrite IH. lia.
Qed.

Lemma sum_filter_insert {A} (f : A -> Z) (p : A -> bool) pre c post :
  sumZ (map f (filter p (pre ++ c :: post)))
  = (sumZ (map f (filter p (pre ++ post))) + if p c then f c else 0)%Z.
Proof.
  rewrite !filter_app, !map_app, !sumZ_app. cbn [filter].
  destruct (p c); cbn [map]; [|lia].
  change (sumZ (f c :: map f (filter p post))) with (f c + sumZ (map f (filter p post)))%Z.
  lia.
Qed.

Lemma length_filter_insert {A} (p : A -> bool) pre c post :
  length (filter p (pre ++ c :: post))
  = (length (filter p (pre ++ post)) + if p c then 1 else 0)%nat.
Proof.
  rewrite !filter_app, !length_app. cbn [filter].
  destruct (p c); cbn [length]; lia.
Qed.

Lemma find_entry (m : UdtMap) key :
  Forall (fun e => fst e = udtKey (typeScript (snd e))) m ->
  find (fun e => eqb (udtKey (typeScript e)) key) (map snd m) = mapGet m key.
Proof.
  induction 1 as [|[k v] m Hk _ IH]; cbn [map find mapGet snd]; [reflexivity|].
  cbn [fst snd] in Hk. rewrite <- Hk. destruct (eqb k key); [reflexivity | exact IH].
Qed.

(** What an account that [computeAccountBalance] returns holds, entry by
    entry. *)
Lemma computeAccountBalance_summary cells udtCfgInfos network ab :
  computeAccountBalance cells udtCfgInfos network = Ok ab ->
  ckbBalance ab = sumZ (map capacityOf (filter (countsAsCkb udtCfgInfos) cells))
  /\ ckbCellCount ab = length (filter (countsAsCkb udtCfgInfos) cells)
  /\ (forall key,
        entryBalance ab key
        = sumZ (map amountOf (filter (countsUnder udtCfgInfos key) cells))
        /\ entryCells ab key = length (filter (countsUnder udtCfgInfos key) cells))
  /\ forall key e,
       udtEntry ab key = Some e ->
       exists u, In u udtCfgInfos /\ udtKey (script u) = key
                 /\ name e = cfg_name u /\ typeScript e = script u.
Proof.
  unfold computeAccountBalance.
  destruct (forEachM _ cells _) as [t|] eqn:E; cbn [bind]; [|discriminate].
  intros H. inversion H; subst ab; clear H.
  unfold entryBalance, entryCells, udtEntry. cbn [ckbBalance ckbCellCount udtBalances].
  destruct (forEach_accountCell _ _ _ _ E) as (C & N & U). cbn in C, N.
  destruct (forEach_accountCell_counts udtCfgInfos cells _ _ E) as (_ & Sd & _);
    [constructor | constructor |].
  assert (Hkeys : Forall (fun e => fst e = udtKey (typeScript (snd e))) (tot_udtMap t)).
  { eapply Forall_impl; [|exact Sd]. intros e He. exact (proj1 He). }
  split; [exact C|]. split; [exact N|]. split.
  - intros key. rewrite (find_entry _ key Hkeys).
    destruct (U key) as [B K]. unfold udtBalanceOf, udtCellCountOf in B, K.
    cbn [tot_udtMap mapGet] in B, K. split; [rewrite B; lia | rewrite K; lia].
  - intros key e He. rewrite (find_entry _ key Hkeys) in He.
    apply mapGet_some_in in He. rewrite Forall_forall in Sd.
    destruct (Sd _ He) as (Hk & _ & u & Hin & Hn & Hs). cbn [fst snd] in Hk, Hn, Hs.
    exists u. split; [exact Hin|]. split; [now rewrite <- Hs|]. split; assumption.
Qed.

Lemma accountCell_returns udtCfgInfos t cell :
  (exists t', accountCell udtCfgInfos t cell = Ok t')
  <-> (if countsAsCkb udtCfgInfos cell
       then exists cap, BigInt (live_capacity cell) = Ok cap
       else exists amount, udtAmount cell = Ok amount).
Proof.
  unfold accountCell, countsAsCkb, matchedUdtOf, countAsCkb.
  assert (Hckb : (exists s', (cap <- BigInt (live_capacity cell) ;;
                              Ok {| tot_ckbBalance := tot_ckbBalance t + cap;
                                    tot_ckbCellCount := S (tot_ckbCellCount t);
                                    tot_udtMap := tot_udtMap t |}) = Ok s')
                 <-> exists cap, BigInt (live_capacity cell) = Ok cap).
  { destruct (BigInt (live_capacity cell)) as [cap|e]; cbn [bind].
    - split; intros _; eexists; reflexivity.
    - split; intros [x H]; discriminate H. }
  destruct (live_type cell) as [ty|]; cbn [isNull]; [|exact Hckb].
  destruct (find _ udtCfgInfos) as [u|]; cbn [isNull]; [|exact Hckb].
  destruct (udtAmount cell) as [amount|e]; cbn [bind].
  - split; intros _; eexists; reflexivity.
  - split; intros [x H]; discriminate H.
Qed.

(** An account with one more cell, anywhere among the others: the new
    account exists when the cell's field parses, and differs from the old
    one by the cell's contribution. *)
Lemma computeAccountBalance_insert pre post cell udtCfgInfos network ab :
  computeAccountBalance (pre ++ post) udtCfgInfos network = Ok ab ->
  (if countsAsCkb udtCfgInfos cell
   then exists cap, BigInt (live_capacity cell) = Ok cap
   else exists amount, udtAmount cell = Ok amount) ->
  exists ab',
    computeAccountBalance (pre ++ cell :: post) udtCfgInfos network = Ok ab'
    /\ ckbBalance ab'
       = (ckbBalance ab + if countsAsCkb udtCfgInfos cell then capacityOf cell else 0)%Z
    /\ ckbCellCount ab'
       = (ckbCellCount ab + if countsAsCkb udtCfgInfos cell then 1 else 0)%nat
    /\ forall key,
         entryBalance ab' key
         = (entryBalance ab key
            + if countsUnder udtCfgInfos key cell then amountOf cell else 0)%Z
         /\ entryCells ab' key
            = (entryCells ab key + if countsUnder udtCfgInfos key cell then 1 else 0)%nat.
Proof.
  intros Hab Hcell.
  set (t0 := {| tot_ckbBalance := 0; tot_ckbCellCount := 0; tot_udtMap := [] |}).
  assert (Hrun : exists t, forEachM (accountCell udtCfgInfos) (pre ++ cell :: post) t0 = Ok t).
  { apply (forEachM_ok_iff (accountCell udtCfgInfos) _ _ (accountCell_returns udtCfgInfos)).
    assert (Hold : Forall (fun c => if countsAsCkb udtCfgInfos c
                                    then exists cap, BigInt (live_capacity c) = Ok cap
                                    else exists amount, udtAmount c = Ok amount)
                          (pre ++ post)).
    { apply (forEachM_ok_iff (accountCell udtCfgInfos) _ _ (accountCell_returns udtCfgInfos) t0).
      unfold computeAccountBalance in Hab. fold t0 in Hab.
      destruct (forEachM (accountCell udtCfgInfos) (pre ++ post) t0) as [t|];
        [eauto | discriminate]. }
    apply Forall_app in Hold as [Hpre Hpost].
    apply Forall_app. split; [exact Hpre|]. constructor; [exact Hcell | exact Hpost]. }
  destruct Hrun as [t Ht].
  assert (Hab' : exists ab', computeAccountBalance (pre ++ cell :: post) udtCfgInfos network
                             = Ok ab').
  { unfold computeAccountBalance. fold t0. rewrite Ht. cbn [bind]. eauto. }
  destruct Hab' as [ab' Hab']. exists ab'. split; [exact Hab'|].
  destruct (computeAccountBalance_summary _ _ _ _ Hab) as (C & N & U & _).
  destruct (computeAccountBalance_summary _ _ _ _ Hab') as (C' & N' & U' & _).
  split; [|split].
  - rewrite C', C. apply sum_filter_insert.
  - rewrite N', N. apply length_filter_insert.
  - intros key. destruct (U key) as [B K]. destruct (U' key) as [B' K'].
    rewrite B', B, K', K. split; [apply sum_filter_insert | apply length_filter_insert].
Qed.





(** ** The two readings of a UDT amount *)

Lemma mapM_nth {A B} (f : A -> JsResult B) xs ys :
  mapM f xs = Ok ys ->
  forall i x, nth_error xs i = Some x -> exists y, nth_error ys i = Some y /\ f x = Ok y.
Proof.
  intros H. apply mapM_ok_inv in H.
  induction H as [|x0 y0 xs ys Hxy _ IH]; intros i x Hi.
  - destruct i; discriminate.
  - destruct i as [|i]; cbn [nth_error] in *.
    + inversion Hi; subst. eauto.
    + now apply IH.
Qed.

Lemma indexed_nth {A} (xs : list A) i x :
  nth_error xs i = Some x -> nth_error (indexed xs) i = Some (i, x).
Proof.
  unfold indexed.
  enough (H : forall s, nth_error xs i = Some x ->
                        nth_error (combine (seq s (length xs)) xs) i = Some ((s + i)%nat, x))
    by (intros Hi; exact (H 0%nat Hi)).
  revert i. induction xs as [|y xs IH]; intros i s Hi.
  - destruct i; discriminate.
  - destruct i as [|i]; cbn [length seq combine nth_error] in *.
    + inversion Hi; subst. now rewrite Nat.add_0_r.
    + rewrite (IH i (S s) Hi). f_equal. f_equal. lia.
Qed.

(** X3. The two UDT readings differ on data longer than 16 bytes. For data
    of [0x] and an even number of at least 32 hex digits, the message
    [getTxMessage] returns records as [udt_capacity] of an output cell, and
    of the cell of an input, with a type script the little-endian value of
    the whole data, while
    [computeAccountBalance] adds to the balance of the cell's UDT entry the
    value of the first 16 bytes only; the first exceeds the second by 2^128
    times the value of the remaining bytes. *)
Theorem udt_capacity_reads_whole_data (d : jsstring) :
  isHex d = true ->
  Nat.even (length d) = true ->
  (32 <= length d)%nat ->
  (forall client rpcUrl commitmentCodeHash txHash txData msg i output ty,
     getTransaction client rpcUrl txHash = Ok (Some txData) ->
     getTxMessage client rpcUrl commitmentCodeHash txHash = Ok msg ->
     nth_error (outputs (transaction txData)) i = Some output ->
     type_ output = Some ty ->
     nth_error (outputs_data (transaction txData)) i = Some (str "0x" ++ d) ->
     exists c,
       nth_error (output_cells msg) i = Some c
       /\ udt_capacity c = Some (leValue (hexBytes d)))
  /\ (forall client rpcUrl commitmentCodeHash txHash txData msg i input prevTxData
             prevOutput ty,
        getTransaction client rpcUrl txHash = Ok (Some txData) ->
        getTxMessage client rpcUrl commitmentCodeHash txHash = Ok msg ->
        nth_error (inputs (transaction txData)) i = Some input ->
        let outputIndex := parseInt16 (index (previous_output input)) in
        getTransaction client rpcUrl (tx_hash (previous_output input)) = Ok (Some prevTxData) ->
        elementAt (outputs (transaction prevTxData)) outputIndex = Some prevOutput ->
        type_ prevOutput = Some ty ->
        elementAt (outputs_data (transaction prevTxData)) outputIndex = Some (str "0x" ++ d) ->
        exists c,
          nth_error (input_cells msg) i = Some c
          /\ udt_capacity c = Some (leValue (hexBytes d)))
  /\ (forall pre post cell udtCfgInfos network ab matchedUdt,
        computeAccountBalance (pre ++ post) udtCfgInfos network = Ok ab ->
        matchedUdtOf udtCfgInfos cell = Some matchedUdt ->
        live_data cell = str "0x" ++ d ->
        let key := udtKey (script matchedUdt) in
        exists ab',
          computeAccountBalance (pre ++ cell :: post) udtCfgInfos network = Ok ab'
          /\ entryBalance ab' key
             = (entryBalance ab key + leValue (hexBytes (firstn 32 d)))%Z)
  /\ leValue (hexBytes d)
     = (leValue (hexBytes (firstn 32 d)) + 2 ^ 128 * leValue (hexBytes (skipn 32 d)))%Z.
Proof.
  intros Hhex Hev Hlen.
  assert (Hfields : forall ty, udtFields (Some ty) (Some (str "0x" ++ d))
                               = Ok (Some (args ty), Some (leValue (hexBytes d)))).
  { intros ty.
    exact (proj1 (udt_readings d ty
                    {| live_capacity := [];
                       live_lock := ty; live_type := None;
                       live_data := str "0x" ++ d;
                       out_point := {| tx_hash := []; index := [] |} |}
                    Hhex Hev Hlen eq_refl)). }
  split; [|split; [|split]].
  - intros client rpcUrl cch txHash txData msg i output ty Ht Hmsg Ho Hty Hd.
    destruct (getTxMessage_inv _ _ _ _ _ Hmsg) as (txData' & resolved & Ht' & _ & _ & Hb).
    rewrite Ht in Ht'. inversion Ht'; subst txData'; clear Ht'.
    destruct (buildMessage_inv _ _ _ _ _ _ Hb) as (_ & _ & Houts & _).
    destruct (mapM_nth _ _ _ Houts i (i, output) (indexed_nth _ _ _ Ho)) as (c & Hc & Hcell).
    exists c. split; [exact Hc|].
    unfold outputCell in Hcell.
    destruct (BigInt (capacity output)) as [cap|]; cbn [bind] in Hcell; [|discriminate].
    rewrite Hty, Hd, Hfields in Hcell. cbn [bind] in Hcell.
    inversion Hcell. reflexivity.
  - intros client rpcUrl cch txHash txData msg i input prevTxData prevOutput ty
           Ht Hmsg Hi outputIndex Hp Ho Hty Hd.
    destruct (getTxMessage_inv _ _ _ _ _ Hmsg) as (txData' & resolved & Ht' & Hins & _).
    rewrite Ht in Ht'. inversion Ht'; subst txData'; clear Ht'.
    destruct (mapM_nth _ _ _ Hins i input Hi) as (c & Hc & Hcell).
    exists c. split; [exact Hc|].
    unfold cellOfInput, inputCell in Hcell. rewrite Hp in Hcell. cbn [bind] in Hcell.
    fold outputIndex in Hcell. rewrite Ho, Hd in Hcell.
    destruct (BigInt (capacity prevOutput)) as [cap|]; cbn [bind] in Hcell; [|discriminate].
    rewrite Hty, Hfields in Hcell. cbn [bind] in Hcell.
    inversion Hcell. reflexivity.
  - intros pre post cell cfgs network ab u Hab Hm Hd key.
    pose proof (udt_readings d (script u) cell Hhex Hev Hlen Hd) as (_ & Hamt & _).
    assert (Hc : countsAsCkb cfgs cell = false) by (unfold countsAsCkb; now rewrite Hm).
    destruct (computeAccountBalance_insert pre post cell cfgs network ab Hab)
      as (ab' & Hab' & _ & _ & U); [rewrite Hc; eauto|].
    exists ab'. split; [exact Hab'|].
    destruct (U key) as [B _]. unfold countsUnder in B. rewrite Hm in B.
    fold key in B. rewrite eqb_refl in B. unfold amountOf in B. rewrite Hamt in B.
    exact B.
  - pose proof (udt_readings d {| code_hash := []; hash_type := []; args := [] |}
                  {| live_capacity := [];
                     live_lock := {| code_hash := []; hash_type := []; args := [] |};
                     live_type := None; live_data := str "0x" ++ d;
                     out_point := {| tx_hash := []; index := [] |} |}
                  Hhex Hev Hlen eq_refl) as (_ & _ & H).
    exact H.
Qed.

Lemma udt_capacity_reads_whole_data_witness :
  (exists msg c,
     getTxMessage Sample.udtClient Sample.rpc Sample.commitment (str "0xf6") = Ok msg
     /\ nth_error (output_cells msg) 0 = Some c
     /\ udt_capacity c = Some (42 + 2 ^ 128)%Z)
  /\ (exists ab',
        computeAccountBalance
          [Sample.live "0x8e" (Some Sample.xudt) "0x2a00000000000000000000000000000001"]
          Sample.registered testnet = Ok ab'
        /\ entryBalance ab' (udtKey Sample.xudt) = 42%Z).
Proof.
  destruct (udt_capacity_reads_whole_data (str "2a00000000000000000000000000000001")
              eq_refl eq_refl ltac:(apply Nat.leb_le; reflexivity)) as (Hmsg & _ & Hacc & _).
  split.
  - assert (Hrun : exists msg,
              getTxMessage Sample.udtClient Sample.rpc Sample.commitment (str "0xf6") = Ok msg)
      by (eexists; vm_compute; reflexivity).
    destruct Hrun as [msg Hrun].
    destruct (Hmsg Sample.udtClient Sample.rpc Sample.commitment (str "0xf6")
                (Sample.committed Sample.minted) msg 0%nat
                {| capacity := str "0x8e"; lock := Sample.secp "0xb1";
                   type_ := Some Sample.xudt |}
                Sample.xudt eq_refl Hrun eq_refl eq_refl eq_refl) as (c & Hc & Hu).
    exists msg, c. split; [exact Hrun|]. split; [exact Hc | exact Hu].
  - destruct (Hacc [] []
                (Sample.live "0x8e" (Some Sample.xudt) "0x2a00000000000000000000000000000001")
                Sample.registered testnet
                {| ckbBalance := 0; ckbCellCount := 0; udtBalances := [];
                   network := testnet |}
                {| cfg_name := str "RUSD"; script := Sample.xudt |}
                eq_refl eq_refl eq_refl) as (ab' & Hab' & Hb).
    exists ab'. split; [exact Hab' | exact Hb].
Defined.
